(** * The Gantt task tree: reducer, tree helpers, timeline arithmetic

    A shallow embedding of [src/contexts/GanttContext.tsx] (the task
    forest, the reducer and its recursive helpers, the duration function,
    the bar geometry), of the row component of
    [src/components/DraggableTaskRow.tsx] (its drag and resize callbacks,
    its state hooks and the listeners it puts on the document), of the
    handlers of the chart component that dispatch to the reducer and of
    the list fields of the task dialog, followed by the properties proved
    about them. *)

From stdpp Require Import gmap strings list pretty.
From Stdlib Require Import ZArith QArith Qminmax Lia Ascii.

#[local] Set Warnings "-clear-no-such-hyp".
Local Close Scope Q_scope.
Local Open Scope string_scope.
Local Open Scope list_scope.

(** ** Dates

    A JavaScript [Date] is its time value: milliseconds on the local
    wall-clock time line.  [addDays] and [differenceInDays] come from the
    date-fns package, which is not part of the repository; they are
    written here from their documented behaviour on that time line:
    [addDays] moves a date by whole days, [differenceInDays] counts the
    full days between two dates and truncates towards zero.

    The time value of a JavaScript [Date] stays within 8.64e15
    milliseconds of the epoch, 100,000,000 days on either side; a date
    computed past that is the Invalid Date, which [Date] does not have.
    [addDays] is the date-fns function where its result is within that
    range, and the properties of computed dates are stated there
    ([dayInRange]). *)

Definition Date := Z.

Definition msPerDay : Z := 86400000.

(** The calendar date whose day number is [n] (local midnight), the kind
    of value [new Date(y, m, d)] builds. *)
Definition calendarDate (n : Z) : Date := (n * msPerDay)%Z.

Definition addDays (date : Date) (amount : Z) : Date :=
  (date + amount * msPerDay)%Z.

Definition differenceInDays (dateLeft dateRight : Date) : Z :=
  Z.quot (dateLeft - dateRight) msPerDay.

(** [calculateTaskDuration], GanttContext.tsx lines 345-347. *)
Definition calculateTaskDuration (startDate endDate : Date) : Z :=
  (differenceInDays endDate startDate + 1)%Z.

(** ** Tasks *)

Inductive Priority := low | medium | high.
Inductive Status := not_started | in_progress | completed | on_hold.

(** [interface Task], GanttContext.tsx lines 4-20.  A field declared with
    [?] is an [option]: [None] is the absent (undefined) field.  [children]
    is [None] for a task without the array and [Some []] for an empty one:
    the code tests [task.children] for truthiness, and an empty array is
    truthy. *)
#[local] Unset Elimination Schemes.
Inductive Task := mkTask {
  id : string;
  name : string;
  startDate : Date;
  endDate : Date;
  progress : Z;
  color : string;
  isExpanded : option bool;
  children : option (list Task);
  parentId : option string;
  order : Z;
  dependencies : option (list string);
  resources : option (list string);
  notes : option string;
  priority : option Priority;
  status : option Status
}.
#[local] Set Elimination Schemes.

(** [Partial<Task>]: every key may be missing.  [None] is a missing key,
    [Some v] a key that is present with value [v].  [C] is what a
    [children] value is: a list of tasks here, a reference to an array in
    the store of [Module Heap] below. *)
Record TaskUpdatesOf (C : Type) := mkUpdates {
  u_id : option string;
  u_name : option string;
  u_startDate : option Date;
  u_endDate : option Date;
  u_progress : option Z;
  u_color : option string;
  u_isExpanded : option (option bool);
  u_children : option (option C);
  u_parentId : option (option string);
  u_order : option Z;
  u_dependencies : option (option (list string));
  u_resources : option (option (list string));
  u_notes : option (option string);
  u_priority : option (option Priority);
  u_status : option (option Status)
}.
Arguments mkUpdates {C}.
Arguments u_id {C}.
Arguments u_name {C}.
Arguments u_startDate {C}.
Arguments u_endDate {C}.
Arguments u_progress {C}.
Arguments u_color {C}.
Arguments u_isExpanded {C}.
Arguments u_children {C}.
Arguments u_parentId {C}.
Arguments u_order {C}.
Arguments u_dependencies {C}.
Arguments u_resources {C}.
Arguments u_notes {C}.
Arguments u_priority {C}.
Arguments u_status {C}.

Definition TaskUpdates := TaskUpdatesOf (list Task).

(** The object literals [{}], [{ children: c }], [{ isExpanded: b }],
    [{ parentId: p }] and [{ startDate: s, endDate: e }]. *)
Definition noUpdates {C : Type} : TaskUpdatesOf C :=
  mkUpdates None None None None None None None None None None None None
            None None None.

Definition childrenUpdate {C : Type} (c : C) : TaskUpdatesOf C :=
  mkUpdates None None None None None None None (Some (Some c)) None None
            None None None None None.

Definition expansionUpdate {C : Type} (b : bool) : TaskUpdatesOf C :=
  mkUpdates None None None None None None (Some (Some b)) None None None
            None None None None None.

Definition parentUpdate {C : Type} (p : string) : TaskUpdatesOf C :=
  mkUpdates None None None None None None None None (Some (Some p)) None
            None None None None None.

Definition datesUpdate {C : Type} (s e : Date) : TaskUpdatesOf C :=
  mkUpdates None None (Some s) (Some e) None None None None None None
            None None None None None.

(** [{ ...task, ...updates }] *)
Definition mergeTask (task : Task) (updates : TaskUpdates) : Task :=
  {| id := default (id task) (u_id updates);
     name := default (name task) (u_name updates);
     startDate := default (startDate task) (u_startDate updates);
     endDate := default (endDate task) (u_endDate updates);
     progress := default (progress task) (u_progress updates);
     color := default (color task) (u_color updates);
     isExpanded := default (isExpanded task) (u_isExpanded updates);
     children := default (children task) (u_children updates);
     parentId := default (parentId task) (u_parentId updates);
     order := default (order task) (u_order updates);
     dependencies := default (dependencies task) (u_dependencies updates);
     resources := default (resources task) (u_resources updates);
     notes := default (notes task) (u_notes updates);
     priority := default (priority task) (u_priority updates);
     status := default (status task) (u_status updates) |}.

(** [{ ...task, children: c }] *)
Definition withChildren (task : Task) (c : list Task) : Task :=
  mergeTask task (childrenUpdate c).

(** ** Tree helpers *)

(** [updateTaskRecursively], GanttContext.tsx lines 247-257.
    [updateTask] is the callback given to [tasks.map]. *)
Fixpoint updateTask (taskId : string) (updates : TaskUpdates) (task : Task)
  : Task :=
  if bool_decide (id task = taskId) then mergeTask task updates
  else match children task with
       | Some c => withChildren task (map (updateTask taskId updates) c)
       | None => task
       end.

Definition updateTaskRecursively (tasks : list Task) (taskId : string)
    (updates : TaskUpdates) : list Task :=
  map (updateTask taskId updates) tasks.

(** [findTaskById], GanttContext.tsx lines 259-268.  [firstSome f l] is
    the [for ... of] loop that returns the first result found. *)
Definition firstSome {A B : Type} (f : A -> option B) : list A -> option B :=
  fix loop (l : list A) : option B :=
    match l with
    | [] => None
    | x :: rest => match f x with
                   | Some found => Some found
                   | None => loop rest
                   end
    end.

Fixpoint findTask (taskId : string) (task : Task) : option Task :=
  if bool_decide (id task = taskId) then Some task
  else match children task with
       | Some c => firstSome (findTask taskId) c
       | None => None
       end.

Definition findTaskById (tasks : list Task) (taskId : string) : option Task :=
  firstSome (findTask taskId) tasks.

(** [addTaskAtPosition], GanttContext.tsx lines 270-308. *)
Inductive Position := above | below | subtask.

(** Lines 280-284: the target with the new task appended to its children. *)
Definition addSubtask (targetTask newTask : Task) (targetTaskId : string)
  : Task :=
  mergeTask
    (withChildren targetTask
       (default [] (children targetTask) ++
        [mergeTask newTask (parentUpdate targetTaskId)]))
    (expansionUpdate true).

(** The [for] loop of [insertTask] over one list: at a matching entry it
    changes the list and returns; at any other entry [descend] handles the
    children (lines 299-302) and the loop goes on. *)
Definition insertLoop (newTask : Task) (position : Position)
    (targetTaskId : string) (descend : Task -> Task)
  : list Task -> list Task :=
  fix loop (taskList : list Task) : list Task :=
    match taskList with
    | [] => []
    | task :: rest =>
        if bool_decide (id task = targetTaskId) then
          match position with
          | subtask => addSubtask task newTask targetTaskId :: rest
          | above => newTask :: task :: rest
          | below => task :: newTask :: rest
          end
        else descend task :: loop rest
    end.

Fixpoint insertBelow (newTask : Task) (position : Position)
    (targetTaskId : string) (task : Task) : Task :=
  match children task with
  | Some c =>
      withChildren task
        (insertLoop newTask position targetTaskId
           (insertBelow newTask position targetTaskId) c)
  | None => task
  end.

Definition insertTask (newTask : Task) (position : Position)
    (targetTaskId : string) (taskList : list Task) : list Task :=
  insertLoop newTask position targetTaskId
    (insertBelow newTask position targetTaskId) taskList.

Definition addTaskAtPosition (tasks : list Task) (newTask : Task)
    (position : Position) (targetTaskId : string) : list Task :=
  insertTask newTask position targetTaskId tasks.

(** [deleteTaskRecursively], GanttContext.tsx lines 310-318.  [deleteTask]
    is the callback given to [tasks.filter]: [None] when it answers false,
    [Some task'] when it answers true, [task'] being the task as the
    callback leaves it (its [children] reassigned). *)
Fixpoint deleteTask (taskId : string) (task : Task) : option Task :=
  if bool_decide (id task = taskId) then None
  else Some match children task with
            | Some c => withChildren task (omap (deleteTask taskId) c)
            | None => task
            end.

Definition deleteTaskRecursively (tasks : list Task) (taskId : string)
  : list Task :=
  omap (deleteTask taskId) tasks.

(** ** State and actions *)

Inductive ViewMode := day | week | month.
Inductive Handle := handle_start | handle_end.

(** An entry of the root array at run time: a task, or [undefined]
    ([None]), which REORDER_TASKS can store there. *)
Definition slot := option Task.

(** [interface GanttState], GanttContext.tsx lines 22-31.  [zoomLevel] is
    a JavaScript number, taken here as a rational. *)
Record GanttState := mkState {
  tasks : list slot;
  selectedTaskId : option string;
  viewMode : ViewMode;
  isMaximized : bool;
  zoomLevel : Q;
  draggedTask : option Task;
  isResizing : bool;
  resizeHandle : option Handle
}.

(** [type GanttAction], GanttContext.tsx lines 33-50.  The two dates of
    RESIZE_TASK are declared optional; the resize handler, its only
    dispatcher, always sends both, and so does this constructor.  Array
    indices are JavaScript numbers, taken here as integers. *)
Inductive GanttAction :=
  | SET_TASKS (payload : list Task)
  | ADD_TASK (payload : Task)
  | ADD_TASK_AT_POSITION (task : Task) (position : Position)
      (targetTaskId : string)
  | UPDATE_TASK (taskId : string) (updates : TaskUpdates)
  | DELETE_TASK (payload : string)
  | SELECT_TASK (payload : option string)
  | TOGGLE_TASK_EXPANSION (payload : string)
  | SET_VIEW_MODE (payload : ViewMode)
  | TOGGLE_MAXIMIZE
  | SET_ZOOM_LEVEL (payload : Q)
  | START_DRAG (payload : Task)
  | END_DRAG
  | REORDER_TASKS (sourceIndex destinationIndex : Z)
  | MOVE_TASK_TO_PARENT (taskId : string) (newParentId : option string)
      (newIndex : Z)
  | START_RESIZE (taskId : string) (handle : Handle)
  | END_RESIZE
  | RESIZE_TASK (taskId : string) (newStartDate newEndDate : Date).

(** *** Exceptions

    Reading [task.id] when [task] is [undefined] throws a TypeError; a
    computation either returns a value or throws. *)
Inductive result (A : Type) : Type :=
  | Ok (a : A)
  | TypeError.
Arguments Ok {A} a.
Arguments TypeError {A}.

#[global] Instance result_ret : MRet result := fun A a => Ok a.
#[global] Instance result_bind : MBind result := fun A B k r =>
  match r with
  | Ok a => k a
  | TypeError => TypeError
  end.

(** The task in a slot, as [slot.id] and [slot.children] need it. *)
Definition deref (s : slot) : result Task :=
  match s with
  | Some task => Ok task
  | None => TypeError
  end.

(** *** The helpers on the root array

    At the root the helpers meet slots.  Each definition below is the
    helper's loop over the root array: the same steps as above, taken on
    the task of each slot, and a TypeError at an [undefined] slot. *)

(** [tasks.map(callback)] with a callback that may throw. *)
Definition mapResult {A B : Type} (f : A -> result B)
  : list A -> result (list B) :=
  fix loop (l : list A) : result (list B) :=
    match l with
    | [] => Ok []
    | x :: rest => y ← f x; ys ← loop rest; mret (y :: ys)
    end.

Definition updateRoot (tasks : list slot) (taskId : string)
    (updates : TaskUpdates) : result (list slot) :=
  mapResult (fun s => task ← deref s;
                      mret (Some (updateTask taskId updates task))) tasks.

(** [tasks.filter(callback)] with a callback that may throw; the callback
    answers with the entry to keep, if any. *)
Definition filterResult {A : Type} (f : A -> result (option A))
  : list A -> result (list A) :=
  fix loop (l : list A) : result (list A) :=
    match l with
    | [] => Ok []
    | x :: rest => y ← f x; ys ← loop rest;
                   mret (match y with Some x' => x' :: ys | None => ys end)
    end.

Definition deleteRoot (tasks : list slot) (taskId : string)
  : result (list slot) :=
  filterResult (fun s => task ← deref s;
                         mret (Some <$> deleteTask taskId task)) tasks.

Fixpoint findRoot (tasks : list slot) (taskId : string)
  : result (option Task) :=
  match tasks with
  | [] => Ok None
  | s :: rest =>
      task ← deref s;
      match findTask taskId task with
      | Some found => Ok (Some found)
      | None => findRoot rest taskId
      end
  end.

Fixpoint insertRoot (newTask : Task) (position : Position)
    (targetTaskId : string) (taskList : list slot) : result (list slot) :=
  match taskList with
  | [] => Ok []
  | s :: rest =>
      task ← deref s;
      if bool_decide (id task = targetTaskId) then
        Ok match position with
           | subtask => Some (addSubtask task newTask targetTaskId) :: rest
           | above => Some newTask :: Some task :: rest
           | below => Some task :: Some newTask :: rest
           end
      else
        rest' ← insertRoot newTask position targetTaskId rest;
        mret (Some (insertBelow newTask position targetTaskId task) :: rest')
  end.

(** *** [Array.prototype.splice]

    [splice l start deleteCount items] is the array after the call and the
    array of removed entries.  A negative [start] counts from the end; the
    start is clamped to [0 .. length], the count to what is left. *)
Definition spliceStart (len : nat) (start : Z) : nat :=
  if (start <? 0)%Z then Z.to_nat (Z.max (Z.of_nat len + start) 0)
  else Z.to_nat (Z.min start (Z.of_nat len)).

Definition splice {A : Type} (l : list A) (start deleteCount : Z)
    (items : list A) : list A * list A :=
  let actualStart := spliceStart (length l) start in
  let actualDeleteCount :=
    Z.to_nat (Z.min (Z.max deleteCount 0)
                    (Z.of_nat (length l) - Z.of_nat actualStart)) in
  (take actualStart l ++ items ++ drop (actualStart + actualDeleteCount) l,
   take actualDeleteCount (drop actualStart l)).

(** Lines 216-218 of the reducer: [const [removed] = ...] is the first
    removed entry, or [undefined] when nothing was removed. *)
Definition reorderTasks (tasks : list slot) (sourceIndex destinationIndex : Z)
  : list slot :=
  let '(reorderedTasks, removedEntries) := splice tasks sourceIndex 1 [] in
  let removed : slot := default None (head removedEntries) in
  fst (splice reorderedTasks destinationIndex 0 [removed]).

(** *** The reducer *)

(** [{ ...state, tasks: t }] *)
Definition withTasks (state : GanttState) (t : list slot) : GanttState :=
  {| tasks := t;
     selectedTaskId := selectedTaskId state;
     viewMode := viewMode state;
     isMaximized := isMaximized state;
     zoomLevel := zoomLevel state;
     draggedTask := draggedTask state;
     isResizing := isResizing state;
     resizeHandle := resizeHandle state |}.

(** [ganttReducer], GanttContext.tsx lines 163-244. *)
Definition ganttReducer (state : GanttState) (action : GanttAction)
  : result GanttState :=
  match action with
  | SET_TASKS payload => Ok (withTasks state (Some <$> payload))
  | ADD_TASK payload => Ok (withTasks state (tasks state ++ [Some payload]))
  | ADD_TASK_AT_POSITION task position targetTaskId =>
      t ← insertRoot task position targetTaskId (tasks state);
      mret (withTasks state t)
  | UPDATE_TASK taskId updates =>
      t ← updateRoot (tasks state) taskId updates;
      mret (withTasks state t)
  | DELETE_TASK payload =>
      t ← deleteRoot (tasks state) payload;
      mret (withTasks state t)
  | SELECT_TASK payload =>
      Ok {| tasks := tasks state;
            selectedTaskId := payload;
            viewMode := viewMode state;
            isMaximized := isMaximized state;
            zoomLevel := zoomLevel state;
            draggedTask := draggedTask state;
            isResizing := isResizing state;
            resizeHandle := resizeHandle state |}
  | TOGGLE_TASK_EXPANSION payload =>
      found ← findRoot (tasks state) payload;
      t ← updateRoot (tasks state) payload
            (expansionUpdate
               (negb (default false (found ≫= isExpanded))));
      mret (withTasks state t)
  | SET_VIEW_MODE payload =>
      Ok {| tasks := tasks state;
            selectedTaskId := selectedTaskId state;
            viewMode := payload;
            isMaximized := isMaximized state;
            zoomLevel := zoomLevel state;
            draggedTask := draggedTask state;
            isResizing := isResizing state;
            resizeHandle := resizeHandle state |}
  | TOGGLE_MAXIMIZE =>
      Ok {| tasks := tasks state;
            selectedTaskId := selectedTaskId state;
            viewMode := viewMode state;
            isMaximized := negb (isMaximized state);
            zoomLevel := zoomLevel state;
            draggedTask := draggedTask state;
            isResizing := isResizing state;
            resizeHandle := resizeHandle state |}
  | SET_ZOOM_LEVEL payload =>
      Ok {| tasks := tasks state;
            selectedTaskId := selectedTaskId state;
            viewMode := viewMode state;
            isMaximized := isMaximized state;
            zoomLevel := Qmax (1 # 2)%Q (Qmin 3%Q payload);
            draggedTask := draggedTask state;
            isResizing := isResizing state;
            resizeHandle := resizeHandle state |}
  | START_DRAG payload =>
      Ok {| tasks := tasks state;
            selectedTaskId := selectedTaskId state;
            viewMode := viewMode state;
            isMaximized := isMaximized state;
            zoomLevel := zoomLevel state;
            draggedTask := Some payload;
            isResizing := isResizing state;
            resizeHandle := resizeHandle state |}
  | END_DRAG =>
      Ok {| tasks := tasks state;
            selectedTaskId := selectedTaskId state;
            viewMode := viewMode state;
            isMaximized := isMaximized state;
            zoomLevel := zoomLevel state;
            draggedTask := None;
            isResizing := isResizing state;
            resizeHandle := resizeHandle state |}
  | REORDER_TASKS sourceIndex destinationIndex =>
      Ok (withTasks state
            (reorderTasks (tasks state) sourceIndex destinationIndex))
  | START_RESIZE taskId handle =>
      Ok {| tasks := tasks state;
            selectedTaskId := Some taskId;
            viewMode := viewMode state;
            isMaximized := isMaximized state;
            zoomLevel := zoomLevel state;
            draggedTask := draggedTask state;
            isResizing := true;
            resizeHandle := Some handle |}
  | END_RESIZE =>
      Ok {| tasks := tasks state;
            selectedTaskId := selectedTaskId state;
            viewMode := viewMode state;
            isMaximized := isMaximized state;
            zoomLevel := zoomLevel state;
            draggedTask := draggedTask state;
            isResizing := false;
            resizeHandle := None |}
  | RESIZE_TASK taskId newStartDate newEndDate =>
      t ← updateRoot (tasks state) taskId
            (datesUpdate newStartDate newEndDate);
      mret (withTasks state t)
  | MOVE_TASK_TO_PARENT _ _ _ =>
      (* no case of its own in the switch: the default branch *)
      Ok state
  end.

(** ** The resize session

    [handleResizeMouseMove], DraggableTaskRow.tsx lines 113-142 (the same
    handler is in GanttChart.tsx).  The arguments are what the callback
    reads: [isResizing] and [resizeHandle] as its closure holds them (the
    values of the two state hooks in the render that made the callback),
    the anchor [originalTask.current] (a ref, read when the callback
    runs), the id of the row's task, and [daysDelta], the rounded
    quotient of the pointer offset by the day width.  The result is the
    action it dispatches, if it dispatches one. *)
Definition handleResizeMouseMove (isResizing : bool)
    (originalTask : option Task) (resizeHandle : option Handle)
    (taskId : string) (daysDelta : Z) : option GanttAction :=
  match isResizing, originalTask, resizeHandle with
  | true, Some original, Some handle =>
      if bool_decide (daysDelta ≠ 0%Z) then
        match handle with
        | handle_start =>
            let newStartDate := addDays (startDate original) daysDelta in
            let newStartDate :=
              if bool_decide (endDate original ≤ newStartDate)%Z
              then addDays (endDate original) (-1)
              else newStartDate in
            Some (RESIZE_TASK taskId newStartDate (endDate original))
        | handle_end =>
            let newEndDate := addDays (endDate original) daysDelta in
            let newEndDate :=
              if bool_decide (newEndDate ≤ startDate original)%Z
              then addDays (startDate original) 1
              else newEndDate in
            Some (RESIZE_TASK taskId (startDate original) newEndDate)
        end
      else None
  | _, _, _ => None
  end.

(** ** The timeline drag

    [handleTimelineMouseMove], DraggableTaskRow.tsx lines 74-92.  The
    arguments are what the callback reads: [isDraggingTimeline] as its
    closure holds it (the value of the state hook in the render that made
    the callback), the anchor [originalTask.current] (a ref, read when
    the callback runs), the id of the row's task, and [daysDelta], the
    rounded quotient of the pointer offset by the day width. *)
Definition handleTimelineMouseMove (isDraggingTimeline : bool)
    (originalTask : option Task) (taskId : string) (daysDelta : Z)
  : option GanttAction :=
  match isDraggingTimeline, originalTask with
  | true, Some original =>
      if bool_decide (daysDelta ≠ 0%Z) then
        let newStartDate := addDays (startDate original) daysDelta in
        let newEndDate := addDays (endDate original) daysDelta in
        Some (UPDATE_TASK taskId (datesUpdate newStartDate newEndDate))
      else None
  | _, _ => None
  end.

(** ** The row component

    [DraggableTaskRow], DraggableTaskRow.tsx lines 19-151, between two
    events: its state hooks, the ref that holds the anchor, and the
    listeners it has put on [document].

    A callback made by [useCallback] closes over the values of the render
    that made it.  [handleTimelineMouseDown] and [handleResizeStart] are
    made again only in a render whose [task] prop is a new object (their
    dependency lists, lines 72 and 111).  The move and up callbacks they
    put on the document are the ones of that same render, and these have
    the state hooks among their dependencies (lines 92 and 142): they
    hold the values the hooks had in that render, whatever the hooks hold
    when the pointer moves.  A ref is read when a callback runs. *)

(** What the callbacks of a render close over: the [task] prop and the
    values of the three state hooks (lines 28-30).  [r_made] numbers the
    renders, and tells the callbacks of one from those of another. *)
Record Render := mkRender {
  r_made : nat;
  r_task : Task;
  r_isDraggingTimeline : bool;
  r_isResizing : bool;
  r_resizeHandle : option Handle
}.

(** A listener on [document]: one of the four callbacks the row puts
    there (lines 69-70 and 109-110), with the render [r] it closes
    over, the one of the callback that put it there. *)
Inductive Listener :=
  | TimelineMouseMove (r : Render)
  | TimelineMouseUp (r : Render)
  | ResizeMouseMove (r : Render)
  | ResizeMouseUp (r : Render).

(** The row.  [row_callbacks] is the render that made the
    [handleTimelineMouseDown] and the [handleResizeStart] the bar and its
    handles call now; [row_listeners] are the listeners on [document], in
    the order they were added.  The ref [startDragX] is behind
    [daysDelta]. *)
Record DraggableTaskRow := mkRow {
  row_isDraggingTimeline : bool;      (* useState(false), line 28 *)
  row_isResizing : bool;              (* useState(false), line 29 *)
  row_resizeHandle : option Handle;   (* useState(null), line 30 *)
  row_originalTask : option Task;     (* useRef(null), line 33 *)
  row_callbacks : Render;
  row_listeners : list Listener
}.

(** The first render. *)
Definition mount (task : Task) : DraggableTaskRow :=
  {| row_isDraggingTimeline := false;
     row_isResizing := false;
     row_resizeHandle := None;
     row_originalTask := None;
     row_callbacks := mkRender 0 task false false None;
     row_listeners := [] |}.

(** A render with a new [task] prop: the callbacks of the bar are made
    again and close over the hooks as they are now. *)
Definition render (task : Task) (row : DraggableTaskRow)
  : DraggableTaskRow :=
  {| row_isDraggingTimeline := row_isDraggingTimeline row;
     row_isResizing := row_isResizing row;
     row_resizeHandle := row_resizeHandle row;
     row_originalTask := row_originalTask row;
     row_callbacks :=
       mkRender (S (r_made (row_callbacks row))) task
                (row_isDraggingTimeline row) (row_isResizing row)
                (row_resizeHandle row);
     row_listeners := row_listeners row |}.

(** The same function: the same callback of the same render. *)
Definition sameCallback (a b : Listener) : bool :=
  match a, b with
  | TimelineMouseMove r, TimelineMouseMove r'
  | TimelineMouseUp r, TimelineMouseUp r'
  | ResizeMouseMove r, ResizeMouseMove r'
  | ResizeMouseUp r, ResizeMouseUp r' => Nat.eqb (r_made r) (r_made r')
  | _, _ => false
  end.

(** [document.addEventListener]: a function that is there already is not
    added again. *)
Definition addEventListener (l : Listener) (listeners : list Listener)
  : list Listener :=
  if existsb (sameCallback l) listeners then listeners
  else listeners ++ [l].

(** [document.removeEventListener] *)
Definition removeEventListener (l : Listener) (listeners : list Listener)
  : list Listener :=
  List.filter (fun l' => negb (sameCallback l l')) listeners.

(** [handleTimelineMouseDown], lines 63-72.  [onBar] is its test of the
    event target. *)
Definition handleTimelineMouseDown (onBar : bool) (row : DraggableTaskRow)
  : DraggableTaskRow :=
  let r := row_callbacks row in
  if onBar then
    {| row_isDraggingTimeline := true;
       row_isResizing := row_isResizing row;
       row_resizeHandle := row_resizeHandle row;
       row_originalTask := Some (r_task r);
       row_callbacks := r;
       row_listeners :=
         addEventListener (TimelineMouseUp r)
           (addEventListener (TimelineMouseMove r) (row_listeners row)) |}
  else row.

(** [handleTimelineMouseUp], lines 94-99, of the render [r]. *)
Definition handleTimelineMouseUp (r : Render) (row : DraggableTaskRow)
  : DraggableTaskRow :=
  {| row_isDraggingTimeline := false;
     row_isResizing := row_isResizing row;
     row_resizeHandle := row_resizeHandle row;
     row_originalTask := None;
     row_callbacks := row_callbacks row;
     row_listeners :=
       removeEventListener (TimelineMouseUp r)
         (removeEventListener (TimelineMouseMove r) (row_listeners row)) |}.

(** [handleResizeStart], lines 102-111: the row after the call and the
    action it dispatches. *)
Definition handleResizeStart (handle : Handle) (row : DraggableTaskRow)
  : DraggableTaskRow * list GanttAction :=
  let r := row_callbacks row in
  ({| row_isDraggingTimeline := row_isDraggingTimeline row;
      row_isResizing := true;
      row_resizeHandle := Some handle;
      row_originalTask := Some (r_task r);
      row_callbacks := r;
      row_listeners :=
        addEventListener (ResizeMouseUp r)
          (addEventListener (ResizeMouseMove r) (row_listeners row)) |},
   [START_RESIZE (id (r_task r)) handle]).

(** [handleResizeMouseUp], lines 144-151, of the render [r]. *)
Definition handleResizeMouseUp (r : Render) (row : DraggableTaskRow)
  : DraggableTaskRow * list GanttAction :=
  ({| row_isDraggingTimeline := row_isDraggingTimeline row;
      row_isResizing := false;
      row_resizeHandle := None;
      row_originalTask := None;
      row_callbacks := row_callbacks row;
      row_listeners :=
        removeEventListener (ResizeMouseUp r)
          (removeEventListener (ResizeMouseMove r) (row_listeners row)) |},
   [END_RESIZE]).

(** A 'mousemove' on the document: every move listener runs, with what
    its render closed over and the anchor as the ref holds it now.  The
    result is the actions dispatched. *)
Definition mouseMove (daysDelta : Z) (row : DraggableTaskRow)
  : list GanttAction :=
  flat_map
    (fun l =>
       match l with
       | TimelineMouseMove r =>
           option_list
             (handleTimelineMouseMove (r_isDraggingTimeline r)
                (row_originalTask row) (id (r_task r)) daysDelta)
       | ResizeMouseMove r =>
           option_list
             (handleResizeMouseMove (r_isResizing r) (row_originalTask row)
                (r_resizeHandle r) (id (r_task r)) daysDelta)
       | TimelineMouseUp _ | ResizeMouseUp _ => []
       end)
    (row_listeners row).

(** A 'mouseup' on the document: every up listener that was there when
    the event came, and has not been removed since, runs. *)
Definition mouseUp (row : DraggableTaskRow)
  : DraggableTaskRow * list GanttAction :=
  fold_left
    (fun (now : DraggableTaskRow * list GanttAction) l =>
       if existsb (sameCallback l) (row_listeners now.1) then
         match l with
         | TimelineMouseUp r => (handleTimelineMouseUp r now.1, now.2)
         | ResizeMouseUp r =>
             ((handleResizeMouseUp r now.1).1,
              now.2 ++ (handleResizeMouseUp r now.1).2)
         | TimelineMouseMove _ | ResizeMouseMove _ => now
         end
       else now)
    (row_listeners row) (row, []).

(** What happens to a row. *)
Inductive RowEvent :=
  | TaskChanged (task : Task)          (* a render with a new [task] *)
  | BarMouseDown (onBar : bool)        (* onMouseDown of the bar, line 259 *)
  | HandleMouseDown (handle : Handle)  (* of a handle, lines 264 and 297 *)
  | MouseMove (daysDelta : Z)
  | MouseUp.

Definition step (row : DraggableTaskRow) (event : RowEvent)
  : DraggableTaskRow * list GanttAction :=
  match event with
  | TaskChanged task => (render task row, [])
  | BarMouseDown onBar => (handleTimelineMouseDown onBar row, [])
  | HandleMouseDown handle => handleResizeStart handle row
  | MouseMove daysDelta => (row, mouseMove daysDelta row)
  | MouseUp => mouseUp row
  end.

(** The row after a list of events, and the actions it has dispatched,
    in order. *)
Fixpoint run (row : DraggableTaskRow) (events : list RowEvent)
  : DraggableTaskRow * list GanttAction :=
  match events with
  | [] => (row, [])
  | event :: rest =>
      let now := step row event in
      let after := run now.1 rest in
      (after.1, now.2 ++ after.2)
  end.

(** ** The bar of a task on the timeline

    [getTaskPosition], GanttContext.tsx lines 349-357, for a day width
    that is a whole number of pixels.  Pixel lengths are JavaScript
    numbers, binary64 floats.  On whole numbers the products and the
    difference of the function are whole numbers, which binary64 holds
    as they are below 2^53, and half a whole number is a binary64 as
    well: no operation rounds, and the lengths are the rationals
    computed here. *)
Record BarPosition := mkPosition {
  p_left : Q;
  p_width : Q
}.

Definition getTaskPosition (task : Task) (timelineStart : Date)
    (dayWidth : Z) : BarPosition :=
  let startOffset :=
    Z.max 0 (differenceInDays (startDate task) timelineStart) in
  let duration := calculateTaskDuration (startDate task) (endDate task) in
  {| p_left := inject_Z (startOffset * dayWidth);
     p_width := Qmax (inject_Z dayWidth * (1 # 2))%Q
                     (inject_Z (duration * dayWidth) - 4)%Q |}.

(** ** The chart component

    The handlers of [ProductionGanttChart] that dispatch to the reducer.
    Each takes what it reads of the component's state and of the clock
    and returns the action it dispatches, if it dispatches one. *)

(** The string literals of [Task['status']] and [Task['priority']],
    GanttContext.tsx lines 18-19. *)
Definition statusName (s : Status) : string :=
  match s with
  | not_started => "not-started"
  | in_progress => "in-progress"
  | completed => "completed"
  | on_hold => "on-hold"
  end.

Definition priorityName (p : Priority) : string :=
  match p with
  | low => "low"
  | medium => "medium"
  | high => "high"
  end.

(** [s.includes(searchString)]: [searchString] occurs in [s]. *)
Fixpoint includes (s searchString : string) : bool :=
  String.prefix searchString s ||
  match s with
  | EmptyString => false
  | String _ rest => includes rest searchString
  end.

(** [array.findIndex(predicate)]: the first index whose entry satisfies
    the predicate, or -1. *)
Definition findIndex {A : Type} (P : A -> Prop) `{!forall x, Decision (P x)}
    (l : list A) : Z :=
  match list_find P l with
  | Some (i, _) => Z.of_nat i
  | None => (-1)%Z
  end.

Section Chart.

(** [String.prototype.toLowerCase] is left open: the properties hold
    whatever it does. *)
Variable toLowerCase : string -> string.

(** The callback of [filteredTasks], ProductionGanttChart.tsx lines
    101-106. *)
Definition matchesFilters (searchTerm filterStatus filterPriority : string)
    (task : Task) : bool :=
  let matchesSearch :=
    includes (toLowerCase (name task)) (toLowerCase searchTerm) in
  let matchesStatus :=
    bool_decide (filterStatus = "all") ||
    bool_decide (statusName <$> status task = Some filterStatus) in
  let matchesPriority :=
    bool_decide (filterPriority = "all") ||
    bool_decide (priorityName <$> priority task = Some filterPriority) in
  matchesSearch && matchesStatus && matchesPriority.

(** [filteredTasks], ProductionGanttChart.tsx lines 100-107: the filter
    over [state.tasks]; the callback reads [task.name] and throws at an
    [undefined] slot. *)
Definition filteredTasks (searchTerm filterStatus filterPriority : string)
  : list slot -> result (list Task) :=
  fix loop (l : list slot) : result (list Task) :=
    match l with
    | [] => Ok []
    | s :: rest =>
        task ← deref s;
        let keep :=
          matchesFilters searchTerm filterStatus filterPriority task in
        kept ← loop rest;
        mret (if keep then task :: kept else kept)
    end.

End Chart.

(** [handleDragEnd], ProductionGanttChart.tsx lines 144-156.  [active] is
    [event.active.id], [over] is [event.over?.id] ([None] when the drop
    has no target). *)
Definition handleDragEnd (filteredTasks : list Task) (active : string)
    (over : option string) : option GanttAction :=
  match over with
  | Some over =>
      if bool_decide (active ≠ over) then
        let oldIndex := findIndex (fun task => id task = active)
                                  filteredTasks in
        let newIndex := findIndex (fun task => id task = over)
                                  filteredTasks in
        Some (REORDER_TASKS oldIndex newIndex)
      else None
  | None => None
  end.

(** The clock as a handler reads it: [Date.now()] for the id, and
    [new Date()] where a date is missing. *)
Record Clock := mkClock {
  dateNow : N;
  newDateAtStart : Date;
  newDateAtEnd : Date
}.

(** [`task-${Date.now()}`] *)
Definition freshId (clock : Clock) : string :=
  "task-" +:+ pretty (dateNow clock).

(** The context-menu action kept until the dialog is saved, part_001
    lines 118-119. *)
Inductive TaskActionType := add_above | add_below | add_subtask.

(** [taskActionType.replace('add-', '')] *)
Definition positionOf (a : TaskActionType) : Position :=
  match a with
  | add_above => above
  | add_below => below
  | add_subtask => subtask
  end.

(** [a || b] on a string and on a number: the empty string, zero and
    [undefined] are falsy. *)
Definition stringOr (a : option string) (b : string) : string :=
  match a with
  | Some s => if bool_decide (s = "") then b else s
  | None => b
  end.

Definition numberOr (a : option Z) (b : Z) : Z :=
  match a with
  | Some n => if bool_decide (n = 0%Z) then b else n
  | None => b
  end.

(** The task literal of [handleSaveTask], part_001 lines 208-220 (the
    same literal is in ProductionGanttChart.tsx lines 126-138): the
    defaults, then the spread of [taskData]. *)
Definition newTaskOf (taskData : TaskUpdates) (clock : Clock)
    (state : GanttState) : Task :=
  mergeTask
    {| id := freshId clock;
       name := stringOr (u_name taskData) "New Task";
       startDate := default (newDateAtStart clock) (u_startDate taskData);
       endDate := default (addDays (newDateAtEnd clock) 1)
                          (u_endDate taskData);
       progress := numberOr (u_progress taskData) 0;
       color := stringOr (u_color taskData) "#3b82f6";
       isExpanded := None;
       children := None;
       parentId := None;
       order := Z.of_nat (length (tasks state));
       dependencies := None;
       resources := None;
       notes := mjoin (u_notes taskData);
       priority := Some (default medium (mjoin (u_priority taskData)));
       status := Some (default not_started (mjoin (u_status taskData))) |}
    taskData.

(** [handleSaveTask], part_001 lines 201-235. *)
Definition handleSaveTask (selectedTask : option Task)
    (taskActionType : option TaskActionType) (targetTaskId : option string)
    (taskData : TaskUpdates) (clock : Clock) (state : GanttState)
  : GanttAction :=
  match selectedTask with
  | Some selected => UPDATE_TASK (id selected) taskData
  | None =>
      let newTask := newTaskOf taskData clock state in
      match taskActionType, targetTaskId with
      | Some action, Some target =>
          if bool_decide (target ≠ "") then
            ADD_TASK_AT_POSITION newTask (positionOf action) target
          else ADD_TASK newTask
      | _, _ => ADD_TASK newTask
      end
  end.

(** [handleDuplicateTask], part_001 lines 345-357. *)
Definition handleDuplicateTask (contextMenuTask : option Task)
    (clock : Clock) (state : GanttState) : option GanttAction :=
  match contextMenuTask with
  | Some task =>
      let duplicatedTask :=
        {| id := freshId clock;
           name := name task +:+ " (Copy)";
           startDate := startDate task;
           endDate := endDate task;
           progress := progress task;
           color := color task;
           isExpanded := isExpanded task;
           children := children task;
           parentId := parentId task;
           order := Z.of_nat (length (tasks state));
           dependencies := dependencies task;
           resources := resources task;
           notes := notes task;
           priority := priority task;
           status := status task |} in
      Some (ADD_TASK duplicatedTask)
  | None => None
  end.

(** ** The task dialog

    The two text fields of [TaskModal] that hold a list, TaskModal.tsx
    lines 44-45 and 73-74.  A character is a code unit below 256. *)

(** White space and line terminators as [String.prototype.trim] removes
    them, among the code units below 256. *)
Definition isWhiteSpace (c : Ascii.ascii) : bool :=
  bool_decide (Ascii.N_of_ascii c ∈ [9; 10; 11; 12; 13; 32; 160]%N).

Fixpoint trimStart (s : string) : string :=
  match s with
  | EmptyString => EmptyString
  | String c rest => if isWhiteSpace c then trimStart rest else s
  end.

Fixpoint trimEnd (s : string) : string :=
  match s with
  | EmptyString => EmptyString
  | String c rest =>
      match trimEnd rest with
      | EmptyString => if isWhiteSpace c then EmptyString
                       else String c EmptyString
      | kept => String c kept
      end
  end.

Definition trim (s : string) : string := trimEnd (trimStart s).

(** [s.split(',')] *)
Fixpoint split (s : string) : list string :=
  match s with
  | EmptyString => [EmptyString]
  | String c rest =>
      if bool_decide (c = ","%char) then EmptyString :: split rest
      else match split rest with
           | piece :: pieces => String c piece :: pieces
           | [] => [String c EmptyString]
           end
  end.

(** [list.join(', ')] *)
Definition join (l : list string) : string := String.concat ", " l.

(** [task.resources?.join(', ') || ''], the text the dialog shows. *)
Definition listText (l : option (list string)) : string :=
  match l with
  | Some l => join l
  | None => ""
  end.

(** [text.split(',').map(r => r.trim()).filter(r => r)], the list the
    dialog saves. *)
Definition textList (text : string) : list string :=
  filter (fun r => r ≠ "") (trim <$> split text).

(** ** The helpers on the JavaScript store

    Tasks and arrays are objects with an identity: two variables may hold
    the same array, and an assignment to a field or to an array entry is
    seen through every reference.  [Module Store] is a store of such
    objects; [Module Heap] runs the helpers on it, to tell what a call
    does to the objects it was given.  A computation takes the store and
    returns a value and the new store; it returns nothing when it meets a
    reference that holds no object of the expected kind or when its fuel
    is spent. *)
Module Store.

Abbreviation loc := nat.

(** A task object: the fields of [Task], [children] being a reference to
    an array. *)
Record TaskObj := mkObj {
  o_id : string;
  o_name : string;
  o_startDate : Date;
  o_endDate : Date;
  o_progress : Z;
  o_color : string;
  o_isExpanded : option bool;
  o_children : option loc;
  o_parentId : option string;
  o_order : Z;
  o_dependencies : option (list string);
  o_resources : option (list string);
  o_notes : option string;
  o_priority : option Priority;
  o_status : option Status
}.

(** [{ ...task, ...updates }] on objects. *)
Definition mergeObj (task : TaskObj) (updates : TaskUpdatesOf loc) : TaskObj :=
  {| o_id := default (o_id task) (u_id updates);
     o_name := default (o_name task) (u_name updates);
     o_startDate := default (o_startDate task) (u_startDate updates);
     o_endDate := default (o_endDate task) (u_endDate updates);
     o_progress := default (o_progress task) (u_progress updates);
     o_color := default (o_color task) (u_color updates);
     o_isExpanded := default (o_isExpanded task) (u_isExpanded updates);
     o_children := default (o_children task) (u_children updates);
     o_parentId := default (o_parentId task) (u_parentId updates);
     o_order := default (o_order task) (u_order updates);
     o_dependencies :=
       default (o_dependencies task) (u_dependencies updates);
     o_resources := default (o_resources task) (u_resources updates);
     o_notes := default (o_notes task) (u_notes updates);
     o_priority := default (o_priority task) (u_priority updates);
     o_status := default (o_status task) (u_status updates) |}.

(** The object of a task value whose children array is at [c], and the
    task value of an object whose children array holds [c]. *)
Definition objOf (t : Task) (c : option loc) : TaskObj :=
  mkObj (id t) (name t) (startDate t) (endDate t) (progress t) (color t)
        (isExpanded t) c (parentId t) (order t) (dependencies t)
        (resources t) (notes t) (priority t) (status t).

Definition taskOf (o : TaskObj) (c : option (list Task)) : Task :=
  mkTask (o_id o) (o_name o) (o_startDate o) (o_endDate o) (o_progress o)
         (o_color o) (o_isExpanded o) c (o_parentId o) (o_order o)
         (o_dependencies o) (o_resources o) (o_notes o) (o_priority o)
         (o_status o).

Inductive cell :=
  | Obj (o : TaskObj)
  | Arr (entries : list loc).

Record heap := mkHeap {
  cells : gmap loc cell;
  next : loc
}.

Definition emptyHeap : heap := mkHeap ∅ 0.

Definition object (h : heap) (l : loc) : option TaskObj :=
  match cells h !! l with
  | Some (Obj o) => Some o
  | _ => None
  end.

Definition array (h : heap) (l : loc) : option (list loc) :=
  match cells h !! l with
  | Some (Arr entries) => Some entries
  | _ => None
  end.

(** *** Computations on the store *)

Definition M (A : Type) : Type := heap -> option (A * heap).

#[global] Instance M_ret : MRet M := fun A a h => Some (a, h).
#[global] Instance M_bind : MBind M := fun A B k m h =>
  match m h with
  | Some (a, h') => k a h'
  | None => None
  end.

Definition stuck {A : Type} : M A := fun _ => None.

Definition getObject (l : loc) : M TaskObj :=
  fun h => match object h l with Some o => Some (o, h) | None => None end.

Definition getArray (l : loc) : M (list loc) :=
  fun h => match array h l with Some e => Some (e, h) | None => None end.

(** A new object, a new array: a fresh reference. *)
Definition extend (h : heap) (c : cell) : heap :=
  mkHeap (<[next h := c]> (cells h)) (S (next h)).

Definition alloc (c : cell) : M loc :=
  fun h => Some (next h, extend h c).

(** An assignment to a field of an object or to entries of an array: the
    cell behind the reference changes. *)
Definition write (h : heap) (l : loc) (c : cell) : heap :=
  mkHeap (<[l := c]> (cells h)) (next h).

Definition assign (l : loc) (c : cell) : M unit :=
  fun h => Some (tt, write h l c).

Definition filterM {A : Type} (f : A -> M bool) : list A -> M (list A) :=
  fix loop (l : list A) : M (list A) :=
    match l with
    | [] => mret []
    | x :: rest => b ← f x; ys ← loop rest;
                   mret (if b : bool then x :: ys else ys)
    end.

(** *** Values to objects and back *)

(** A task value as fresh objects. *)
Fixpoint allocTask (t : Task) : M loc :=
  c ← match children t with
      | Some ts => entries ← mapM allocTask ts;
                   a ← alloc (Arr entries);
                   mret (Some a)
      | None => mret None
      end;
  alloc (Obj (objOf t c)).

Definition allocForest (ts : list Task) : M loc :=
  entries ← mapM allocTask ts;
  alloc (Arr entries).

(** The task value an object stands for in a store. *)
Fixpoint readTask (fuel : nat) (h : heap) (l : loc) : option Task :=
  match fuel with
  | 0 => None
  | S fuel =>
      o ← object h l;
      c ← match o_children o with
          | Some a => entries ← array h a;
                      ts ← mapM (readTask fuel h) entries;
                      Some (Some ts)
          | None => Some None
          end;
      Some (taskOf o c)
  end.

Definition readForest (fuel : nat) (h : heap) (a : loc)
  : option (list Task) :=
  entries ← array h a;
  mapM (readTask fuel h) entries.

(** A computation that leaves every object and array of the store it
    starts from as it is: it may only add fresh ones. *)
Definition preserves {A : Type} (m : M A) : Prop :=
  forall h a h',
    m h = Some (a, h') ->
    next h <= next h' /\
    forall l, l < next h -> cells h' !! l = cells h !! l.

(** The [updates] payload as objects: its [children] value, if it has
    one, becomes a fresh array. *)
Definition allocUpdates (u : TaskUpdates) : M (TaskUpdatesOf loc) :=
  c ← match u_children u with
      | Some (Some ts) => a ← allocForest ts; mret (Some (Some a))
      | Some None => mret (Some None)
      | None => mret None
      end;
  mret (mkUpdates (u_id u) (u_name u) (u_startDate u) (u_endDate u)
          (u_progress u) (u_color u) (u_isExpanded u) c (u_parentId u)
          (u_order u) (u_dependencies u) (u_resources u) (u_notes u)
          (u_priority u) (u_status u)).

(** *** Objects that stand for task values

    [reprTask sep h t l fp]: in the store [h] the object at [l] stands for
    the task value [t], and [fp] is the set of the references this rests
    on.  With [sep] the objects and arrays form a tree: no reference
    occurs twice.  [reprList] is the same for the entries of an array. *)
Definition reprList (sep : bool) (R : Task -> loc -> gset loc -> Prop)
  : list Task -> list loc -> gset loc -> Prop :=
  fix go (ts : list Task) (entries : list loc) (fp : gset loc) : Prop :=
    match ts, entries with
    | [], [] => fp = ∅
    | t :: ts', e :: entries' =>
        exists f1 f2,
          R t e f1 /\ go ts' entries' f2 /\
          (sep = true -> f1 ## f2) /\ fp = f1 ∪ f2
    | _, _ => False
    end.

Definition reprArrayOf (sep : bool) (R : Task -> loc -> gset loc -> Prop)
    (h : heap) (ts : list Task) (a : loc) (fp : gset loc) : Prop :=
  exists entries fpc,
    array h a = Some entries /\
    (sep = true -> a ∉ fpc) /\ fp = {[a]} ∪ fpc /\
    reprList sep R ts entries fpc.

Fixpoint reprTask (sep : bool) (h : heap) (t : Task) (l : loc)
    (fp : gset loc) : Prop :=
  exists o,
    object h l = Some o /\ o = objOf t (o_children o) /\
    match children t with
    | Some c =>
        exists a fpa,
          o_children o = Some a /\
          (sep = true -> l ∉ fpa) /\ fp = {[l]} ∪ fpa /\
          reprArrayOf sep (reprTask sep h) h c a fpa
    | None => o_children o = None /\ fp = {[l]}
    end.

Definition reprArray (sep : bool) (h : heap) (ts : list Task) (a : loc)
    (fp : gset loc) : Prop :=
  reprArrayOf sep (reprTask sep h) h ts a fp.

(** An [updates] payload of objects that stands for a payload of
    values: the same keys and values, the [children] array standing for
    the [children] list. *)
Definition forgetChildren {C : Type} (u : TaskUpdatesOf C)
  : TaskUpdatesOf unit :=
  mkUpdates (u_id u) (u_name u) (u_startDate u) (u_endDate u) (u_progress u)
    (u_color u) (u_isExpanded u)
    (option_map (option_map (fun _ : C => tt)) (u_children u))
    (u_parentId u) (u_order u) (u_dependencies u) (u_resources u)
    (u_notes u) (u_priority u) (u_status u).

Definition reprUpdates (h : heap) (u : TaskUpdates) (ou : TaskUpdatesOf loc)
    (fu : gset loc) : Prop :=
  forgetChildren u = forgetChildren ou /\
  match u_children u, u_children ou with
  | Some (Some ts), Some (Some a) => reprArray false h ts a fu
  | _, _ => fu = ∅
  end.

(** A store whose references in use all lie below [next]. *)
Definition wf (h : heap) : Prop :=
  forall l, next h <= l -> cells h !! l = None.

(** From [h] to [h'] only the cells of [fp] may have changed, and fresh
    ones may have come. *)
Definition changes (h h' : heap) (fp : gset loc) : Prop :=
  wf h' /\ next h <= next h' /\
  forall x, x < next h -> x ∉ fp -> cells h' !! x = cells h !! x.

(** The references of [fp'] are references of [fp] or fresh ones. *)
Definition within (h : heap) (fp fp' : gset loc) : Prop :=
  forall x, x ∈ fp' -> x ∈ fp \/ next h <= x.

End Store.

(** The helpers, run on the store. *)
Module Heap.

Import Store.

(** *** The helpers *)

(** [updateTaskRecursively], GanttContext.tsx lines 247-257: a new array,
    a new object for the task that matches and for each task with
    children on the way.  [updateCallback] is the callback given to
    [tasks.map], [recurse] the recursive call. *)
Definition updateCallback (recurse : loc -> M loc) (taskId : string)
    (updates : TaskUpdatesOf loc) (task : loc) : M loc :=
  o ← getObject task;
  if bool_decide (o_id o = taskId) then alloc (Obj (mergeObj o updates))
  else match o_children o with
       | Some c =>
           c' ← recurse c;
           alloc (Obj (mergeObj o (childrenUpdate c')))
       | None => mret task
       end.

Fixpoint updateTaskRecursively (fuel : nat) (tasks : loc) (taskId : string)
    (updates : TaskUpdatesOf loc) : M loc :=
  match fuel with
  | 0 => stuck
  | S fuel =>
      entries ← getArray tasks;
      mapped ← mapM (updateCallback
                       (fun c => updateTaskRecursively fuel c taskId updates)
                       taskId updates) entries;
      alloc (Arr mapped)
  end.

(** [deleteTaskRecursively], GanttContext.tsx lines 310-318: a new array
    of the entries kept.  [deleteCallback] is the callback given to
    [tasks.filter]; line 314 assigns to the [children] field of the task
    it was given. *)
Definition deleteCallback (recurse : loc -> M loc) (taskId : string)
    (task : loc) : M bool :=
  o ← getObject task;
  if bool_decide (o_id o = taskId) then mret false
  else match o_children o with
       | Some c =>
           c' ← recurse c;
           o' ← getObject task;
           _ ← assign task (Obj (mergeObj o' (childrenUpdate c')));
           mret true
       | None => mret true
       end.

Fixpoint deleteTaskRecursively (fuel : nat) (tasks : loc) (taskId : string)
  : M loc :=
  match fuel with
  | 0 => stuck
  | S fuel =>
      entries ← getArray tasks;
      kept ← filterM (deleteCallback
                        (fun c => deleteTaskRecursively fuel c taskId)
                        taskId) entries;
      alloc (Arr kept)
  end.

(** [insertTask], GanttContext.tsx lines 273-305: the loop from index [i]
    on.  It assigns to entries of [taskList] (lines 285 and 301) and
    splices it (lines 289 and 293). *)
Fixpoint insertTask (fuel : nat) (newTask : loc) (position : Position)
    (targetTaskId : string) (taskList : loc) (i : nat) : M loc :=
  match fuel with
  | 0 => stuck
  | S fuel =>
      entries ← getArray taskList;
      match entries !! i with
      | None => mret taskList
      | Some task =>
          o ← getObject task;
          if bool_decide (o_id o = targetTaskId) then
            match position with
            | subtask =>
                old ← match o_children o with
                      | Some c => getArray c
                      | None => mret []
                      end;
                n ← getObject newTask;
                child ← alloc (Obj (mergeObj n (parentUpdate targetTaskId)));
                arr ← alloc (Arr (old ++ [child]));
                updatedTask ←
                  alloc (Obj (mergeObj (mergeObj o (childrenUpdate arr))
                                       (expansionUpdate true)));
                _ ← assign taskList (Arr (<[i := updatedTask]> entries));
                mret taskList
            | above =>
                _ ← assign taskList
                      (Arr (take i entries ++ newTask :: drop i entries));
                mret taskList
            | below =>
                _ ← assign taskList
                      (Arr (take (S i) entries ++ newTask ::
                            drop (S i) entries));
                mret taskList
            end
          else
            _ ← match o_children o with
                | Some c =>
                    updatedChildren ←
                      insertTask fuel newTask position targetTaskId c 0;
                    entries' ← getArray taskList;
                    match entries' !! i with
                    | Some task' =>
                        o' ← getObject task';
                        updated ←
                          alloc (Obj (mergeObj o'
                                        (childrenUpdate updatedChildren)));
                        assign taskList (Arr (<[i := updated]> entries'))
                    | None => stuck
                    end
                | None => mret tt
                end;
            insertTask fuel newTask position targetTaskId taskList (S i)
      end
  end.

(** [addTaskAtPosition], lines 270-308: the loop runs on a copy of the
    root array. *)
Definition addTaskAtPosition (fuel : nat) (tasks newTask : loc)
    (position : Position) (targetTaskId : string) : M loc :=
  entries ← getArray tasks;
  newTasks ← alloc (Arr entries);
  insertTask fuel newTask position targetTaskId newTasks 0.

(** *** A call on fresh objects, and what it leaves of them *)

(** A call on the forest [ts] made of fresh objects: the forest the call
    returns, and the forest its argument stands for after the call. *)
Definition returnedBy (fuel : nat) (ts : list Task) (call : loc -> M loc)
  : option (list Task) :=
  '(tasks, h0) ← allocForest ts emptyHeap;
  '(result, h1) ← call tasks h0;
  readForest fuel h1 result.

Definition inputAfter (fuel : nat) (ts : list Task) (call : loc -> M loc)
  : option (list Task) :=
  '(tasks, h0) ← allocForest ts emptyHeap;
  '(result, h1) ← call tasks h0;
  readForest fuel h1 tasks.

Definition updateCall (fuel : nat) (taskId : string) (updates : TaskUpdates)
    (tasks : loc) : M loc :=
  u ← allocUpdates updates;
  updateTaskRecursively fuel tasks taskId u.

Definition deleteCall (fuel : nat) (taskId : string) (tasks : loc) : M loc :=
  deleteTaskRecursively fuel tasks taskId.

Definition insertCall (fuel : nat) (newTask : Task) (position : Position)
    (targetTaskId : string) (tasks : loc) : M loc :=
  n ← allocTask newTask;
  addTaskAtPosition fuel tasks n position targetTaskId.

End Heap.

(** ** Vocabulary of the properties *)

(** The ids of a forest and its nodes, in pre-order. *)
Fixpoint taskIds (t : Task) : list string :=
  id t :: match children t with
          | Some c => concat (map taskIds c)
          | None => []
          end.

Definition forestIds (ts : list Task) : list string :=
  concat (map taskIds ts).

(** A node without its subtree: its own fields. *)
Definition ownFields (t : Task) : Task :=
  mergeTask t (mkUpdates None None None None None None None (Some None) None
                 None None None None None None).

(** The nodes of a forest in pre-order, each by its own fields. *)
Fixpoint taskNodes (t : Task) : list Task :=
  ownFields t :: match children t with
                 | Some c => concat (map taskNodes c)
                 | None => []
                 end.

Definition forestNodes (ts : list Task) : list Task :=
  concat (map taskNodes ts).

(** The number of nodes of a forest; the size of a subtree. *)
Definition nodeCount (ts : list Task) : nat := length (forestNodes ts).
Definition subtreeSize (t : Task) : nat := length (taskNodes t).

(** The list reached from the root list [ts] by going down into the
    children of the entry at each index of [path]. *)
Fixpoint listAt (path : list nat) (ts : list Task) : option (list Task) :=
  match path with
  | [] => Some ts
  | i :: path' => t ← ts !! i; c ← children t; listAt path' c
  end.

(** Where the first node with id [taskId] in pre-order is: the path to the
    list that contains it and its index in that list.  [shiftPosition]
    turns a position in the tail of a list into the position in the
    list. *)
Definition shiftPosition (r : list nat * nat) : list nat * nat :=
  match r with
  | ([], j) => ([], S j)
  | (k :: path, j) => (S k :: path, j)
  end.

Definition locateLoop (taskId : string)
    (below : Task -> option (list nat * nat))
  : list Task -> option (list nat * nat) :=
  fix loop (l : list Task) : option (list nat * nat) :=
    match l with
    | [] => None
    | t :: rest =>
        if bool_decide (id t = taskId) then Some ([], 0)
        else match below t with
             | Some (path, j) => Some (0 :: path, j)
             | None => shiftPosition <$> loop rest
             end
    end.

Fixpoint locateBelow (taskId : string) (t : Task)
  : option (list nat * nat) :=
  match children t with
  | Some c => locateLoop taskId (locateBelow taskId) c
  | None => None
  end.

Definition locate (taskId : string) (ts : list Task)
  : option (list nat * nat) :=
  locateLoop taskId (locateBelow taskId) ts.

(** The sibling list [l1 ++ x :: l2] after the insertion at [x]. *)
Definition insertedAt (newTask : Task) (position : Position)
    (targetTaskId : string) (l1 : list Task) (x : Task) (l2 : list Task)
  : list Task :=
  match position with
  | above => l1 ++ newTask :: x :: l2
  | below => l1 ++ x :: newTask :: l2
  | subtask => l1 ++ addSubtask x newTask targetTaskId :: l2
  end.

(** What the helpers leave of the forest they were given.  The deletion
    leaves the root list as it was, each root that does not have the id
    having the children the deletion makes.  The insertion leaves the
    root list as it was, each root before the first one with the target
    id having the children the insertion makes. *)
Definition leftByDelete (taskId : string) (ts : list Task) : list Task :=
  map (fun t => default t (deleteTask taskId t)) ts.

Fixpoint leftByInsert (newTask : Task) (position : Position)
    (targetTaskId : string) (ts : list Task) : list Task :=
  match ts with
  | [] => []
  | t :: rest =>
      if bool_decide (id t = targetTaskId) then t :: rest
      else insertBelow newTask position targetTaskId t ::
           leftByInsert newTask position targetTaskId rest
  end.

(** What the loop of the insertion on the store, run from index
    [length done] of the array [a], does when the entries from there on
    are a tree of objects for [ts] and [n] stands for the new task: the
    entries after the run stand for the insertion on [ts], the entries
    that were there for what the insertion leaves of [ts]; only cells of
    the array and of the tree change. *)
Definition insertRunSpec (newTask : Task) (position : Position) (X : string)
    (n : Store.loc) (fn : gset Store.loc) (ts : list Task) : Prop :=
  forall h a done es fp,
    Store.wf h -> Store.array h a = Some (done ++ es) ->
    Store.reprList true (Store.reprTask true h) ts es fp -> a ∉ fp ->
    Store.reprTask false h newTask n fn ->
    (forall x, x ∈ fn -> x ∉ fp) -> a ∉ fn ->
    exists k h' es' fp' fpi,
      (forall fuel, k <= fuel ->
         Heap.insertTask fuel n position X a (length done) h
         = Some (a, h')) /\
      Store.array h' a = Some (done ++ es') /\
      Store.reprList false (Store.reprTask false h')
        (insertTask newTask position X ts) es' fp' /\
      Store.reprList false (Store.reprTask false h')
        (leftByInsert newTask position X ts) es fpi /\
      Store.changes h h' ({[a]} ∪ fp) /\
      (forall x, x ∈ fp' ∪ fpi ->
                 x ∈ fp \/ x ∈ fn \/ Store.next h <= x).

(** [{ ...u1, ...u2 }]: the keys of both payloads, a key of both with the
    value of [u2]. *)
Definition laterKey {A : Type} (later earlier : option A) : option A :=
  match later with
  | Some v => Some v
  | None => earlier
  end.

Definition thenUpdates {C : Type} (u1 u2 : TaskUpdatesOf C)
  : TaskUpdatesOf C :=
  mkUpdates (laterKey (u_id u2) (u_id u1))
            (laterKey (u_name u2) (u_name u1))
            (laterKey (u_startDate u2) (u_startDate u1))
            (laterKey (u_endDate u2) (u_endDate u1))
            (laterKey (u_progress u2) (u_progress u1))
            (laterKey (u_color u2) (u_color u1))
            (laterKey (u_isExpanded u2) (u_isExpanded u1))
            (laterKey (u_children u2) (u_children u1))
            (laterKey (u_parentId u2) (u_parentId u1))
            (laterKey (u_order u2) (u_order u1))
            (laterKey (u_dependencies u2) (u_dependencies u1))
            (laterKey (u_resources u2) (u_resources u1))
            (laterKey (u_notes u2) (u_notes u1))
            (laterKey (u_priority u2) (u_priority u1))
            (laterKey (u_status u2) (u_status u1)).

(** A payload that leaves the id of the task it is merged into as it is:
    it has no [id] key, or the id is the one of the task. *)
Definition keepsId {C : Type} (taskId : string) (u : TaskUpdatesOf C)
  : Prop :=
  u_id u = None \/ u_id u = Some taskId.

(** The source index of a REORDER_TASKS action is below the length of a
    root list that is not empty; nothing is asked of another action. *)
Definition sourceInside (state : GanttState) (action : GanttAction)
  : Prop :=
  match action with
  | REORDER_TASKS sourceIndex _ =>
      (sourceIndex < Z.of_nat (length (tasks state)))%Z /\
      tasks state <> []
  | _ => True
  end.

(** A name the list fields of the dialog can hold as it is: not empty,
    without a comma, without white space at either end. *)
Definition plainName (r : string) : Prop :=
  r <> "" /\ includes r "," = false /\ trim r = r.

(** The state after a list of actions, dispatched one after the other;
    the first throw ends the run. *)
Fixpoint dispatchAll (state : GanttState) (actions : list GanttAction)
  : result GanttState :=
  match actions with
  | [] => Ok state
  | action :: rest => s ← ganttReducer state action; dispatchAll s rest
  end.

(** A row outside a gesture, whose bar callbacks were made outside a
    gesture: the hooks hold their initial values, in the row and in the
    closures; the ref is empty and nothing is on the document. *)
Definition idleRow (made : nat) (task : Task) : DraggableTaskRow :=
  {| row_isDraggingTimeline := false;
     row_isResizing := false;
     row_resizeHandle := None;
     row_originalTask := None;
     row_callbacks := mkRender made task false false None;
     row_listeners := [] |}.

(** What the user does to a row, one thing after the other: a resize (the
    pointer goes down on a handle, moves, goes up), a drag of the bar,
    and, between two of these, a render with a new task. *)
Inductive Gesture :=
  | resizeGesture (handle : Handle) (deltas : list Z)
  | timelineGesture (onBar : bool) (deltas : list Z)
  | taskChange (task : Task).

Definition events (gesture : Gesture) : list RowEvent :=
  match gesture with
  | resizeGesture handle deltas =>
      HandleMouseDown handle :: (MouseMove <$> deltas) ++ [MouseUp]
  | timelineGesture onBar deltas =>
      BarMouseDown onBar :: (MouseMove <$> deltas) ++ [MouseUp]
  | taskChange task => [TaskChanged task]
  end.

(** A day number whose calendar date, and the dates a day around it, are
    valid dates of JavaScript. *)
Definition dayInRange (n : Z) : Prop := (-99999999 <= n <= 99999999)%Z.

(** A day width of the timeline in whole pixels, up to a million: with
    day numbers in range, the products of [getTaskPosition] are below
    2^53. *)
Definition wholePixels (dayWidth : Z) : Prop :=
  (0 <= dayWidth <= 1000000)%Z.

(** A small forest used by the examples: task 1 with children 2 and 3,
    then task 4. *)
Definition exampleLeaf (i : string) : Task :=
  mkTask i "Task" (calendarDate 10) (calendarDate 12) 0 "#000" None None
         None 0 None None None None None.

Definition exampleParent (i : string) (c : list Task) : Task :=
  mkTask i "Task" (calendarDate 10) (calendarDate 12) 0 "#000" None (Some c)
         None 0 None None None None None.

Definition exampleForest : list Task :=
  [exampleParent "1" [exampleLeaf "2"; exampleLeaf "3"]; exampleLeaf "4"].

(** A deeper forest: task 1 with child 2, which has child 3, which has an
    empty children array; then task 4 with child 5. *)
Definition deepForest : list Task :=
  [exampleParent "1" [exampleParent "2" [exampleParent "3" []]];
   exampleParent "4" [exampleLeaf "5"]].

Definition exampleState : GanttState :=
  mkState (Some <$> exampleForest) None day false 1%Q None false None.

(** A completed task without children, used by the examples. *)
Definition exampleDone (i : string) : Task :=
  mkTask i "Task" (calendarDate 10) (calendarDate 12) 0 "#000" None None
         None 0 None None None None (Some completed).

(** A reading of the clock, used by the examples. *)
Definition exampleClock : Clock :=
  mkClock 1700000000000%N (calendarDate 20) (calendarDate 20).

(** What the dialog sends for a task left without a name. *)
Definition exampleData : TaskUpdates :=
  mkUpdates None (Some "") (Some (calendarDate 1)) (Some (calendarDate 2))
            (Some 0%Z) (Some "#22c55e") None None None None None None None
            None None.

(** * Properties *)

(** ** Dates and the resize session *)

Lemma differenceInDays_calendar (a b : Z) :
  differenceInDays (calendarDate a) (calendarDate b) = (a - b)%Z.
Proof.
  unfold differenceInDays, calendarDate.
  replace (a * msPerDay - b * msPerDay)%Z with ((a - b) * msPerDay)%Z by lia.
  apply Z.quot_mul. unfold msPerDay. lia.
Qed.

Lemma addDays_calendar (a n : Z) :
  addDays (calendarDate a) n = calendarDate (a + n).
Proof. unfold addDays, calendarDate. lia. Qed.

(** C4, as stated, fails: the duration of an interval that ends before it
    starts is not at least 1. From day 12 to day 10 it is -1. *)
Lemma duration_below_one_when_reversed :
  calculateTaskDuration (calendarDate 12) (calendarDate 10) = (-1)%Z /\
  ~ (1 <= calculateTaskDuration (calendarDate 12) (calendarDate 10))%Z.
Proof. split; [reflexivity | vm_compute; intros H; apply H; reflexivity]. Qed.

(** C4, amended: for calendar dates with start <= end the duration is the
    whole-day difference (end - start) + 1, and it is at least 1. *)
Theorem duration_law (s e : Z) :
  (s <= e)%Z ->
  calculateTaskDuration (calendarDate s) (calendarDate e) = (e - s + 1)%Z /\
  (1 <= calculateTaskDuration (calendarDate s) (calendarDate e))%Z.
Proof.
  intros Hse. unfold calculateTaskDuration.
  rewrite differenceInDays_calendar. lia.
Qed.

(** A same-day task has duration 1. *)
Lemma duration_law_same_day :
  (5 <= 5)%Z /\
  calculateTaskDuration (calendarDate 5) (calendarDate 5) = 1%Z /\
  (1 <= calculateTaskDuration (calendarDate 5) (calendarDate 5))%Z.
Proof. split; [lia | apply (duration_law 5 5); lia]. Defined.

(** *** The gestures on a row *)

Lemma run_app (row : DraggableTaskRow) (l1 l2 : list RowEvent) :
  run row (l1 ++ l2)
  = ((run (run row l1).1 l2).1, (run row l1).2 ++ (run (run row l1).1 l2).2).
Proof.
  revert row. induction l1 as [| e l1 IH]; intros row.
  - simpl. destruct (run row l2); reflexivity.
  - simpl. rewrite IH. simpl. rewrite app_assoc. reflexivity.
Qed.

(** The listeners a gesture on an idle row has put on the document hold
    the flags of an idle row: a pointer move sends nothing. *)
Lemma run_moves_of_resize (made : nat) (task : Task) (handle : Handle)
    (deltas : list Z) :
  run (handleResizeStart handle (idleRow made task)).1 (MouseMove <$> deltas)
  = ((handleResizeStart handle (idleRow made task)).1, []).
Proof.
  induction deltas as [| d deltas IH]; [reflexivity |].
  rewrite fmap_cons.
  change (run ?row (MouseMove d :: ?rest))
    with ((run row rest).1, mouseMove d row ++ (run row rest).2).
  rewrite IH. reflexivity.
Qed.

Lemma run_moves_of_drag (made : nat) (task : Task) (onBar : bool)
    (deltas : list Z) :
  run (handleTimelineMouseDown onBar (idleRow made task))
    (MouseMove <$> deltas)
  = (handleTimelineMouseDown onBar (idleRow made task), []).
Proof.
  induction deltas as [| d deltas IH]; [reflexivity |].
  rewrite fmap_cons.
  change (run ?row (MouseMove d :: ?rest))
    with ((run row rest).1, mouseMove d row ++ (run row rest).2).
  rewrite IH. destruct onBar; reflexivity.
Qed.

Lemma resize_gesture_on_idle_row (made : nat) (task : Task)
    (handle : Handle) (deltas : list Z) :
  run (idleRow made task) (events (resizeGesture handle deltas))
  = (idleRow made task, [START_RESIZE (id task) handle; END_RESIZE]).
Proof.
  change (run (idleRow made task) (events (resizeGesture handle deltas)))
    with (let after :=
            run (handleResizeStart handle (idleRow made task)).1
              ((MouseMove <$> deltas) ++ [MouseUp]) in
          (after.1, [START_RESIZE (id task) handle] ++ after.2)).
  rewrite run_app, run_moves_of_resize.
  repeat (cbn; rewrite ?Nat.eqb_refl). reflexivity.
Qed.

Lemma timeline_gesture_on_idle_row (made : nat) (task : Task)
    (onBar : bool) (deltas : list Z) :
  run (idleRow made task) (events (timelineGesture onBar deltas))
  = (idleRow made task, []).
Proof.
  change (run (idleRow made task) (events (timelineGesture onBar deltas)))
    with (let after :=
            run (handleTimelineMouseDown onBar (idleRow made task))
              ((MouseMove <$> deltas) ++ [MouseUp]) in
          (after.1, [] ++ after.2)).
  rewrite run_app, run_moves_of_drag.
  destruct onBar; [| reflexivity].
  repeat (cbn; rewrite ?Nat.eqb_refl).
  unfold handleTimelineMouseUp, removeEventListener.
  repeat (cbn; rewrite ?Nat.eqb_refl). reflexivity.
Qed.

(** Gestures, one after the other, on an idle row: the row is idle after
    them, and what they have sent is START_RESIZE and END_RESIZE
    actions. *)
Lemma gestures_on_idle_row (gestures : list Gesture) (made : nat)
    (task : Task) :
  exists made' task',
    (run (idleRow made task) (gestures ≫= events)).1 = idleRow made' task' /\
    Forall (fun action =>
              (exists taskId handle, action = START_RESIZE taskId handle) \/
              action = END_RESIZE)
           (run (idleRow made task) (gestures ≫= events)).2.
Proof.
  revert made task. induction gestures as [| g gestures IH];
    intros made task.
  - exists made, task. split; [reflexivity | constructor].
  - rewrite bind_cons, run_app.
    assert (Hg : exists made1 task1,
              (run (idleRow made task) (events g)).1 = idleRow made1 task1 /\
              Forall (fun action =>
                        (exists taskId handle,
                           action = START_RESIZE taskId handle) \/
                        action = END_RESIZE)
                     (run (idleRow made task) (events g)).2).
    { destruct g as [handle deltas | onBar deltas | task1].
      - rewrite resize_gesture_on_idle_row. exists made, task.
        split; [reflexivity |].
        apply Forall_cons. split; [left; eauto |].
        apply Forall_cons. split; [right; reflexivity | constructor].
      - rewrite timeline_gesture_on_idle_row. exists made, task.
        split; [reflexivity | constructor].
      - exists (S made), task1. split; [reflexivity | constructor]. }
    destruct Hg as (made1 & task1 & Hrow & Hsent). rewrite Hrow.
    destruct (IH made1 task1) as (made' & task' & Hrow' & Hsent').
    exists made', task'. split; [exact Hrow' |].
    apply Forall_app. split; assumption.
Qed.

(** C3 fails on the code.  The claim has a resize gesture send a
    RESIZE_TASK for a pointer move; the row sends none.
    [handleResizeStart] puts on the document the move callback of the
    render that made it, and in that render, outside a gesture,
    [isResizing] is [false] and [resizeHandle] is [null]: the callback
    returns at its first line for every pointer move, whatever the hooks
    hold by then.  A resize gesture on a row outside a gesture sends
    START_RESIZE and END_RESIZE and nothing between them, and leaves the
    row as it was; the reducer keeps the task list.  No sequence of
    gestures on a mounted row sends a RESIZE_TASK.  With the task from
    day 10 to day 12, the end handle dragged 5 days left leaves the task
    from day 10 to day 12, where the body of the callback, run with the
    flag set, computes day 10 to day 11. *)
Theorem resize_gesture_sends_no_resize_task :
  (forall made task handle deltas,
     run (idleRow made task) (events (resizeGesture handle deltas))
     = (idleRow made task, [START_RESIZE (id task) handle; END_RESIZE])) /\
  (forall task gestures taskId newStartDate newEndDate,
     RESIZE_TASK taskId newStartDate newEndDate
     ∉ (run (mount task) (gestures ≫= events)).2) /\
  (forall state made task handle deltas,
     exists state',
       dispatchAll state
         (run (idleRow made task) (events (resizeGesture handle deltas))).2
       = Ok state' /\
       tasks state' = tasks state /\
       selectedTaskId state' = Some (id task) /\
       isResizing state' = false /\ resizeHandle state' = None) /\
  (exists state',
     dispatchAll
       (mkState [Some (exampleLeaf "1")] None day false 1%Q None false None)
       (run (mount (exampleLeaf "1"))
          (events (resizeGesture handle_end [(-5)%Z]))).2
     = Ok state' /\
     tasks state' = [Some (exampleLeaf "1")] /\
     startDate (exampleLeaf "1") = calendarDate 10 /\
     endDate (exampleLeaf "1") = calendarDate 12 /\
     calendarDate 12 <> calendarDate 11) /\
  handleResizeMouseMove true (Some (exampleLeaf "1")) (Some handle_end) "1"
    (-5)
  = Some (RESIZE_TASK "1" (calendarDate 10) (calendarDate 11)).
Proof.
  split; [exact resize_gesture_on_idle_row |].
  split; [| split; [| split; [| reflexivity]]].
  - intros task gestures taskId s e Hin.
    destruct (gestures_on_idle_row gestures 0 task) as (_ & _ & _ & Hsent).
    rewrite Forall_forall in Hsent.
    destruct (Hsent _ Hin) as [(X & h & H) | H]; discriminate H.
  - intros state made task handle deltas.
    rewrite resize_gesture_on_idle_row. eexists.
    split; [reflexivity |]. repeat split.
  - change (mount (exampleLeaf "1")) with (idleRow 0 (exampleLeaf "1")).
    rewrite resize_gesture_on_idle_row. eexists.
    split; [reflexivity |]. repeat split. discriminate.
Qed.

(** ** The reducer *)

(** C9: START_RESIZE selects the task, sets the resize flag and the
    handle, and changes no other field; END_RESIZE clears the flag and
    the handle and changes no other field, so the selection made by
    START_RESIZE is still there after END_RESIZE. *)
Theorem start_resize_selects_task (state : GanttState) (taskId : string)
    (handle : Handle) :
  (exists s1,
     ganttReducer state (START_RESIZE taskId handle) = Ok s1 /\
     selectedTaskId s1 = Some taskId /\
     isResizing s1 = true /\
     resizeHandle s1 = Some handle /\
     tasks s1 = tasks state /\
     viewMode s1 = viewMode state /\
     isMaximized s1 = isMaximized state /\
     zoomLevel s1 = zoomLevel state /\
     draggedTask s1 = draggedTask state) /\
  (exists s2,
     ganttReducer state END_RESIZE = Ok s2 /\
     isResizing s2 = false /\
     resizeHandle s2 = None /\
     selectedTaskId s2 = selectedTaskId state /\
     tasks s2 = tasks state /\
     viewMode s2 = viewMode state /\
     isMaximized s2 = isMaximized state /\
     zoomLevel s2 = zoomLevel state /\
     draggedTask s2 = draggedTask state) /\
  (exists s3,
     (ganttReducer state (START_RESIZE taskId handle) ≫=
        fun s1 => ganttReducer s1 END_RESIZE) = Ok s3 /\
     selectedTaskId s3 = Some taskId /\
     isResizing s3 = false /\
     resizeHandle s3 = None).
Proof.
  split; [| split]; eexists; simpl; (split; [reflexivity |]);
    repeat split; reflexivity.
Qed.

(** MOVE_TASK_TO_PARENT has no case of its own in the reducer: whatever
    the task id, the parent and the index, the state comes back as it
    was. *)
Lemma move_task_to_parent_is_noop (state : GanttState) (taskId : string)
    (newParentId : option string) (newIndex : Z) :
  ganttReducer state (MOVE_TASK_TO_PARENT taskId newParentId newIndex)
  = Ok state.
Proof. reflexivity. Qed.

(** C1 fails on the code.  In the example state task 2 is the first child
    of task 1.  MOVE_TASK_TO_PARENT of task 2 to the root at index 0
    should take it out of the children of task 1 and make it the first
    root; the reducer returns the state as it was: task 1 is still the
    first root and task 2 is still among its children. *)
Theorem move_task_to_parent_moves_nothing :
  ganttReducer exampleState (MOVE_TASK_TO_PARENT "2" None 0)
  = Ok exampleState /\
  (exists s' t c,
     ganttReducer exampleState (MOVE_TASK_TO_PARENT "2" None 0) = Ok s' /\
     tasks s' !! 0 = Some (Some t) /\ id t = "1" /\
     children t = Some c /\ "2" ∈ forestIds c) /\
  ~ (exists s' t,
       ganttReducer exampleState (MOVE_TASK_TO_PARENT "2" None 0) = Ok s' /\
       tasks s' !! 0 = Some (Some t) /\ id t = "2").
Proof.
  split; [reflexivity |]. split.
  - eexists _, _, _. split; [reflexivity |]. split; [reflexivity |].
    split; [reflexivity |]. split; [reflexivity |].
    apply list_elem_of_In. simpl. left. reflexivity.
  - intros (s' & t & H & Ht & Hid). simpl in H. injection H as <-.
    simpl in Ht. injection Ht as <-. discriminate Hid.
Qed.

(** *** REORDER_TASKS *)

Lemma spliceStart_le (len : nat) (start : Z) : spliceStart len start <= len.
Proof. unfold spliceStart. case_match; lia. Qed.

Lemma spliceStart_ge (len : nat) (start : Z) :
  (Z.of_nat len <= start)%Z -> spliceStart len start = len.
Proof. unfold spliceStart. intros H. case_match; lia. Qed.

Lemma spliceStart_neg (len : nat) (start : Z) :
  0 < len -> (start < 0)%Z -> spliceStart len start < len.
Proof. unfold spliceStart. intros Hl H. case_match; lia. Qed.

(** With the source index at or past the end, nothing is removed and
    [undefined] is inserted at the clamped destination. *)
Lemma reorderTasks_past_end (l : list slot) (src dst : Z) :
  (Z.of_nat (length l) <= src)%Z ->
  reorderTasks l src dst =
  take (spliceStart (length l) dst) l ++ None ::
  drop (spliceStart (length l) dst) l.
Proof.
  intros Hsrc. unfold reorderTasks, splice.
  rewrite (spliceStart_ge _ _ Hsrc).
  replace (Z.to_nat (Z.min (Z.max 1 0)
             (Z.of_nat (length l) - Z.of_nat (length l)))) with 0 by lia.
  rewrite Nat.add_0_r, drop_all, firstn_all, app_nil_r. simpl.
  pose proof (spliceStart_le (length l) dst) as Hd.
  do 3 f_equal. lia.
Qed.

(** The length after a splice: what was there, less what is removed,
    plus what is inserted. *)
Lemma splice_length {A : Type} (l : list A) (start deleteCount : Z)
    (items : list A) :
  length (splice l start deleteCount items).1 =
  length l
  - Z.to_nat (Z.min (Z.max deleteCount 0)
                (Z.of_nat (length l)
                 - Z.of_nat (spliceStart (length l) start)))
  + length items.
Proof.
  unfold splice. simpl.
  pose proof (spliceStart_le (length l) start) as Hs.
  rewrite !length_app, length_take, length_drop. lia.
Qed.

(** With a negative source index and a non-empty list, one entry is
    removed and put back: the length is unchanged. *)
Lemma reorderTasks_negative_length (l : list slot) (src dst : Z) :
  0 < length l -> (src < 0)%Z ->
  length (reorderTasks l src dst) = length l.
Proof.
  intros Hl Hsrc. unfold reorderTasks.
  pose proof (splice_length l src 1 []) as H1.
  pose proof (spliceStart_neg (length l) src Hl Hsrc) as Hs.
  destruct (splice l src 1 []) as [reorderedTasks removedEntries].
  rewrite splice_length. simpl in *. lia.
Qed.

(** C10, as stated, fails for a source index below the negative range:
    in the example state, with two roots, source index -5 takes the first
    root out and puts it back; the list keeps length 2 and holds tasks
    only. *)
Lemma reorder_far_negative_index_keeps_length :
  exists s',
    ganttReducer exampleState (REORDER_TASKS (-5) 0) = Ok s' /\
    length (tasks exampleState) = 2 /\
    length (tasks s') = 2 /\
    Forall is_Some (tasks s').
Proof.
  eexists. split; [reflexivity |]. split; [reflexivity |].
  split; [reflexivity |]. simpl. repeat constructor; eexists; reflexivity.
Qed.

(** A negative source index, however low, removes one entry of a
    non-empty root list and puts it back: the length is unchanged. *)
Lemma reorder_negative_source_keeps_length (state : GanttState)
    (sourceIndex destinationIndex : Z) :
  (sourceIndex < 0)%Z -> 0 < length (tasks state) ->
  exists s',
    ganttReducer state (REORDER_TASKS sourceIndex destinationIndex) = Ok s' /\
    length (tasks s') = length (tasks state).
Proof.
  intros Hneg Hlen. eexists. split; [reflexivity |]. simpl.
  apply reorderTasks_negative_length; assumption.
Qed.

(** C10, amended: REORDER_TASKS checks no bound.  With a source index at
    or past the length n of the root list, the splice removes nothing and
    [undefined] is inserted at the destination index (clamped as splice
    clamps it): the new root list has length n + 1 and holds an entry
    that is no task. *)
Theorem reorder_source_index_unchecked (state : GanttState)
    (sourceIndex destinationIndex : Z) :
  (Z.of_nat (length (tasks state)) <= sourceIndex)%Z ->
  exists s',
    ganttReducer state (REORDER_TASKS sourceIndex destinationIndex) = Ok s' /\
    length (tasks s') = S (length (tasks state)) /\
    None ∈ tasks s' /\
    tasks s' !! spliceStart (length (tasks state)) destinationIndex
    = Some None /\
    tasks s' =
    take (spliceStart (length (tasks state)) destinationIndex) (tasks state)
    ++ None ::
    drop (spliceStart (length (tasks state)) destinationIndex) (tasks state).
Proof.
  intros Hsrc. eexists. split; [reflexivity |]. simpl.
  rewrite (reorderTasks_past_end _ _ _ Hsrc).
  pose proof (spliceStart_le (length (tasks state)) destinationIndex) as Hd.
  set (k := spliceStart (length (tasks state)) destinationIndex) in *.
  split; [| split; [| split; [| reflexivity]]].
  - rewrite length_app. simpl. rewrite length_take, length_drop. lia.
  - apply elem_of_app. right. apply elem_of_cons. left. reflexivity.
  - rewrite lookup_app_r by (rewrite length_take; lia).
    rewrite length_take, Nat.min_l, Nat.sub_diag by exact Hd.
    reflexivity.
Qed.

(** C10 on the example state: source index 7 with two roots. *)
Lemma reorder_source_index_unchecked_example :
  (Z.of_nat (length (tasks exampleState)) <= 7)%Z /\
  exists s',
    ganttReducer exampleState (REORDER_TASKS 7 1) = Ok s' /\
    length (tasks s') = 3 /\ tasks s' !! 1 = Some None.
Proof.
  assert (H : (Z.of_nat (length (tasks exampleState)) <= 7)%Z)
    by (simpl; lia).
  split; [exact H |].
  destruct (reorder_source_index_unchecked exampleState 7 1 H)
    as (s' & Hs' & Hlen & _ & Hlook & _).
  exists s'. split; [exact Hs' |]. split; [exact Hlen | exact Hlook].
Defined.

(** ** Trees: induction and unfolding *)

(** Induction on a task together with the lists of tasks below it. *)
Lemma Task_forest_ind (P : Task -> Prop) (Q : list Task -> Prop)
    (Hnode : forall t, (forall c, children t = Some c -> Q c) -> P t)
    (Hnil : Q [])
    (Hcons : forall t r, P t -> Q r -> Q (t :: r)) :
  forall t, P t.
Proof.
  fix IH 1. intros t. apply Hnode.
  destruct t as [? ? ? ? ? ? ? c ? ? ? ? ? ? ?]. simpl.
  intros c' Hc. destruct c as [c |]; [| discriminate].
  injection Hc as <-.
  induction c as [| t' r IHr]; [exact Hnil |].
  apply Hcons; [apply IH | exact IHr].
Qed.

Lemma forest_ind (P : Task -> Prop) (Q : list Task -> Prop)
    (Hnode : forall t, (forall c, children t = Some c -> Q c) -> P t)
    (Hnil : Q [])
    (Hcons : forall t r, P t -> Q r -> Q (t :: r)) :
  forall ts, Q ts.
Proof.
  induction ts as [| t r IHr]; [exact Hnil |].
  apply Hcons; [| exact IHr].
  apply (Task_forest_ind P Q); assumption.
Qed.

Lemma task_and_forest_ind (P : Task -> Prop) (Q : list Task -> Prop)
    (Hnode : forall t, (forall c, children t = Some c -> Q c) -> P t)
    (Hnil : Q [])
    (Hcons : forall t r, P t -> Q r -> Q (t :: r)) :
  (forall t, P t) /\ (forall ts, Q ts).
Proof.
  split; [apply (Task_forest_ind P Q) | apply (forest_ind P Q)]; assumption.
Qed.

Lemma taskIds_eq (t : Task) :
  taskIds t = id t :: match children t with
                      | Some c => forestIds c
                      | None => []
                      end.
Proof. destruct t; reflexivity. Qed.

Lemma taskNodes_eq (t : Task) :
  taskNodes t = ownFields t :: match children t with
                               | Some c => forestNodes c
                               | None => []
                               end.
Proof. destruct t; reflexivity. Qed.

Lemma updateTask_eq (taskId : string) (updates : TaskUpdates) (t : Task) :
  updateTask taskId updates t =
  if bool_decide (id t = taskId) then mergeTask t updates
  else match children t with
       | Some c => withChildren t (updateTaskRecursively c taskId updates)
       | None => t
       end.
Proof. destruct t; reflexivity. Qed.

Lemma findTask_eq (taskId : string) (t : Task) :
  findTask taskId t =
  if bool_decide (id t = taskId) then Some t
  else match children t with
       | Some c => findTaskById c taskId
       | None => None
       end.
Proof. destruct t; reflexivity. Qed.

Lemma deleteTask_eq (taskId : string) (t : Task) :
  deleteTask taskId t =
  if bool_decide (id t = taskId) then None
  else Some match children t with
            | Some c => withChildren t (deleteTaskRecursively c taskId)
            | None => t
            end.
Proof. destruct t; reflexivity. Qed.

Lemma insertBelow_eq (newTask : Task) (position : Position)
    (targetTaskId : string) (t : Task) :
  insertBelow newTask position targetTaskId t =
  match children t with
  | Some c => withChildren t (insertTask newTask position targetTaskId c)
  | None => t
  end.
Proof. destruct t; reflexivity. Qed.

Lemma locateBelow_eq (taskId : string) (t : Task) :
  locateBelow taskId t =
  match children t with
  | Some c => locate taskId c
  | None => None
  end.
Proof. destruct t; reflexivity. Qed.

Lemma locate_cons (taskId : string) (t : Task) (r : list Task) :
  locate taskId (t :: r) =
  if bool_decide (id t = taskId) then Some ([], 0)
  else match locateBelow taskId t with
       | Some (path, j) => Some (0 :: path, j)
       | None => shiftPosition <$> locate taskId r
       end.
Proof. reflexivity. Qed.

Lemma forestIds_cons (t : Task) (r : list Task) :
  forestIds (t :: r) = taskIds t ++ forestIds r.
Proof. reflexivity. Qed.

Lemma forestNodes_cons (t : Task) (r : list Task) :
  forestNodes (t :: r) = taskNodes t ++ forestNodes r.
Proof. reflexivity. Qed.

Lemma forestIds_single (t : Task) : forestIds [t] = taskIds t.
Proof. unfold forestIds. simpl. apply app_nil_r. Qed.

Lemma findTaskById_cons (t : Task) (r : list Task) (taskId : string) :
  findTaskById (t :: r) taskId =
  match findTask taskId t with
  | Some found => Some found
  | None => findTaskById r taskId
  end.
Proof. reflexivity. Qed.

Lemma deleteTaskRecursively_cons (t : Task) (r : list Task)
    (taskId : string) :
  deleteTaskRecursively (t :: r) taskId =
  match deleteTask taskId t with
  | Some t' => t' :: deleteTaskRecursively r taskId
  | None => deleteTaskRecursively r taskId
  end.
Proof. reflexivity. Qed.

Lemma insertTask_cons (newTask : Task) (position : Position)
    (targetTaskId : string) (t : Task) (r : list Task) :
  insertTask newTask position targetTaskId (t :: r) =
  if bool_decide (id t = targetTaskId) then
    match position with
    | subtask => addSubtask t newTask targetTaskId :: r
    | above => newTask :: t :: r
    | below => t :: newTask :: r
    end
  else insertBelow newTask position targetTaskId t ::
       insertTask newTask position targetTaskId r.
Proof. reflexivity. Qed.

(** Writing back the children a task already has changes nothing. *)
Lemma withChildren_same (t : Task) (c : list Task) :
  children t = Some c -> withChildren t c = t.
Proof. destruct t; simpl; intros ->; reflexivity. Qed.

Lemma id_withChildren (t : Task) (c : list Task) :
  id (withChildren t c) = id t.
Proof. reflexivity. Qed.

Lemma children_withChildren (t : Task) (c : list Task) :
  children (withChildren t c) = Some c.
Proof. reflexivity. Qed.

Lemma ownFields_withChildren (t : Task) (c : list Task) :
  ownFields (withChildren t c) = ownFields t.
Proof. reflexivity. Qed.

(** ** Presence of an id and [findTaskById] *)

Lemma not_in_taskIds (taskId : string) (t : Task) :
  taskId ∉ taskIds t ->
  id t <> taskId /\
  forall c, children t = Some c -> taskId ∉ forestIds c.
Proof.
  rewrite taskIds_eq. intros H. split.
  - intros E. apply H. rewrite E. apply elem_of_cons. left. reflexivity.
  - intros c Hc Hin. apply H. rewrite Hc. apply elem_of_cons. right.
    exact Hin.
Qed.

Lemma findTaskById_absent (taskId : string) (ts : list Task) :
  taskId ∉ forestIds ts -> findTaskById ts taskId = None.
Proof.
  revert ts.
  apply (forest_ind (fun t => taskId ∉ taskIds t -> findTask taskId t = None)
                    (fun ts => taskId ∉ forestIds ts ->
                               findTaskById ts taskId = None)).
  - intros t IH H. apply not_in_taskIds in H as [Hid Hc].
    rewrite findTask_eq, bool_decide_eq_false_2 by exact Hid.
    destruct (children t) as [c |] eqn:E; [| reflexivity].
    apply IH; [reflexivity | apply Hc; reflexivity].
  - reflexivity.
  - intros t r IHt IHr H. rewrite forestIds_cons in H.
    rewrite findTaskById_cons, IHt, IHr; [reflexivity | |];
      intros Hin; apply H, elem_of_app; [right | left]; exact Hin.
Qed.

Lemma findTask_absent (taskId : string) (t : Task) :
  taskId ∉ taskIds t -> findTask taskId t = None.
Proof.
  intros H. pose proof (findTaskById_absent taskId [t]) as Hf.
  rewrite findTaskById_cons, forestIds_single in Hf. specialize (Hf H).
  destruct (findTask taskId t); [discriminate | reflexivity].
Qed.

(** The task found has the id looked for, and its ids are ids of the
    forest. *)
Lemma findTaskById_found (taskId : string) (ts : list Task) (x : Task) :
  findTaskById ts taskId = Some x ->
  id x = taskId /\ taskId ∈ forestIds ts.
Proof.
  revert ts.
  apply (forest_ind
           (fun t => findTask taskId t = Some x ->
                     id x = taskId /\ taskId ∈ taskIds t)
           (fun ts => findTaskById ts taskId = Some x ->
                      id x = taskId /\ taskId ∈ forestIds ts)).
  - intros t IH H. rewrite findTask_eq in H. rewrite taskIds_eq.
    case_bool_decide as Hid.
    + injection H as <-. split; [exact Hid |].
      rewrite Hid. apply elem_of_cons. left. reflexivity.
    + destruct (children t) as [c |] eqn:E; [| discriminate].
      destruct (IH c eq_refl H) as [Hx Hin]. split; [exact Hx |].
      apply elem_of_cons. right. exact Hin.
  - discriminate.
  - intros t r IHt IHr H. rewrite findTaskById_cons in H.
    rewrite forestIds_cons.
    destruct (findTask taskId t) as [f |] eqn:E.
    + destruct (IHt H) as [Hx Hin]. split; [exact Hx |].
      apply elem_of_app. left. exact Hin.
    + destruct (IHr H) as [Hx Hin]. split; [exact Hx |].
      apply elem_of_app. right. exact Hin.
Qed.

(** An id of the forest is found. *)
Lemma findTaskById_present (taskId : string) (ts : list Task) :
  taskId ∈ forestIds ts -> exists x, findTaskById ts taskId = Some x.
Proof.
  intros Hin. destruct (findTaskById ts taskId) as [x |] eqn:E; [eauto |].
  exfalso. revert ts Hin E.
  apply (forest_ind
           (fun t => taskId ∈ taskIds t -> findTask taskId t = None -> False)
           (fun ts => taskId ∈ forestIds ts ->
                      findTaskById ts taskId = None -> False)).
  - intros t IH Hin E. rewrite findTask_eq in E. rewrite taskIds_eq in Hin.
    case_bool_decide as Hid; [discriminate |].
    apply elem_of_cons in Hin as [Hin | Hin]; [congruence |].
    destruct (children t) as [c |] eqn:Ec.
    + exact (IH c eq_refl Hin E).
    + apply elem_of_nil in Hin. exact Hin.
  - intros Hin _. apply elem_of_nil in Hin. exact Hin.
  - intros t r IHt IHr Hin E. rewrite findTaskById_cons in E.
    rewrite forestIds_cons in Hin.
    destruct (findTask taskId t) as [f |] eqn:Ef; [discriminate |].
    apply elem_of_app in Hin as [Hin | Hin]; [exact (IHt Hin eq_refl) |].
    exact (IHr Hin E).
Qed.

(** ** The root array when every slot holds a task *)

Lemma updateRoot_tasks (ts : list Task) (taskId : string)
    (updates : TaskUpdates) :
  updateRoot (Some <$> ts) taskId updates
  = Ok (Some <$> updateTaskRecursively ts taskId updates).
Proof.
  unfold updateRoot, updateTaskRecursively.
  induction ts as [| t r IH]; [reflexivity |].
  rewrite fmap_cons. simpl. rewrite IH. reflexivity.
Qed.

Lemma deleteRoot_tasks (ts : list Task) (taskId : string) :
  deleteRoot (Some <$> ts) taskId
  = Ok (Some <$> deleteTaskRecursively ts taskId).
Proof.
  unfold deleteRoot.
  induction ts as [| t r IH]; [reflexivity |].
  rewrite deleteTaskRecursively_cons, fmap_cons. simpl. rewrite IH.
  destruct (deleteTask taskId t); reflexivity.
Qed.

Lemma findRoot_tasks (ts : list Task) (taskId : string) :
  findRoot (Some <$> ts) taskId = Ok (findTaskById ts taskId).
Proof.
  induction ts as [| t r IH]; [reflexivity |].
  rewrite findTaskById_cons, fmap_cons. simpl.
  destruct (findTask taskId t); [reflexivity | exact IH].
Qed.

Lemma insertRoot_tasks (newTask : Task) (position : Position)
    (targetTaskId : string) (ts : list Task) :
  insertRoot newTask position targetTaskId (Some <$> ts)
  = Ok (Some <$> addTaskAtPosition ts newTask position targetTaskId).
Proof.
  unfold addTaskAtPosition.
  induction ts as [| t r IH]; [reflexivity |].
  rewrite insertTask_cons, fmap_cons. simpl.
  case_bool_decide.
  - destruct position; reflexivity.
  - rewrite IH. reflexivity.
Qed.

Lemma withTasks_same (state : GanttState) : withTasks state (tasks state) = state.
Proof. destruct state; reflexivity. Qed.

(** ** Identity on miss *)

Lemma updateTaskRecursively_absent (taskId : string) (updates : TaskUpdates)
    (ts : list Task) :
  taskId ∉ forestIds ts -> updateTaskRecursively ts taskId updates = ts.
Proof.
  revert ts.
  apply (forest_ind
           (fun t => taskId ∉ taskIds t -> updateTask taskId updates t = t)
           (fun ts => taskId ∉ forestIds ts ->
                      updateTaskRecursively ts taskId updates = ts)).
  - intros t IH H. apply not_in_taskIds in H as [Hid Hc].
    rewrite updateTask_eq, bool_decide_eq_false_2 by exact Hid.
    destruct (children t) as [c |] eqn:E; [| reflexivity].
    rewrite (IH c eq_refl (Hc c eq_refl)). apply withChildren_same, E.
  - reflexivity.
  - intros t r IHt IHr H. rewrite forestIds_cons in H.
    unfold updateTaskRecursively in *. simpl. rewrite IHt, IHr;
      [reflexivity | |]; intros Hin; apply H, elem_of_app;
      [right | left]; exact Hin.
Qed.

Lemma deleteTask_absent (taskId : string) (t : Task) :
  (forall c, children t = Some c ->
             deleteTaskRecursively c taskId = c) ->
  id t <> taskId -> deleteTask taskId t = Some t.
Proof.
  intros Hc Hid. rewrite deleteTask_eq, bool_decide_eq_false_2 by exact Hid.
  destruct (children t) as [c |] eqn:E; [| reflexivity].
  rewrite (Hc c eq_refl), (withChildren_same t c E). reflexivity.
Qed.

Lemma deleteTaskRecursively_absent (taskId : string) (ts : list Task) :
  taskId ∉ forestIds ts -> deleteTaskRecursively ts taskId = ts.
Proof.
  revert ts.
  apply (forest_ind
           (fun t => taskId ∉ taskIds t -> deleteTask taskId t = Some t)
           (fun ts => taskId ∉ forestIds ts ->
                      deleteTaskRecursively ts taskId = ts)).
  - intros t IH H. apply not_in_taskIds in H as [Hid Hc].
    apply deleteTask_absent; [| exact Hid].
    intros c E. apply (IH c E), (Hc c E).
  - reflexivity.
  - intros t r IHt IHr H. rewrite forestIds_cons in H.
    rewrite deleteTaskRecursively_cons, IHt, IHr; [reflexivity | |];
      intros Hin; apply H, elem_of_app; [right | left]; exact Hin.
Qed.

(** C6: when no node of the forest has the id, the update with any
    payload and the deletion return the forest itself, and UPDATE_TASK,
    DELETE_TASK and TOGGLE_TASK_EXPANSION return the state itself; none
    of them throws. *)
Theorem identity_on_miss (state : GanttState) (T : list Task)
    (X : string) (updates : TaskUpdates) :
  tasks state = Some <$> T ->
  X ∉ forestIds T ->
  updateTaskRecursively T X updates = T /\
  deleteTaskRecursively T X = T /\
  ganttReducer state (UPDATE_TASK X updates) = Ok state /\
  ganttReducer state (DELETE_TASK X) = Ok state /\
  ganttReducer state (TOGGLE_TASK_EXPANSION X) = Ok state.
Proof.
  intros HT HX.
  pose proof (updateTaskRecursively_absent X) as Hu.
  pose proof (deleteTaskRecursively_absent X T HX) as Hd.
  split; [apply Hu, HX |]. split; [exact Hd |].
  simpl. rewrite HT, !updateRoot_tasks, deleteRoot_tasks, findRoot_tasks.
  simpl. rewrite updateRoot_tasks. simpl.
  rewrite !(Hu _ T HX), Hd, <- HT, withTasks_same.
  repeat split; reflexivity.
Qed.

(** C6 on the example state: no task has id 9. *)
Lemma identity_on_miss_example :
  ganttReducer exampleState (UPDATE_TASK "9" (expansionUpdate true))
  = Ok exampleState /\
  ganttReducer exampleState (DELETE_TASK "9") = Ok exampleState /\
  ganttReducer exampleState (TOGGLE_TASK_EXPANSION "9") = Ok exampleState.
Proof.
  assert (Hmiss : "9" ∉ forestIds exampleForest).
  { intros H. apply list_elem_of_In in H. simpl in H.
    repeat destruct H as [H | H]; try discriminate H. exact H. }
  destruct (identity_on_miss exampleState exampleForest "9"
              (expansionUpdate true) eq_refl Hmiss)
    as (_ & _ & Hu & Hd & Ht).
  split; [exact Hu |]. split; [exact Hd | exact Ht].
Defined.

(** ** Deletion *)

Lemma findTask_found (taskId : string) (t x : Task) :
  findTask taskId t = Some x -> id x = taskId /\ taskId ∈ taskIds t.
Proof.
  intros H. pose proof (findTaskById_found taskId [t] x) as Hf.
  rewrite findTaskById_cons, H, forestIds_single in Hf. exact (Hf eq_refl).
Qed.

Lemma findTask_none (taskId : string) (t : Task) :
  findTask taskId t = None -> taskId ∉ taskIds t.
Proof.
  intros H Hin. destruct (findTaskById_present taskId [t]) as [x Hx].
  - rewrite forestIds_single. exact Hin.
  - rewrite findTaskById_cons, H in Hx. discriminate Hx.
Qed.

Lemma deleteTask_absent_ids (taskId : string) (t : Task) :
  taskId ∉ taskIds t -> deleteTask taskId t = Some t.
Proof.
  intros H. pose proof (deleteTaskRecursively_absent taskId [t]) as Hd.
  rewrite forestIds_single, deleteTaskRecursively_cons in Hd.
  specialize (Hd H).
  destruct (deleteTask taskId t) as [t' |]; [| discriminate].
  injection Hd as ->. reflexivity.
Qed.

(** After the deletion no node has the id. *)
Lemma deleteTaskRecursively_id_gone (taskId : string) (ts : list Task) :
  taskId ∉ forestIds (deleteTaskRecursively ts taskId).
Proof.
  revert ts.
  apply (forest_ind
           (fun t => forall t', deleteTask taskId t = Some t' ->
                                taskId ∉ taskIds t')
           (fun ts => taskId ∉ forestIds (deleteTaskRecursively ts taskId))).
  - intros t IH t' H. rewrite deleteTask_eq in H.
    case_bool_decide as Hid; [discriminate |]. injection H as <-.
    destruct (children t) as [c |] eqn:E.
    + rewrite taskIds_eq, id_withChildren, children_withChildren.
      intros Hin. apply elem_of_cons in Hin as [Hin | Hin]; [congruence |].
      exact (IH c eq_refl Hin).
    + rewrite taskIds_eq, E. intros Hin.
      apply elem_of_cons in Hin as [Hin | Hin]; [congruence |].
      apply elem_of_nil in Hin. exact Hin.
  - intros Hin. apply elem_of_nil in Hin. exact Hin.
  - intros t r IHt IHr. rewrite deleteTaskRecursively_cons.
    destruct (deleteTask taskId t) as [t' |] eqn:E; [| exact IHr].
    rewrite forestIds_cons. intros Hin.
    apply elem_of_app in Hin as [Hin | Hin];
      [exact (IHt t' eq_refl Hin) | exact (IHr Hin)].
Qed.

(** With distinct ids, the deletion takes the nodes of the subtree found
    out of the pre-order list of nodes and leaves the others as they
    are. *)
Lemma deleteTaskRecursively_nodes (taskId : string) (x : Task)
    (ts : list Task) :
  findTaskById ts taskId = Some x ->
  NoDup (forestIds ts) ->
  exists l1 l2,
    forestNodes ts = l1 ++ taskNodes x ++ l2 /\
    forestNodes (deleteTaskRecursively ts taskId) = l1 ++ l2.
Proof.
  revert ts.
  apply (forest_ind
           (fun t => id t <> taskId ->
                     findTask taskId t = Some x ->
                     NoDup (taskIds t) ->
                     exists l1 l2 t',
                       taskNodes t = l1 ++ taskNodes x ++ l2 /\
                       deleteTask taskId t = Some t' /\
                       taskNodes t' = l1 ++ l2)
           (fun ts => findTaskById ts taskId = Some x ->
                      NoDup (forestIds ts) ->
                      exists l1 l2,
                        forestNodes ts = l1 ++ taskNodes x ++ l2 /\
                        forestNodes (deleteTaskRecursively ts taskId)
                        = l1 ++ l2)).
  - intros t IH Hid Hf Hnd.
    rewrite findTask_eq, bool_decide_eq_false_2 in Hf by exact Hid.
    rewrite taskIds_eq in Hnd. apply NoDup_cons in Hnd as [_ Hnd].
    destruct (children t) as [c |] eqn:E; [| discriminate].
    destruct (IH c eq_refl Hf Hnd) as (l1 & l2 & H1 & H2).
    exists (ownFields t :: l1), l2, (withChildren t (deleteTaskRecursively c taskId)).
    split; [rewrite taskNodes_eq, E, H1; reflexivity |].
    split; [rewrite deleteTask_eq, bool_decide_eq_false_2, E by exact Hid;
            reflexivity |].
    rewrite taskNodes_eq, children_withChildren, ownFields_withChildren, H2.
    reflexivity.
  - discriminate.
  - intros t r IHt IHr Hf Hnd. rewrite findTaskById_cons in Hf.
    rewrite forestIds_cons in Hnd.
    apply NoDup_app in Hnd as (Hndt & Hsep & Hndr).
    rewrite forestNodes_cons, deleteTaskRecursively_cons.
    destruct (findTask taskId t) as [f |] eqn:Ef.
    + injection Hf as ->.
      destruct (findTask_found _ _ _ Ef) as [_ Hin].
      rewrite (deleteTaskRecursively_absent taskId r (Hsep _ Hin)).
      destruct (decide (id t = taskId)) as [Hid | Hid].
      * rewrite findTask_eq, bool_decide_eq_true_2 in Ef by exact Hid.
        injection Ef as ->.
        rewrite deleteTask_eq, bool_decide_eq_true_2 by exact Hid.
        exists [], (forestNodes r). split; reflexivity.
      * destruct (IHt Hid eq_refl Hndt) as (l1 & l2 & t' & H1 & H2 & H3).
        rewrite H2, forestNodes_cons, H1, H3.
        exists l1, (l2 ++ forestNodes r).
        rewrite <- !app_assoc. split; reflexivity.
    + destruct (IHr Hf Hndr) as (l1 & l2 & H1 & H2).
      rewrite (deleteTask_absent_ids _ _ (findTask_none _ _ Ef)).
      rewrite forestNodes_cons, H1, H2.
      exists (taskNodes t ++ l1), l2.
      rewrite <- !app_assoc. split; reflexivity.
Qed.

(** C5: in a forest with distinct ids, deleting the id of a node takes
    that node and all its descendants out and keeps every other node with
    its own fields and in its place; the id is gone, and the node count
    is the count before less the size of the subtree. *)
Theorem delete_removes_subtree (T : list Task) (X : string) :
  NoDup (forestIds T) ->
  X ∈ forestIds T ->
  exists x l1 l2,
    findTaskById T X = Some x /\ id x = X /\
    forestNodes T = l1 ++ taskNodes x ++ l2 /\
    forestNodes (deleteTaskRecursively T X) = l1 ++ l2 /\
    (X ∉ forestIds (deleteTaskRecursively T X)) /\
    nodeCount (deleteTaskRecursively T X) = nodeCount T - subtreeSize x /\
    subtreeSize x <= nodeCount T.
Proof.
  intros Hnd Hin.
  destruct (findTaskById_present X T Hin) as [x Hx].
  destruct (findTaskById_found X T x Hx) as [Hid _].
  destruct (deleteTaskRecursively_nodes X x T Hx Hnd) as (l1 & l2 & H1 & H2).
  exists x, l1, l2.
  split; [exact Hx |]. split; [exact Hid |]. split; [exact H1 |].
  split; [exact H2 |]. split; [apply deleteTaskRecursively_id_gone |].
  unfold nodeCount, subtreeSize. rewrite H1, H2, !length_app. lia.
Qed.

(** DELETE_TASK on a state whose root array holds the forest [T] is the
    deletion on [T]. *)
Lemma delete_task_action (state : GanttState) (T : list Task) (X : string) :
  tasks state = Some <$> T ->
  ganttReducer state (DELETE_TASK X)
  = Ok (withTasks state (Some <$> deleteTaskRecursively T X)).
Proof. intros HT. simpl. rewrite HT, deleteRoot_tasks. reflexivity. Qed.

(** C5 on the example forest: deleting task 1 removes it and its two
    children, and leaves task 4. *)
Lemma delete_removes_subtree_example :
  exists x l1 l2,
    findTaskById exampleForest "1" = Some x /\ id x = "1" /\
    forestNodes exampleForest = l1 ++ taskNodes x ++ l2 /\
    forestNodes (deleteTaskRecursively exampleForest "1") = l1 ++ l2 /\
    ("1" ∉ forestIds (deleteTaskRecursively exampleForest "1")) /\
    nodeCount (deleteTaskRecursively exampleForest "1")
    = nodeCount exampleForest - subtreeSize x /\
    subtreeSize x <= nodeCount exampleForest.
Proof.
  apply (delete_removes_subtree exampleForest "1").
  - refine (bool_decide_unpack _ _). vm_compute. exact I.
  - apply list_elem_of_In. simpl. left. reflexivity.
Defined.

(** ** Insertion *)

(** Where no node has the target id the insertion changes nothing. *)
Lemma insertTask_unlocated (newTask : Task) (position : Position)
    (targetTaskId : string) (ts : list Task) :
  locate targetTaskId ts = None ->
  insertTask newTask position targetTaskId ts = ts.
Proof.
  revert ts.
  apply (forest_ind
           (fun t => locateBelow targetTaskId t = None ->
                     insertBelow newTask position targetTaskId t = t)
           (fun ts => locate targetTaskId ts = None ->
                      insertTask newTask position targetTaskId ts = ts)).
  - intros t IH H. rewrite locateBelow_eq in H. rewrite insertBelow_eq.
    destruct (children t) as [c |] eqn:E; [| reflexivity].
    rewrite (IH c eq_refl H). apply withChildren_same, E.
  - reflexivity.
  - intros t r IHt IHr H. rewrite locate_cons in H. rewrite insertTask_cons.
    case_bool_decide; [discriminate |].
    destruct (locateBelow targetTaskId t) as [[path j] |]; [discriminate |].
    destruct (locate targetTaskId r) as [q |]; [discriminate |].
    rewrite IHt, IHr; reflexivity.
Qed.

(** An id of the forest has a position, and an id with a position is an
    id of the forest. *)
Lemma locate_present (taskId : string) (ts : list Task) :
  taskId ∈ forestIds ts -> exists path j, locate taskId ts = Some (path, j).
Proof.
  revert ts.
  apply (forest_ind
           (fun t => id t <> taskId -> taskId ∈ taskIds t ->
                     exists path j, locateBelow taskId t = Some (path, j))
           (fun ts => taskId ∈ forestIds ts ->
                      exists path j, locate taskId ts = Some (path, j))).
  - intros t IH Hid Hin. rewrite taskIds_eq in Hin.
    apply elem_of_cons in Hin as [Hin | Hin]; [congruence |].
    rewrite locateBelow_eq.
    destruct (children t) as [c |] eqn:E.
    + exact (IH c eq_refl Hin).
    + apply elem_of_nil in Hin. destruct Hin.
  - intros Hin. apply elem_of_nil in Hin. destruct Hin.
  - intros t r IHt IHr Hin. rewrite forestIds_cons in Hin.
    rewrite locate_cons. case_bool_decide as Hid; [eauto |].
    destruct (locateBelow taskId t) as [[path j] |] eqn:Eb; [eauto |].
    apply elem_of_app in Hin as [Hin | Hin].
    + destruct (IHt Hid Hin) as (path & j & Hp). discriminate Hp.
    + destruct (IHr Hin) as (path & j & Hp). rewrite Hp. simpl.
      destruct path; eauto.
Qed.

(** The insertion at the position of the first node with the target id:
    the list that contains the node is changed as [insertedAt] says, and
    is still reached by the same path. *)
Lemma insertTask_located (newTask : Task) (position : Position)
    (targetTaskId : string) (ts : list Task) (path : list nat) (j : nat) :
  locate targetTaskId ts = Some (path, j) ->
  exists l1 x l2,
    listAt path ts = Some (l1 ++ x :: l2) /\
    length l1 = j /\ id x = targetTaskId /\
    listAt path (insertTask newTask position targetTaskId ts)
    = Some (insertedAt newTask position targetTaskId l1 x l2).
Proof.
  revert ts path j.
  apply (forest_ind
           (fun t => forall path j,
              locateBelow targetTaskId t = Some (path, j) ->
              exists c l1 x l2,
                children t = Some c /\
                listAt path c = Some (l1 ++ x :: l2) /\
                length l1 = j /\ id x = targetTaskId /\
                listAt path (insertTask newTask position targetTaskId c)
                = Some (insertedAt newTask position targetTaskId l1 x l2))
           (fun ts => forall path j,
              locate targetTaskId ts = Some (path, j) ->
              exists l1 x l2,
                listAt path ts = Some (l1 ++ x :: l2) /\
                length l1 = j /\ id x = targetTaskId /\
                listAt path (insertTask newTask position targetTaskId ts)
                = Some (insertedAt newTask position targetTaskId l1 x l2))).
  - intros t IH path j H. rewrite locateBelow_eq in H.
    destruct (children t) as [c |] eqn:E; [| discriminate].
    destruct (IH c eq_refl path j H) as (l1 & x & l2 & H1 & H2 & H3 & H4).
    exists c, l1, x, l2. repeat split; assumption.
  - discriminate.
  - intros t r IHt IHr path j H. rewrite locate_cons in H.
    rewrite insertTask_cons. case_bool_decide as Hid.
    + injection H as <- <-. exists [], t, r.
      split; [reflexivity |]. split; [reflexivity |]. split; [exact Hid |].
      destruct position; reflexivity.
    + destruct (locateBelow targetTaskId t) as [[path' j'] |] eqn:Eb.
      * injection H as <- <-.
        destruct (IHt path' j' eq_refl)
          as (c & l1 & x & l2 & Hc & H1 & H2 & H3 & H4).
        exists l1, x, l2. simpl. rewrite Hc. simpl.
        split; [exact H1 |]. split; [exact H2 |]. split; [exact H3 |].
        rewrite insertBelow_eq, Hc, children_withChildren. simpl. exact H4.
      * destruct (locate targetTaskId r) as [[q k] |] eqn:Er; [| discriminate].
        destruct (IHr q k eq_refl) as (l1 & x & l2 & H1 & H2 & H3 & H4).
        assert (Hb : insertBelow newTask position targetTaskId t = t).
        { pose proof (insertTask_unlocated newTask position targetTaskId [t])
            as Hu.
          rewrite locate_cons, bool_decide_eq_false_2, Eb in Hu by exact Hid.
          specialize (Hu eq_refl). rewrite insertTask_cons in Hu.
          rewrite bool_decide_eq_false_2 in Hu by exact Hid.
          injection Hu as Hu. exact Hu. }
        rewrite Hb. destruct q as [| i q]; simpl in H; injection H as <- <-.
        -- simpl in H1, H4. injection H1 as ->. injection H4 as H4.
           exists (t :: l1), x, l2. simpl. rewrite H4, H2.
           split; [reflexivity |]. split; [reflexivity |].
           split; [exact H3 |]. destruct position; reflexivity.
        -- exists l1, x, l2. repeat split; assumption.
Qed.

Lemma locate_absent (taskId : string) (ts : list Task) :
  taskId ∉ forestIds ts -> locate taskId ts = None.
Proof.
  revert ts.
  apply (forest_ind
           (fun t => taskId ∉ taskIds t -> locateBelow taskId t = None)
           (fun ts => taskId ∉ forestIds ts -> locate taskId ts = None)).
  - intros t IH H. apply not_in_taskIds in H as [_ Hc].
    rewrite locateBelow_eq. destruct (children t) as [c |] eqn:E;
      [| reflexivity].
    exact (IH c eq_refl (Hc c eq_refl)).
  - reflexivity.
  - intros t r IHt IHr H. rewrite forestIds_cons in H.
    assert (Ht : taskId ∉ taskIds t)
      by (intros Hin; apply H, elem_of_app; left; exact Hin).
    assert (Hr : taskId ∉ forestIds r)
      by (intros Hin; apply H, elem_of_app; right; exact Hin).
    rewrite locate_cons, (IHt Ht), (IHr Hr).
    apply not_in_taskIds in Ht as [Hid _].
    rewrite bool_decide_eq_false_2 by exact Hid. reflexivity.
Qed.

Lemma insertTask_absent (newTask : Task) (position : Position)
    (targetTaskId : string) (ts : list Task) :
  targetTaskId ∉ forestIds ts ->
  addTaskAtPosition ts newTask position targetTaskId = ts.
Proof. intros H. apply insertTask_unlocated, locate_absent, H. Qed.

Lemma insertBelow_absent (newTask : Task) (position : Position)
    (targetTaskId : string) (t : Task) :
  targetTaskId ∉ taskIds t ->
  insertBelow newTask position targetTaskId t = t.
Proof.
  intros H. pose proof (not_in_taskIds _ _ H) as [Hid _].
  pose proof (insertTask_absent newTask position targetTaskId [t]) as Hu.
  rewrite forestIds_single in Hu. specialize (Hu H).
  unfold addTaskAtPosition in Hu. rewrite insertTask_cons in Hu.
  rewrite bool_decide_eq_false_2 in Hu by exact Hid.
  injection Hu as Hu. exact Hu.
Qed.

(** The node at the position [locate] gives is the one [findTaskById]
    returns. *)
Lemma locate_findTaskById (taskId : string) (ts : list Task)
    (path : list nat) (l1 : list Task) (x : Task) (l2 : list Task) :
  locate taskId ts = Some (path, length l1) ->
  listAt path ts = Some (l1 ++ x :: l2) ->
  findTaskById ts taskId = Some x.
Proof.
  revert ts path l1.
  apply (forest_ind
           (fun t => forall path l1,
              locateBelow taskId t = Some (path, length l1) ->
              (children t ≫= listAt path) = Some (l1 ++ x :: l2) ->
              id t <> taskId -> findTask taskId t = Some x)
           (fun ts => forall path l1,
              locate taskId ts = Some (path, length l1) ->
              listAt path ts = Some (l1 ++ x :: l2) ->
              findTaskById ts taskId = Some x)).
  - intros t IH path l1 Hl Hp Hid. rewrite locateBelow_eq in Hl.
    rewrite findTask_eq, bool_decide_eq_false_2 by exact Hid.
    destruct (children t) as [c |] eqn:E; [| discriminate].
    exact (IH c eq_refl path l1 Hl Hp).
  - discriminate.
  - intros t r IHt IHr path l1 Hl Hp. rewrite locate_cons in Hl.
    rewrite findTaskById_cons. case_bool_decide as Hid.
    + injection Hl as <- Hlen. symmetry in Hlen.
      apply length_zero_iff_nil in Hlen. subst l1.
      simpl in Hp. injection Hp as <- <-.
      rewrite findTask_eq, bool_decide_eq_true_2 by exact Hid. reflexivity.
    + destruct (locateBelow taskId t) as [[path' j'] |] eqn:Eb.
      * injection Hl as <- ->. simpl in Hp.
        rewrite (IHt path' l1 eq_refl Hp Hid). reflexivity.
      * assert (Hf : findTask taskId t = None).
        { rewrite findTask_eq, bool_decide_eq_false_2 by exact Hid.
          rewrite locateBelow_eq in Eb.
          destruct (children t) as [c |] eqn:E; [| reflexivity].
          destruct (findTaskById c taskId) as [f |] eqn:Ef; [| reflexivity].
          apply findTaskById_found in Ef as [_ Hin].
          apply locate_present in Hin as (q & k & Hq). congruence. }
        rewrite Hf.
        destruct (locate taskId r) as [[q k] |] eqn:Er; [| discriminate].
        destruct q as [| i q]; simpl in Hl; injection Hl as <- Hk.
        -- destruct l1 as [| t0 l1]; [discriminate |].
           simpl in Hk. injection Hk as ->.
           simpl in Hp. injection Hp as <- Hp.
           apply (IHr [] l1 eq_refl). simpl. rewrite Hp. reflexivity.
        -- subst k. simpl in Hp. exact (IHr (i :: q) l1 eq_refl Hp).
Qed.

(** After a subtask insertion the lookup of the target returns the target
    with the new child. *)
Lemma findTaskById_after_subtask (newTask : Task) (targetTaskId : string)
    (x : Task) (ts : list Task) :
  findTaskById ts targetTaskId = Some x ->
  findTaskById (addTaskAtPosition ts newTask subtask targetTaskId)
    targetTaskId
  = Some (addSubtask x newTask targetTaskId).
Proof.
  unfold addTaskAtPosition. revert ts.
  apply (forest_ind
           (fun t => id t <> targetTaskId ->
              findTask targetTaskId t = Some x ->
              findTask targetTaskId
                (insertBelow newTask subtask targetTaskId t)
              = Some (addSubtask x newTask targetTaskId))
           (fun ts => findTaskById ts targetTaskId = Some x ->
              findTaskById (insertTask newTask subtask targetTaskId ts)
                targetTaskId
              = Some (addSubtask x newTask targetTaskId))).
  - intros t IH Hid H. rewrite findTask_eq in H.
    rewrite bool_decide_eq_false_2 in H by exact Hid.
    destruct (children t) as [c |] eqn:E; [| discriminate].
    rewrite insertBelow_eq, E, findTask_eq, id_withChildren.
    rewrite bool_decide_eq_false_2 by exact Hid.
    rewrite children_withChildren. exact (IH c eq_refl H).
  - discriminate.
  - intros t r IHt IHr H. rewrite findTaskById_cons in H.
    rewrite insertTask_cons. case_bool_decide as Hid.
    + rewrite findTask_eq, bool_decide_eq_true_2 in H by exact Hid.
      injection H as <-. rewrite findTaskById_cons, findTask_eq.
      rewrite bool_decide_eq_true_2 by exact Hid. reflexivity.
    + rewrite findTaskById_cons.
      destruct (findTask targetTaskId t) as [f |] eqn:Ef.
      * injection H as ->. rewrite (IHt Hid eq_refl). reflexivity.
      * rewrite (insertBelow_absent _ _ _ _ (findTask_none _ _ Ef)), Ef.
        exact (IHr H).
Qed.

(** C7: the subtask insertion at the id of a node of the forest replaces
    that node, in the list that contains it and at its index, by the node
    with the new task (its parentId set to the id) appended as last
    child, a children list being made when there was none, and with
    isExpanded true; the lookup of the id in the new forest returns that
    node. *)
Theorem subtask_insertion (T : list Task) (newTask : Task) (X : string) :
  X ∈ forestIds T ->
  exists path l1 x l2 x' child,
    locate X T = Some (path, length l1) /\
    listAt path T = Some (l1 ++ x :: l2) /\
    findTaskById T X = Some x /\
    id x = X /\
    listAt path (addTaskAtPosition T newTask subtask X)
    = Some (l1 ++ x' :: l2) /\
    findTaskById (addTaskAtPosition T newTask subtask X) X = Some x' /\
    id x' = X /\
    children x' = Some (default [] (children x) ++ [child]) /\
    last (default [] (children x')) = Some child /\
    child = mergeTask newTask (parentUpdate X) /\
    parentId child = Some X /\
    isExpanded x' = Some true /\
    ownFields x' = mergeTask (ownFields x) (expansionUpdate true).
Proof.
  intros Hin.
  destruct (locate_present X T Hin) as (path & j & Hl).
  destruct (insertTask_located newTask subtask X T path j Hl)
    as (l1 & x & l2 & H1 & H2 & H3 & H4).
  subst j.
  pose proof (locate_findTaskById X T path l1 x l2 Hl H1) as Hf.
  exists path, l1, x, l2, (addSubtask x newTask X),
    (mergeTask newTask (parentUpdate X)).
  split; [exact Hl |]. split; [exact H1 |]. split; [exact Hf |].
  split; [exact H3 |]. split; [exact H4 |].
  split; [apply findTaskById_after_subtask, Hf |].
  split; [exact H3 |]. split; [reflexivity |].
  split; [simpl; apply last_snoc |].
  repeat split; reflexivity.
Qed.

(** C7 on the example forest: a subtask of task 3, which has no children
    list. *)
Lemma subtask_insertion_example :
  exists path l1 x l2 x' child,
    locate "3" exampleForest = Some (path, length l1) /\
    listAt path exampleForest = Some (l1 ++ x :: l2) /\
    findTaskById exampleForest "3" = Some x /\
    id x = "3" /\
    listAt path
      (addTaskAtPosition exampleForest (exampleLeaf "9") subtask "3")
    = Some (l1 ++ x' :: l2) /\
    findTaskById
      (addTaskAtPosition exampleForest (exampleLeaf "9") subtask "3") "3"
    = Some x' /\
    id x' = "3" /\
    children x' = Some (default [] (children x) ++ [child]) /\
    last (default [] (children x')) = Some child /\
    child = mergeTask (exampleLeaf "9") (parentUpdate "3") /\
    parentId child = Some "3" /\
    isExpanded x' = Some true /\
    ownFields x' = mergeTask (ownFields x) (expansionUpdate true).
Proof.
  apply (subtask_insertion exampleForest (exampleLeaf "9") "3").
  apply list_elem_of_In. simpl. right. right. left. reflexivity.
Defined.

(** C8: the insertion above or below the id of a node of the forest
    changes the list that contains the node, root list or children list
    at any depth: the new task comes just before the node for above and
    just after it for below; the list is one longer, and without the new
    entry it is the list as it was. *)
Theorem sibling_insertion (T : list Task) (newTask : Task) (X : string) :
  X ∈ forestIds T ->
  exists path l1 x l2,
    locate X T = Some (path, length l1) /\
    listAt path T = Some (l1 ++ x :: l2) /\
    id x = X /\
    listAt path (addTaskAtPosition T newTask above X)
    = Some (l1 ++ newTask :: x :: l2) /\
    listAt path (addTaskAtPosition T newTask below X)
    = Some (l1 ++ x :: newTask :: l2) /\
    length (l1 ++ newTask :: x :: l2) = S (length (l1 ++ x :: l2)) /\
    length (l1 ++ x :: newTask :: l2) = S (length (l1 ++ x :: l2)) /\
    delete (length l1) (l1 ++ newTask :: x :: l2) = l1 ++ x :: l2 /\
    delete (S (length l1)) (l1 ++ x :: newTask :: l2) = l1 ++ x :: l2.
Proof.
  intros Hin.
  destruct (locate_present X T Hin) as (path & j & Hl).
  destruct (insertTask_located newTask above X T path j Hl)
    as (l1 & x & l2 & H1 & H2 & H3 & H4).
  destruct (insertTask_located newTask below X T path j Hl)
    as (l1' & x' & l2' & H1' & H2' & H3' & H4').
  rewrite H1 in H1'. injection H1' as H1'.
  apply app_inj_1 in H1' as [<- H1']; [| congruence].
  injection H1' as <- <-. subst j.
  exists path, l1, x, l2.
  split; [exact Hl |]. split; [exact H1 |]. split; [exact H3 |].
  split; [exact H4 |]. split; [exact H4' |].
  rewrite !length_app. simpl.
  split; [lia |]. split; [lia |]. split.
  - rewrite delete_middle. reflexivity.
  - change (l1 ++ x :: newTask :: l2) with (l1 ++ [x] ++ newTask :: l2).
    rewrite app_assoc.
    replace (S (length l1)) with (length (l1 ++ [x]))
      by (rewrite length_app; simpl; lia).
    rewrite delete_middle, <- app_assoc. reflexivity.
Qed.

(** C8 on the example forest, next to task 3, a child of task 1. *)
Lemma sibling_insertion_example :
  exists path l1 x l2,
    locate "3" exampleForest = Some (path, length l1) /\
    listAt path exampleForest = Some (l1 ++ x :: l2) /\
    id x = "3" /\
    listAt path (addTaskAtPosition exampleForest (exampleLeaf "9") above "3")
    = Some (l1 ++ exampleLeaf "9" :: x :: l2) /\
    listAt path (addTaskAtPosition exampleForest (exampleLeaf "9") below "3")
    = Some (l1 ++ x :: exampleLeaf "9" :: l2) /\
    length (l1 ++ exampleLeaf "9" :: x :: l2) = S (length (l1 ++ x :: l2)) /\
    length (l1 ++ x :: exampleLeaf "9" :: l2) = S (length (l1 ++ x :: l2)) /\
    delete (length l1) (l1 ++ exampleLeaf "9" :: x :: l2) = l1 ++ x :: l2 /\
    delete (S (length l1)) (l1 ++ x :: exampleLeaf "9" :: l2)
    = l1 ++ x :: l2.
Proof.
  apply (sibling_insertion exampleForest (exampleLeaf "9") "3").
  apply list_elem_of_In. simpl. right. right. left. reflexivity.
Defined.

(** ** Updates of one task, one after the other *)

Lemma mergeTask_thenUpdates (t : Task) (u1 u2 : TaskUpdates) :
  mergeTask (mergeTask t u1) u2 = mergeTask t (thenUpdates u1 u2).
Proof.
  unfold mergeTask, thenUpdates. simpl. f_equal;
    match goal with |- context [laterKey ?x _] => destruct x end;
    reflexivity.
Qed.

Lemma id_mergeTask (taskId : string) (t : Task) (u : TaskUpdates) :
  id t = taskId -> keepsId taskId u -> id (mergeTask t u) = taskId.
Proof. intros Hid [H | H]; simpl; rewrite H; simpl; congruence. Qed.

Lemma withChildren_twice (t : Task) (c1 c2 : list Task) :
  withChildren (withChildren t c1) c2 = withChildren t c2.
Proof. reflexivity. Qed.

Lemma updateTaskRecursively_twice (taskId : string) (u1 u2 : TaskUpdates)
    (ts : list Task) :
  keepsId taskId u1 ->
  updateTaskRecursively (updateTaskRecursively ts taskId u1) taskId u2
  = updateTaskRecursively ts taskId (thenUpdates u1 u2).
Proof.
  intros Hk. revert ts.
  apply (forest_ind
           (fun t => updateTask taskId u2 (updateTask taskId u1 t)
                     = updateTask taskId (thenUpdates u1 u2) t)
           (fun ts => updateTaskRecursively
                        (updateTaskRecursively ts taskId u1) taskId u2
                      = updateTaskRecursively ts taskId (thenUpdates u1 u2))).
  - intros t IH. rewrite (updateTask_eq taskId u1 t),
      (updateTask_eq taskId (thenUpdates u1 u2) t).
    case_bool_decide as Hid.
    + rewrite updateTask_eq, bool_decide_eq_true_2
        by (apply id_mergeTask; assumption).
      apply mergeTask_thenUpdates.
    + destruct (children t) as [c |] eqn:E.
      * rewrite updateTask_eq, id_withChildren,
          bool_decide_eq_false_2 by exact Hid.
        rewrite children_withChildren, withChildren_twice, (IH c eq_refl).
        reflexivity.
      * rewrite updateTask_eq, bool_decide_eq_false_2, E by exact Hid.
        reflexivity.
  - reflexivity.
  - intros t r IHt IHr. unfold updateTaskRecursively in *. simpl.
    rewrite IHt, IHr. reflexivity.
Qed.

(** ** The task found after an update *)

Lemma findTaskById_updated (taskId : string) (u : TaskUpdates)
    (ts : list Task) (x : Task) :
  keepsId taskId u ->
  findTaskById ts taskId = Some x ->
  findTaskById (updateTaskRecursively ts taskId u) taskId
  = Some (mergeTask x u).
Proof.
  intros Hk. revert ts.
  apply (forest_ind
           (fun t => findTask taskId t = Some x ->
                     findTask taskId (updateTask taskId u t)
                     = Some (mergeTask x u))
           (fun ts => findTaskById ts taskId = Some x ->
                      findTaskById (updateTaskRecursively ts taskId u) taskId
                      = Some (mergeTask x u))).
  - intros t IH H. rewrite findTask_eq in H. rewrite updateTask_eq.
    case_bool_decide as Hid.
    + injection H as <-. rewrite findTask_eq, bool_decide_eq_true_2
        by (apply id_mergeTask; assumption).
      reflexivity.
    + destruct (children t) as [c |] eqn:E; [| discriminate].
      rewrite findTask_eq, id_withChildren,
        bool_decide_eq_false_2, children_withChildren by exact Hid.
      exact (IH c eq_refl H).
  - discriminate.
  - intros t r IHt IHr H. rewrite findTaskById_cons in H.
    unfold updateTaskRecursively in *. simpl map.
    rewrite findTaskById_cons.
    destruct (findTask taskId t) as [f |] eqn:E.
    + rewrite (IHt H). reflexivity.
    + pose proof (updateTaskRecursively_absent taskId u [t]) as Hu.
      rewrite forestIds_single in Hu.
      specialize (Hu (findTask_none _ _ E)).
      unfold updateTaskRecursively in Hu. simpl in Hu.
      injection Hu as ->. rewrite E. exact (IHr H).
Qed.

(** With distinct ids, an update that leaves the task found as it is
    leaves the forest as it is. *)
Lemma updateTaskRecursively_fixed (taskId : string) (u : TaskUpdates)
    (ts : list Task) (x : Task) :
  NoDup (forestIds ts) ->
  findTaskById ts taskId = Some x ->
  mergeTask x u = x ->
  updateTaskRecursively ts taskId u = ts.
Proof.
  intros Hnd Hf Hx. revert ts Hnd Hf.
  apply (forest_ind
           (fun t => NoDup (taskIds t) -> findTask taskId t = Some x ->
                     updateTask taskId u t = t)
           (fun ts => NoDup (forestIds ts) ->
                      findTaskById ts taskId = Some x ->
                      updateTaskRecursively ts taskId u = ts)).
  - intros t IH Hnd H. rewrite findTask_eq in H. rewrite updateTask_eq.
    rewrite taskIds_eq in Hnd. apply NoDup_cons in Hnd as [_ Hnd].
    case_bool_decide as Hid.
    + injection H as <-. exact Hx.
    + destruct (children t) as [c |] eqn:E; [| discriminate].
      rewrite (IH c eq_refl Hnd H). apply withChildren_same, E.
  - discriminate.
  - intros t r IHt IHr Hnd H. rewrite findTaskById_cons in H.
    rewrite forestIds_cons in Hnd.
    apply NoDup_app in Hnd as (Hnt & Hdisj & Hnr).
    unfold updateTaskRecursively in *. simpl map.
    destruct (findTask taskId t) as [f |] eqn:E.
    + injection H as ->. rewrite (IHt Hnt eq_refl).
      pose proof (findTask_found _ _ _ E) as [_ Hin].
      pose proof (updateTaskRecursively_absent taskId u r (Hdisj _ Hin))
        as Hr.
      unfold updateTaskRecursively in Hr. rewrite Hr. reflexivity.
    + pose proof (updateTaskRecursively_absent taskId u [t]) as Hu.
      rewrite forestIds_single in Hu.
      specialize (Hu (findTask_none _ _ E)).
      unfold updateTaskRecursively in Hu. simpl in Hu.
      injection Hu as ->. rewrite (IHr Hnr H). reflexivity.
Qed.

(** The ids of the forest, in pre-order, after an update that has no
    [children] key and leaves the id of its task as it is. *)
Lemma updateTaskRecursively_ids (taskId : string) (u : TaskUpdates)
    (ts : list Task) :
  keepsId taskId u -> u_children u = None ->
  forestIds (updateTaskRecursively ts taskId u) = forestIds ts.
Proof.
  intros Hk Hc. revert ts.
  apply (forest_ind
           (fun t => taskIds (updateTask taskId u t) = taskIds t)
           (fun ts => forestIds (updateTaskRecursively ts taskId u)
                      = forestIds ts)).
  - intros t IH. rewrite updateTask_eq. case_bool_decide as Hid.
    + rewrite !taskIds_eq, (id_mergeTask taskId) by assumption.
      simpl. rewrite Hc. simpl. rewrite Hid. reflexivity.
    + destruct (children t) as [c |] eqn:E; [| reflexivity].
      rewrite !taskIds_eq, id_withChildren, children_withChildren, E.
      rewrite (IH c eq_refl). reflexivity.
  - reflexivity.
  - intros t r IHt IHr. unfold updateTaskRecursively in *. simpl map.
    rewrite !forestIds_cons, IHt, IHr. reflexivity.
Qed.

Lemma withTasks_twice (state : GanttState) (a b : list slot) :
  withTasks (withTasks state a) b = withTasks state b.
Proof. reflexivity. Qed.

Lemma tasks_withTasks (state : GanttState) (a : list slot) :
  tasks (withTasks state a) = a.
Proof. reflexivity. Qed.

Lemma bind_Ok {A B : Type} (a : A) (k : A -> result B) :
  Ok a ≫= k = k a.
Proof. reflexivity. Qed.

Lemma bind_TypeError {A B : Type} (k : A -> result B) :
  TypeError ≫= k = TypeError.
Proof. reflexivity. Qed.

Lemma updateRoot_cons (s : slot) (rest : list slot) (taskId : string)
    (u : TaskUpdates) :
  updateRoot (s :: rest) taskId u =
  match s with
  | Some task =>
      match updateRoot rest taskId u with
      | Ok rest' => Ok (Some (updateTask taskId u task) :: rest')
      | TypeError => TypeError
      end
  | None => TypeError
  end.
Proof. destruct s; reflexivity. Qed.

Lemma updateTask_twice (taskId : string) (u1 u2 : TaskUpdates) (t : Task) :
  keepsId taskId u1 ->
  updateTask taskId u2 (updateTask taskId u1 t)
  = updateTask taskId (thenUpdates u1 u2) t.
Proof.
  intros Hk.
  pose proof (updateTaskRecursively_twice taskId u1 u2 [t] Hk) as H.
  unfold updateTaskRecursively in H. simpl in H. injection H as H.
  exact H.
Qed.

Lemma updateRoot_twice (l : list slot) (taskId : string)
    (u1 u2 : TaskUpdates) :
  keepsId taskId u1 ->
  (l1 ← updateRoot l taskId u1; updateRoot l1 taskId u2)
  = updateRoot l taskId (thenUpdates u1 u2).
Proof.
  intros Hk. induction l as [| s rest IH]; [reflexivity |].
  rewrite !updateRoot_cons. destruct s as [task |]; [| reflexivity].
  destruct (updateRoot rest taskId u1) as [rest1 |] eqn:E1.
  - rewrite bind_Ok in *. rewrite <- IH, updateRoot_cons.
    rewrite updateTask_twice by exact Hk. reflexivity.
  - rewrite bind_TypeError in *. rewrite <- IH. reflexivity.
Qed.

(** X1.  Two UPDATE_TASK actions on the same task, one after the other,
    do what one UPDATE_TASK with the merged payload [{ ...u1, ...u2 }]
    does, provided the first payload does not change the id of the task;
    sending the same payload twice does what sending it once does.  This
    holds on every state, also when the reducer throws. *)
Theorem updates_of_one_task_compose (state : GanttState) (X : string)
    (u1 u2 : TaskUpdates) :
  keepsId X u1 ->
  (s1 ← ganttReducer state (UPDATE_TASK X u1);
   ganttReducer s1 (UPDATE_TASK X u2))
  = ganttReducer state (UPDATE_TASK X (thenUpdates u1 u2)) /\
  (s1 ← ganttReducer state (UPDATE_TASK X u1);
   ganttReducer s1 (UPDATE_TASK X u1))
  = ganttReducer state (UPDATE_TASK X u1).
Proof.
  intros Hk.
  assert (Hgen : forall u2,
    (s1 ← ganttReducer state (UPDATE_TASK X u1);
     ganttReducer s1 (UPDATE_TASK X u2))
    = ganttReducer state (UPDATE_TASK X (thenUpdates u1 u2))).
  { intros u. simpl.
    rewrite <- (updateRoot_twice (tasks state) X u1 u Hk).
    destruct (updateRoot (tasks state) X u1) as [l1 |]; [| reflexivity].
    simpl. destruct (updateRoot l1 X u); reflexivity. }
  split; [apply Hgen |]. rewrite Hgen. f_equal. f_equal.
  destruct u1 as [a b c d e f g h i j k l m n o]. unfold thenUpdates. simpl.
  f_equal; match goal with |- laterKey ?x _ = _ => destruct x end;
    reflexivity.
Qed.

Lemma updates_of_one_task_compose_example :
  (s1 ← ganttReducer exampleState
          (UPDATE_TASK "2" (datesUpdate (calendarDate 1) (calendarDate 2)));
   ganttReducer s1 (UPDATE_TASK "2" (expansionUpdate true)))
  = ganttReducer exampleState
      (UPDATE_TASK "2"
         (thenUpdates (datesUpdate (calendarDate 1) (calendarDate 2))
                      (expansionUpdate true))).
Proof.
  apply (updates_of_one_task_compose exampleState "2"
           (datesUpdate (calendarDate 1) (calendarDate 2))
           (expansionUpdate true)).
  left. reflexivity.
Defined.

(** X2.  After UPDATE_TASK on a state whose root list holds tasks, with a
    payload that does not change the id, [findTaskById] returns the task
    it returned before merged with the payload; the root list keeps its
    length, and when the payload has no [children] key the forest keeps
    its ids, in the same order. *)
Theorem updated_task_is_found (state : GanttState) (T : list Task)
    (X : string) (x : Task) (u : TaskUpdates) :
  tasks state = Some <$> T ->
  findTaskById T X = Some x ->
  keepsId X u ->
  exists T',
    ganttReducer state (UPDATE_TASK X u)
    = Ok (withTasks state (Some <$> T')) /\
    findTaskById T' X = Some (mergeTask x u) /\
    length T' = length T /\
    (u_children u = None -> forestIds T' = forestIds T).
Proof.
  intros HT Hf Hk. exists (updateTaskRecursively T X u).
  split; [simpl; rewrite HT, updateRoot_tasks; reflexivity |].
  split; [apply findTaskById_updated; assumption |].
  split; [unfold updateTaskRecursively; apply length_map |].
  intros Hc. apply updateTaskRecursively_ids; assumption.
Qed.

Lemma updated_task_is_found_example :
  exists T',
    ganttReducer exampleState (UPDATE_TASK "3" (expansionUpdate true))
    = Ok (withTasks exampleState (Some <$> T')) /\
    findTaskById T' "3"
    = Some (mergeTask (exampleLeaf "3") (expansionUpdate true)) /\
    length T' = 2 /\
    forestIds T' = ["1"; "2"; "3"; "4"].
Proof.
  destruct (updated_task_is_found exampleState exampleForest "3"
              (exampleLeaf "3") (expansionUpdate true)
              eq_refl eq_refl (or_introl eq_refl))
    as (T' & Hr & Hf & Hl & Hi).
  exists T'. split; [exact Hr |]. split; [exact Hf |].
  split; [exact Hl | exact (Hi eq_refl)].
Defined.

(** X3.  TOGGLE_TASK_EXPANSION twice on a task that is found stores in it
    the [isExpanded] it had, [undefined] counting as false; with distinct
    ids and a defined [isExpanded], the state after the two actions is
    the state before them. *)
Theorem toggle_twice (state : GanttState) (T : list Task) (X : string)
    (x : Task) :
  tasks state = Some <$> T ->
  findTaskById T X = Some x ->
  (s1 ← ganttReducer state (TOGGLE_TASK_EXPANSION X);
   ganttReducer s1 (TOGGLE_TASK_EXPANSION X))
  = Ok (withTasks state
          (Some <$> updateTaskRecursively T X
                      (expansionUpdate (default false (isExpanded x))))) /\
  (NoDup (forestIds T) -> is_Some (isExpanded x) ->
   (s1 ← ganttReducer state (TOGGLE_TASK_EXPANSION X);
    ganttReducer s1 (TOGGLE_TASK_EXPANSION X))
   = Ok state).
Proof.
  intros HT Hf.
  assert (Hrun :
    (s1 ← ganttReducer state (TOGGLE_TASK_EXPANSION X);
     ganttReducer s1 (TOGGLE_TASK_EXPANSION X))
    = Ok (withTasks state
            (Some <$> updateTaskRecursively T X
                        (expansionUpdate (default false (isExpanded x)))))).
  { assert (Hk : forall b, keepsId X (expansionUpdate (C := list Task) b))
      by (intros b; left; reflexivity).
    simpl. rewrite HT, findRoot_tasks, Hf. simpl.
    rewrite updateRoot_tasks. simpl.
    rewrite findRoot_tasks.
    rewrite (findTaskById_updated X _ T x (Hk _) Hf). simpl.
    rewrite updateRoot_tasks. simpl.
    rewrite (updateTaskRecursively_twice X _ _ T (Hk _)).
    rewrite negb_involutive. reflexivity. }
  split; [exact Hrun |]. intros Hnd [b Hb]. rewrite Hrun.
  rewrite (updateTaskRecursively_fixed X _ T x Hnd Hf).
  - rewrite <- HT. rewrite withTasks_same. reflexivity.
  - rewrite Hb. destruct x. simpl in *. rewrite Hb. reflexivity.
Qed.

Lemma toggle_twice_example :
  (s1 ← ganttReducer exampleState (TOGGLE_TASK_EXPANSION "1");
   ganttReducer s1 (TOGGLE_TASK_EXPANSION "1"))
  = Ok (withTasks exampleState
          (Some <$> updateTaskRecursively exampleForest "1"
                      (expansionUpdate false))).
Proof.
  exact (proj1 (toggle_twice exampleState exampleForest "1"
                  (exampleParent "1" [exampleLeaf "2"; exampleLeaf "3"])
                  eq_refl eq_refl)).
Defined.

(** ** Root lists with and without [undefined] *)

Lemma slots_tasks_or_hole (l : list slot) :
  (exists T, l = Some <$> T) \/ None ∈ l.
Proof.
  induction l as [| s rest [[T ->] | H]].
  - left. exists []. reflexivity.
  - destruct s as [t |].
    + left. exists (t :: T). reflexivity.
    + right. apply elem_of_cons. left. reflexivity.
  - right. apply elem_of_cons. right. exact H.
Qed.

Lemma deleteRoot_cons (s : slot) (rest : list slot) (taskId : string) :
  deleteRoot (s :: rest) taskId =
  match s with
  | Some task =>
      match deleteRoot rest taskId with
      | Ok rest' => Ok match deleteTask taskId task with
                       | Some task' => Some task' :: rest'
                       | None => rest'
                       end
      | TypeError => TypeError
      end
  | None => TypeError
  end.
Proof.
  destruct s as [task |]; [| reflexivity]. unfold deleteRoot. simpl.
  destruct (filterResult _ rest); [| reflexivity].
  destruct (deleteTask taskId task); reflexivity.
Qed.

Lemma updateRoot_hole (l : list slot) (taskId : string) (u : TaskUpdates) :
  None ∈ l -> updateRoot l taskId u = TypeError.
Proof.
  induction l as [| s rest IH]; intros H.
  - apply elem_of_nil in H. destruct H.
  - rewrite updateRoot_cons. destruct s as [task |]; [| reflexivity].
    apply elem_of_cons in H as [H | H]; [discriminate |].
    rewrite (IH H). reflexivity.
Qed.

Lemma deleteRoot_hole (l : list slot) (taskId : string) :
  None ∈ l -> deleteRoot l taskId = TypeError.
Proof.
  induction l as [| s rest IH]; intros H.
  - apply elem_of_nil in H. destruct H.
  - rewrite deleteRoot_cons. destruct s as [task |]; [| reflexivity].
    apply elem_of_cons in H as [H | H]; [discriminate |].
    rewrite (IH H). reflexivity.
Qed.

(** ** Deletions, one after the other *)

Lemma deleteTaskRecursively_commute (X Y : string) (ts : list Task) :
  deleteTaskRecursively (deleteTaskRecursively ts X) Y
  = deleteTaskRecursively (deleteTaskRecursively ts Y) X.
Proof.
  revert ts.
  apply (forest_ind
           (fun t => deleteTask X t ≫= deleteTask Y
                     = deleteTask Y t ≫= deleteTask X)
           (fun ts => deleteTaskRecursively (deleteTaskRecursively ts X) Y
                      = deleteTaskRecursively
                          (deleteTaskRecursively ts Y) X)).
  - intros t IH. rewrite (deleteTask_eq X t), (deleteTask_eq Y t).
    destruct (bool_decide (id t = X)) eqn:EX,
             (bool_decide (id t = Y)) eqn:EY; simpl.
    + reflexivity.
    + rewrite deleteTask_eq.
      destruct (children t); rewrite ?id_withChildren, EX; reflexivity.
    + rewrite deleteTask_eq.
      destruct (children t); rewrite ?id_withChildren, EY; reflexivity.
    + rewrite !deleteTask_eq.
      destruct (children t) as [c |] eqn:E.
      * rewrite !id_withChildren, EX, EY, !children_withChildren,
          !withChildren_twice, (IH c eq_refl). reflexivity.
      * rewrite EX, EY, E. reflexivity.
  - reflexivity.
  - intros t r IHt IHr. rewrite (deleteTaskRecursively_cons t r X),
      (deleteTaskRecursively_cons t r Y).
    destruct (deleteTask X t) as [tx |] eqn:EX,
             (deleteTask Y t) as [ty |] eqn:EY; simpl in IHt.
    + rewrite !deleteTaskRecursively_cons, IHt, IHr. reflexivity.
    + rewrite deleteTaskRecursively_cons, IHt, IHr. reflexivity.
    + rewrite deleteTaskRecursively_cons, <- IHt, IHr. reflexivity.
    + exact IHr.
Qed.

Lemma deleteTaskRecursively_twice (X : string) (ts : list Task) :
  deleteTaskRecursively (deleteTaskRecursively ts X) X
  = deleteTaskRecursively ts X.
Proof.
  apply deleteTaskRecursively_absent, deleteTaskRecursively_id_gone.
Qed.

Lemma delete_action_hole (state : GanttState) (X : string) :
  None ∈ tasks state -> ganttReducer state (DELETE_TASK X) = TypeError.
Proof. intros H. simpl. rewrite (deleteRoot_hole _ _ H). reflexivity. Qed.

(** X4.  DELETE_TASK actions commute, and a second
    DELETE_TASK of the same id changes nothing: on every state, also
    when the reducer throws, deleting X then Y gives what deleting Y then
    X gives, and deleting X twice gives what deleting X once gives. *)
Theorem deletions_commute (state : GanttState) (X Y : string) :
  (s1 ← ganttReducer state (DELETE_TASK X);
   ganttReducer s1 (DELETE_TASK Y))
  = (s1 ← ganttReducer state (DELETE_TASK Y);
     ganttReducer s1 (DELETE_TASK X)) /\
  (s1 ← ganttReducer state (DELETE_TASK X);
   ganttReducer s1 (DELETE_TASK X))
  = ganttReducer state (DELETE_TASK X).
Proof.
  destruct (slots_tasks_or_hole (tasks state)) as [[T HT] | Hhole].
  - rewrite !(delete_task_action state T _ HT), !bind_Ok.
    rewrite !(delete_task_action _ _ _ (tasks_withTasks _ _)).
    rewrite !withTasks_twice, deleteTaskRecursively_twice.
    rewrite (deleteTaskRecursively_commute X Y). split; reflexivity.
  - rewrite !(delete_action_hole state _ Hhole). split; reflexivity.
Qed.

(** X5.  DELETE_TASK changes the task list only.  When the
    task deleted is the selected one, [selectedTaskId] still holds its id
    afterwards, an id that [findTaskById] no longer finds in the state. *)
Theorem delete_keeps_selection (state : GanttState) (T : list Task)
    (X : string) :
  tasks state = Some <$> T ->
  selectedTaskId state = Some X ->
  exists s',
    ganttReducer state (DELETE_TASK X) = Ok s' /\
    selectedTaskId s' = Some X /\
    findRoot (tasks s') X = Ok None /\
    viewMode s' = viewMode state /\
    isMaximized s' = isMaximized state /\
    zoomLevel s' = zoomLevel state /\
    draggedTask s' = draggedTask state /\
    isResizing s' = isResizing state /\
    resizeHandle s' = resizeHandle state.
Proof.
  intros HT Hsel. eexists. split; [apply delete_task_action, HT |].
  split; [exact Hsel |]. split; [| repeat split; reflexivity].
  rewrite tasks_withTasks, findRoot_tasks. f_equal.
  apply findTaskById_absent, deleteTaskRecursively_id_gone.
Qed.

Lemma delete_keeps_selection_example :
  exists s',
    ganttReducer
      (mkState (Some <$> exampleForest) (Some "2") day false 1%Q None
               false None)
      (DELETE_TASK "2") = Ok s' /\
    selectedTaskId s' = Some "2" /\
    findRoot (tasks s') "2" = Ok None.
Proof.
  destruct (delete_keeps_selection
              (mkState (Some <$> exampleForest) (Some "2") day false 1%Q
                       None false None)
              exampleForest "2" eq_refl eq_refl)
    as (s' & Hr & Hs & Hf & _).
  exists s'. split; [exact Hr |]. split; [exact Hs | exact Hf].
Defined.

(** ** ADD_TASK and ADD_TASK_AT_POSITION, then DELETE_TASK *)

Lemma findTaskById_app (l1 l2 : list Task) (taskId : string) :
  findTaskById (l1 ++ l2) taskId =
  match findTaskById l1 taskId with
  | Some found => Some found
  | None => findTaskById l2 taskId
  end.
Proof.
  induction l1 as [| t r IH]; [reflexivity |].
  rewrite <- app_comm_cons, !findTaskById_cons.
  destruct (findTask taskId t); [reflexivity | exact IH].
Qed.

Lemma deleteTaskRecursively_app (l1 l2 : list Task) (taskId : string) :
  deleteTaskRecursively (l1 ++ l2) taskId
  = deleteTaskRecursively l1 taskId ++ deleteTaskRecursively l2 taskId.
Proof. unfold deleteTaskRecursively. apply omap_app. Qed.

Lemma deleteTask_same_id (t : Task) : deleteTask (id t) t = None.
Proof.
  rewrite deleteTask_eq, bool_decide_eq_true_2 by reflexivity. reflexivity.
Qed.

(** X6.  ADD_TASK puts the new task last in the root list.  When
    no task of the forest has its id, [findTaskById] returns the new task
    for that id, and DELETE_TASK of that id gives back the state as it
    was before the addition. *)
Theorem added_task_is_found_and_deleted (state : GanttState)
    (T : list Task) (newTask : Task) :
  tasks state = Some <$> T ->
  id newTask ∉ forestIds T ->
  exists s1,
    ganttReducer state (ADD_TASK newTask) = Ok s1 /\
    tasks s1 = Some <$> (T ++ [newTask]) /\
    findRoot (tasks s1) (id newTask) = Ok (Some newTask) /\
    ganttReducer s1 (DELETE_TASK (id newTask)) = Ok state.
Proof.
  intros HT Hfresh. eexists. split; [reflexivity |].
  assert (Hl : tasks (withTasks state (tasks state ++ [Some newTask]))
               = Some <$> (T ++ [newTask])).
  { rewrite tasks_withTasks, HT, fmap_app. reflexivity. }
  split; [exact Hl |]. split.
  - rewrite Hl, findRoot_tasks, findTaskById_app.
    rewrite (findTaskById_absent _ _ Hfresh), findTaskById_cons.
    rewrite findTask_eq, bool_decide_eq_true_2 by reflexivity.
    reflexivity.
  - rewrite (delete_task_action _ _ _ Hl), withTasks_twice.
    rewrite deleteTaskRecursively_app,
      (deleteTaskRecursively_absent _ _ Hfresh).
    rewrite deleteTaskRecursively_cons, deleteTask_same_id. simpl.
    rewrite app_nil_r, <- HT, withTasks_same. reflexivity.
Qed.

Lemma added_task_is_found_and_deleted_example :
  exists s1,
    ganttReducer exampleState (ADD_TASK (exampleLeaf "9")) = Ok s1 /\
    findRoot (tasks s1) "9" = Ok (Some (exampleLeaf "9")) /\
    ganttReducer s1 (DELETE_TASK "9") = Ok exampleState.
Proof.
  assert (Hfresh : id (exampleLeaf "9") ∉ forestIds exampleForest).
  { intros H. apply list_elem_of_In in H. simpl in H.
    repeat destruct H as [H | H]; try discriminate H. exact H. }
  destruct (added_task_is_found_and_deleted exampleState exampleForest
              (exampleLeaf "9") eq_refl Hfresh)
    as (s1 & Hr & _ & Hf & Hd).
  exists s1. split; [exact Hr |]. split; [exact Hf | exact Hd].
Defined.

(** X7.  ADD_TASK_AT_POSITION with a target id that no task of
    the forest has returns the state as it is, for each of the three
    positions: the new task is dropped and nothing is thrown. *)
Theorem insertion_at_missing_target (state : GanttState) (T : list Task)
    (newTask : Task) (position : Position) (X : string) :
  tasks state = Some <$> T ->
  X ∉ forestIds T ->
  ganttReducer state (ADD_TASK_AT_POSITION newTask position X) = Ok state.
Proof.
  intros HT HX. simpl. rewrite HT, insertRoot_tasks. simpl.
  rewrite (insertTask_absent _ _ _ _ HX), <- HT, withTasks_same.
  reflexivity.
Qed.

Lemma insertion_at_missing_target_example :
  ganttReducer exampleState
    (ADD_TASK_AT_POSITION (exampleLeaf "9") subtask "7") = Ok exampleState.
Proof.
  assert (Hmiss : "7" ∉ forestIds exampleForest).
  { intros H. apply list_elem_of_In in H. simpl in H.
    repeat destruct H as [H | H]; try discriminate H. exact H. }
  exact (insertion_at_missing_target exampleState exampleForest
           (exampleLeaf "9") subtask "7" eq_refl Hmiss).
Defined.

Lemma sibling_insertion_deleted (newTask : Task) (position : Position)
    (X : string) (ts : list Task) :
  position <> subtask ->
  id newTask ∉ forestIds ts ->
  deleteTaskRecursively (addTaskAtPosition ts newTask position X)
                        (id newTask) = ts.
Proof.
  intros Hpos. unfold addTaskAtPosition. revert ts.
  apply (forest_ind
           (fun t => id newTask ∉ taskIds t ->
                     deleteTask (id newTask)
                       (insertBelow newTask position X t) = Some t)
           (fun ts => id newTask ∉ forestIds ts ->
                      deleteTaskRecursively
                        (insertTask newTask position X ts) (id newTask)
                      = ts)).
  - intros t IH H. pose proof (not_in_taskIds _ _ H) as [Hid Hc].
    rewrite insertBelow_eq.
    destruct (children t) as [c |] eqn:E.
    + rewrite deleteTask_eq, id_withChildren,
        bool_decide_eq_false_2, children_withChildren by exact Hid.
      rewrite withChildren_twice, (IH c eq_refl (Hc c eq_refl)).
      rewrite (withChildren_same t c E). reflexivity.
    + apply deleteTask_absent_ids, H.
  - reflexivity.
  - intros t r IHt IHr H. rewrite forestIds_cons in H.
    assert (Ht : id newTask ∉ taskIds t)
      by (intros Hin; apply H, elem_of_app; left; exact Hin).
    assert (Hr : id newTask ∉ forestIds r)
      by (intros Hin; apply H, elem_of_app; right; exact Hin).
    rewrite insertTask_cons. case_bool_decide as Hid.
    + destruct position; [| | congruence];
        rewrite !deleteTaskRecursively_cons, deleteTask_same_id,
          ?(deleteTask_absent_ids _ _ Ht), ?deleteTask_same_id,
          (deleteTaskRecursively_absent _ _ Hr); reflexivity.
    + rewrite deleteTaskRecursively_cons, (IHt Ht), (IHr Hr). reflexivity.
Qed.

(** X8.  An insertion above or below a target is undone by
    DELETE_TASK of the new task's id, when no task of the forest had that
    id: the state is the one before the insertion, whether the target was
    found or not. *)
Theorem sibling_insertion_is_undone_by_delete (state : GanttState)
    (T : list Task) (newTask : Task) (position : Position) (X : string) :
  tasks state = Some <$> T ->
  position <> subtask ->
  id newTask ∉ forestIds T ->
  (s1 ← ganttReducer state (ADD_TASK_AT_POSITION newTask position X);
   ganttReducer s1 (DELETE_TASK (id newTask)))
  = Ok state.
Proof.
  intros HT Hpos Hfresh. simpl. rewrite HT, insertRoot_tasks. simpl.
  rewrite deleteRoot_tasks. simpl.
  rewrite (sibling_insertion_deleted _ _ _ _ Hpos Hfresh).
  rewrite <- HT. destruct state; reflexivity.
Qed.

Lemma sibling_insertion_is_undone_by_delete_example :
  (s1 ← ganttReducer exampleState
          (ADD_TASK_AT_POSITION (exampleLeaf "9") above "3");
   ganttReducer s1 (DELETE_TASK "9"))
  = Ok exampleState.
Proof.
  assert (Hfresh : id (exampleLeaf "9") ∉ forestIds exampleForest).
  { intros H. apply list_elem_of_In in H. simpl in H.
    repeat destruct H as [H | H]; try discriminate H. exact H. }
  assert (Hpos : above <> subtask) by discriminate.
  exact (sibling_insertion_is_undone_by_delete exampleState exampleForest
           (exampleLeaf "9") above "3" eq_refl Hpos Hfresh).
Defined.

(** ** REORDER_TASKS within the root list *)

(** With a source index that [splice] places at [i], inside the list, the
    entry at [i] is taken out and put back at the destination index, as
    [splice] clamps it in the list without that entry. *)
Lemma reorderTasks_inside (l : list slot) (src dst : Z) (i : nat) (x : slot) :
  spliceStart (length l) src = i ->
  l !! i = Some x ->
  reorderTasks l src dst =
  take (spliceStart (length (delete i l)) dst) (delete i l) ++
  x :: drop (spliceStart (length (delete i l)) dst) (delete i l).
Proof.
  intros Hi Hx. pose proof (lookup_lt_Some _ _ _ Hx) as Hlt.
  unfold reorderTasks, splice. rewrite Hi.
  replace (Z.to_nat (Z.min (Z.max 1 0)
             (Z.of_nat (length l) - Z.of_nat i))) with 1 by lia.
  simpl app. rewrite Nat.add_1_r, <- delete_take_drop.
  rewrite (drop_S l x i Hx). simpl take. rewrite take_0. simpl.
  replace (Z.to_nat (Z.min 0
             (Z.of_nat (length (delete i l))
              - Z.of_nat (spliceStart (length (delete i l)) dst))))
    with 0.
  - rewrite Nat.add_0_r. reflexivity.
  - pose proof (spliceStart_le (length (delete i l)) dst). lia.
Qed.

Lemma spliceStart_nat (len i : nat) :
  i <= len -> spliceStart len (Z.of_nat i) = i.
Proof.
  intros H. unfold spliceStart.
  destruct (Z.ltb_spec (Z.of_nat i) 0); lia.
Qed.

Lemma delete_inserted {A : Type} (a b : list A) (x : A) (k : nat) :
  k = length a -> delete k (a ++ x :: b) = a ++ b.
Proof.
  intros ->. induction a as [| y a IH]; [reflexivity |].
  simpl. f_equal. exact IH.
Qed.

Lemma reorderTasks_moves (l : list slot) (i j : nat) :
  i < length l ->
  j < length l ->
  reorderTasks l (Z.of_nat i) (Z.of_nat j) !! j = l !! i /\
  delete j (reorderTasks l (Z.of_nat i) (Z.of_nat j)) = delete i l /\
  length (reorderTasks l (Z.of_nat i) (Z.of_nat j)) = length l /\
  reorderTasks l (Z.of_nat i) (Z.of_nat j) ≡ₚ l /\
  (i = j -> reorderTasks l (Z.of_nat i) (Z.of_nat j) = l).
Proof.
  intros Hi Hj.
  destruct (lookup_lt_is_Some_2 l i Hi) as [x Hx].
  assert (Hlen : length (delete i l) = length l - 1)
    by (rewrite length_delete by eauto; lia).
  rewrite (reorderTasks_inside l _ _ i x
             (spliceStart_nat _ _ (Nat.lt_le_incl _ _ Hi)) Hx).
  rewrite spliceStart_nat by lia.
  assert (Hk : length (take j (delete i l)) = j)
    by (rewrite length_take; lia).
  split; [| split; [| split; [| split]]].
  - rewrite lookup_app_r by lia. rewrite Hk, Nat.sub_diag, Hx. reflexivity.
  - rewrite delete_inserted by (symmetry; exact Hk). apply take_drop.
  - rewrite length_app. simpl. rewrite Hk, length_drop. lia.
  - rewrite <- Permutation_middle, take_drop.
    symmetry. apply delete_Permutation, Hx.
  - intros <-. rewrite delete_take_drop.
    assert (Hti : i = length (take i l)) by (rewrite length_take; lia).
    rewrite (take_app_length' _ _ _ Hti), (drop_app_length' _ _ _ Hti).
    apply (take_drop_middle _ _ _ Hx).
Qed.

(** X9.  REORDER_TASKS with both indices inside the root list
    moves one entry: the entry that was at the source index is at the
    destination index afterwards, the other entries keep their order, the
    list keeps its length and its entries, and with equal indices the
    state is unchanged. *)
Theorem reorder_moves_one_entry (state : GanttState) (i j : nat) :
  i < length (tasks state) ->
  j < length (tasks state) ->
  exists s',
    ganttReducer state (REORDER_TASKS (Z.of_nat i) (Z.of_nat j)) = Ok s' /\
    tasks s' !! j = tasks state !! i /\
    delete j (tasks s') = delete i (tasks state) /\
    length (tasks s') = length (tasks state) /\
    tasks s' ≡ₚ tasks state /\
    (i = j -> s' = state).
Proof.
  intros Hi Hj. eexists. split; [reflexivity |].
  rewrite tasks_withTasks.
  destruct (reorderTasks_moves (tasks state) i j Hi Hj)
    as (H1 & H2 & H3 & H4 & H5).
  repeat (split; [assumption |]).
  intros E. rewrite (H5 E). apply withTasks_same.
Qed.

Lemma reorder_moves_one_entry_example :
  exists s',
    ganttReducer exampleState (REORDER_TASKS 1 0) = Ok s' /\
    tasks s' !! 0 = Some (Some (exampleLeaf "4")) /\
    length (tasks s') = 2.
Proof.
  assert (H1 : 1 < length (tasks exampleState)) by (simpl; lia).
  assert (H0 : 0 < length (tasks exampleState)) by (simpl; lia).
  destruct (reorder_moves_one_entry exampleState 1 0 H1 H0)
    as (s' & Hr & Hl & _ & Hlen & _).
  exists s'. split; [exact Hr |]. split; [exact Hl | exact Hlen].
Defined.

(** ** The reducer and [undefined] entries of the root list *)

Lemma Forall_is_Some_fmap (T : list Task) :
  Forall is_Some (Some <$> T : list slot).
Proof. apply Forall_fmap, Forall_true. intros t. simpl. eauto. Qed.

Lemma Forall_is_Some_tasks (l : list slot) :
  Forall is_Some l -> exists T, l = Some <$> T.
Proof.
  intros H. destruct (slots_tasks_or_hole l) as [HT | Hhole]; [exact HT |].
  rewrite Forall_forall in H. destruct (H _ Hhole) as [t Ht].
  discriminate Ht.
Qed.

Lemma spliceStart_inside (len : nat) (start : Z) :
  (start < Z.of_nat len)%Z -> 0 < len -> spliceStart len start < len.
Proof. unfold spliceStart. intros H Hl. case_match; lia. Qed.

(** X10.  On a root list that holds tasks only, no action makes
    the reducer throw, and the root list of the new state holds tasks
    only, provided the source index of a REORDER_TASKS action is below
    the length of a non-empty root list. *)
Theorem reducer_keeps_root_tasks (state : GanttState)
    (action : GanttAction) :
  Forall is_Some (tasks state) ->
  sourceInside state action ->
  exists s',
    ganttReducer state action = Ok s' /\ Forall is_Some (tasks s').
Proof.
  intros Hall Hin. destruct (Forall_is_Some_tasks _ Hall) as [T HT].
  destruct action; simpl in Hin |- *;
    try (eexists; split; [reflexivity | exact Hall]).
  - eexists. split; [reflexivity |]. apply Forall_is_Some_fmap.
  - eexists. split; [reflexivity |]. rewrite tasks_withTasks.
    apply Forall_app. split; [exact Hall |].
    apply Forall_cons. split; [eauto | apply Forall_nil_2].
  - rewrite HT, insertRoot_tasks. eexists. split; [reflexivity |].
    apply Forall_is_Some_fmap.
  - rewrite HT, updateRoot_tasks. eexists. split; [reflexivity |].
    apply Forall_is_Some_fmap.
  - rewrite HT, deleteRoot_tasks. eexists. split; [reflexivity |].
    apply Forall_is_Some_fmap.
  - rewrite HT, findRoot_tasks. simpl. rewrite updateRoot_tasks.
    eexists. split; [reflexivity |]. apply Forall_is_Some_fmap.
  - destruct Hin as [Hsrc Hne]. eexists. split; [reflexivity |].
    rewrite tasks_withTasks. set (l := tasks state) in *.
    assert (Hlen : 0 < length l) by (destruct l; [congruence | simpl; lia]).
    pose proof (spliceStart_inside _ _ Hsrc Hlen) as Hi.
    destruct (lookup_lt_is_Some_2 l _ Hi) as [x Hx].
    rewrite (reorderTasks_inside l _ _ _ x eq_refl Hx).
    assert (Hd : Forall is_Some (delete (spliceStart (length l) sourceIndex) l))
      by (apply Forall_delete, Hall).
    apply Forall_app. split; [apply Forall_take, Hd |].
    apply Forall_cons. split; [| apply Forall_drop, Hd].
    exact (Forall_lookup_1 _ _ _ _ Hall Hx).
  - rewrite HT, updateRoot_tasks. eexists. split; [reflexivity |].
    apply Forall_is_Some_fmap.
Qed.

Lemma reducer_keeps_root_tasks_example :
  exists s',
    ganttReducer exampleState (REORDER_TASKS (-5) 7) = Ok s' /\
    Forall is_Some (tasks s').
Proof.
  apply (reducer_keeps_root_tasks exampleState (REORDER_TASKS (-5) 7)).
  - apply Forall_is_Some_fmap.
  - split; [simpl; lia | discriminate].
Defined.

Lemma insertRoot_hole (newTask : Task) (position : Position) (X : string)
    (l : list slot) :
  None ∈ l ->
  (forall t, Some t ∈ l -> id t <> X) ->
  insertRoot newTask position X l = TypeError.
Proof.
  induction l as [| s rest IH]; intros H Hid.
  - apply elem_of_nil in H. destruct H.
  - destruct s as [task |]; [| reflexivity]. simpl.
    rewrite bool_decide_eq_false_2
      by (apply Hid, elem_of_cons; left; reflexivity).
    apply elem_of_cons in H as [H | H]; [discriminate |].
    rewrite IH; [reflexivity | exact H |].
    intros t Ht. apply Hid, elem_of_cons. right. exact Ht.
Qed.

(** X11.  Once the root list holds an [undefined] entry, UPDATE_TASK,
    DELETE_TASK, TOGGLE_TASK_EXPANSION and RESIZE_TASK throw a TypeError
    whatever their payload, and so does ADD_TASK_AT_POSITION unless a
    root task has the target id. *)
Theorem undefined_entry_makes_task_actions_throw (state : GanttState) :
  None ∈ tasks state ->
  (forall X u, ganttReducer state (UPDATE_TASK X u) = TypeError) /\
  (forall X, ganttReducer state (DELETE_TASK X) = TypeError) /\
  (forall X, ganttReducer state (TOGGLE_TASK_EXPANSION X) = TypeError) /\
  (forall X s e, ganttReducer state (RESIZE_TASK X s e) = TypeError) /\
  (forall newTask position X,
     (forall t, Some t ∈ tasks state -> id t <> X) ->
     ganttReducer state (ADD_TASK_AT_POSITION newTask position X)
     = TypeError).
Proof.
  intros H. repeat split; intros; simpl.
  - rewrite (updateRoot_hole _ _ _ H). reflexivity.
  - rewrite (deleteRoot_hole _ _ H). reflexivity.
  - destruct (findRoot (tasks state) X); [| reflexivity].
    rewrite bind_Ok, (updateRoot_hole _ _ _ H). reflexivity.
  - rewrite (updateRoot_hole _ _ _ H). reflexivity.
  - rewrite (insertRoot_hole _ _ _ _ H) by assumption. reflexivity.
Qed.

Lemma undefined_entry_makes_task_actions_throw_example :
  exists s1,
    ganttReducer exampleState (REORDER_TASKS 7 0) = Ok s1 /\
    ganttReducer s1 (DELETE_TASK "2") = TypeError /\
    ganttReducer s1 (TOGGLE_TASK_EXPANSION "1") = TypeError.
Proof.
  eexists. split; [reflexivity |].
  assert (H : None ∈ tasks (withTasks exampleState
                              (reorderTasks (tasks exampleState) 7 0))).
  { apply elem_of_cons. left. reflexivity. }
  destruct (undefined_entry_makes_task_actions_throw _ H)
    as (_ & Hd & Ht & _).
  split; [apply Hd | apply Ht].
Defined.

(** ** The zoom level *)

(** X12.  SET_ZOOM_LEVEL stores the payload clamped to the range
    from 0.5 to 3, for every (finite) payload: a payload in the range is
    stored as it is, a lower one as 0.5, a higher one as 3; no other field
    of the state changes. *)
Theorem zoom_level_is_clamped (state : GanttState) (payload : Q) :
  exists s',
    ganttReducer state (SET_ZOOM_LEVEL payload) = Ok s' /\
    ((1 # 2) <= zoomLevel s')%Q /\ (zoomLevel s' <= 3)%Q /\
    (((1 # 2) <= payload)%Q -> (payload <= 3)%Q ->
     (zoomLevel s' == payload)%Q) /\
    ((payload <= (1 # 2))%Q -> (zoomLevel s' == (1 # 2))%Q) /\
    ((3 <= payload)%Q -> (zoomLevel s' == 3)%Q) /\
    tasks s' = tasks state /\
    selectedTaskId s' = selectedTaskId state /\
    viewMode s' = viewMode state /\
    isMaximized s' = isMaximized state /\
    draggedTask s' = draggedTask state /\
    isResizing s' = isResizing state /\
    resizeHandle s' = resizeHandle state.
Proof.
  eexists. split; [reflexivity |]. simpl.
  split; [apply Q.le_max_l |].
  split; [apply Q.max_lub; [discriminate | apply Q.le_min_l] |].
  split; [| split; [| split; [| repeat split; reflexivity]]].
  - intros Hlo Hhi. rewrite (Q.min_r _ _ Hhi). apply Q.max_r, Hlo.
  - intros Hlo. apply Q.max_l.
    eapply Qle_trans; [apply Q.le_min_r | exact Hlo].
  - intros Hhi. rewrite (Q.min_l _ _ Hhi). apply Q.max_r. discriminate.
Qed.

(** ** The bar of a task *)

Lemma getTaskPosition_calendar (task : Task) (a b t dayWidth : Z) :
  startDate task = calendarDate a ->
  endDate task = calendarDate b ->
  getTaskPosition task (calendarDate t) dayWidth
  = {| p_left := inject_Z (Z.max 0 (a - t) * dayWidth);
       p_width := Qmax (inject_Z dayWidth * (1 # 2))%Q
                       (inject_Z ((b - a + 1) * dayWidth) - 4)%Q |}.
Proof.
  intros Hs He. unfold getTaskPosition, calculateTaskDuration.
  rewrite Hs, He, !differenceInDays_calendar. reflexivity.
Qed.

(** X13.  The bar [getTaskPosition] gives to a task whose dates
    are calendar dates, on a timeline that starts at a calendar date, for
    a day width in whole pixels.  Its left edge is the number of days
    from the timeline start to the start of the task, times the day
    width; it is never negative, and zero for a task that starts at or
    before the timeline start.  Its width is at least half a day width;
    for a task that does not end before it starts and a day width of at
    least 8 pixels, it is the number of days of the task, both ends
    counted, times the day width, less 4. *)
Theorem bar_position_bounds (task : Task) (a b t dayWidth : Z) :
  startDate task = calendarDate a ->
  endDate task = calendarDate b ->
  dayInRange a -> dayInRange b -> dayInRange t ->
  wholePixels dayWidth ->
  let p := getTaskPosition task (calendarDate t) dayWidth in
  p_left p = inject_Z (Z.max 0 (a - t) * dayWidth) /\
  (0 <= p_left p)%Q /\
  ((a <= t)%Z -> p_left p = 0%Q) /\
  (inject_Z dayWidth * (1 # 2) <= p_width p)%Q /\
  ((a <= b)%Z -> (8 <= dayWidth)%Z ->
   (p_width p == inject_Z ((b - a + 1) * dayWidth - 4))%Q).
Proof.
  intros Hs He _ _ _ Hw p. unfold p, wholePixels in *.
  rewrite (getTaskPosition_calendar task a b t dayWidth Hs He). simpl.
  split; [reflexivity |]. split; [| split; [| split]].
  - change 0%Q with (inject_Z 0). rewrite <- Zle_Qle.
    apply Z.mul_nonneg_nonneg; lia.
  - intros Hat. rewrite Z.max_l by lia. reflexivity.
  - apply Q.le_max_l.
  - intros Hab H8. rewrite Q.max_r.
    + unfold Qeq, Qminus, Qplus, Qopp, inject_Z. simpl. lia.
    + unfold Qle, Qminus, Qplus, Qopp, Qmult, inject_Z. simpl. nia.
Qed.

Lemma bar_position_bounds_example :
  p_left (getTaskPosition (exampleLeaf "1") (calendarDate 8) 48)
  = inject_Z 96 /\
  (p_width (getTaskPosition (exampleLeaf "1") (calendarDate 8) 48)
   == inject_Z 140)%Q.
Proof.
  assert (H10 : dayInRange 10) by (unfold dayInRange; lia).
  assert (H12 : dayInRange 12) by (unfold dayInRange; lia).
  assert (H8 : dayInRange 8) by (unfold dayInRange; lia).
  assert (Hw : wholePixels 48) by (unfold wholePixels; lia).
  destruct (bar_position_bounds (exampleLeaf "1") 10 12 8 48 eq_refl eq_refl
              H10 H12 H8 Hw) as (Hleft & _ & _ & _ & Hwidth).
  split; [exact Hleft | apply Hwidth; lia].
Defined.

(** ** The drag of the bar *)

(** X14.  A drag of the bar sends no action.
    [handleTimelineMouseDown] puts on the document the move callback of
    the render that made it, and in that render, outside a gesture,
    [isDraggingTimeline] is [false]: the callback returns at its first
    line for every pointer move, whatever the hook holds by then.  A drag
    on a row outside a gesture, whatever the pointer moves, sends nothing
    and leaves the row as it was, so the state stays as it is; and no
    sequence of gestures on a mounted row sends an UPDATE_TASK. *)
Theorem timeline_drag_sends_nothing :
  (forall made task onBar deltas,
     run (idleRow made task) (events (timelineGesture onBar deltas))
     = (idleRow made task, [])) /\
  (forall state made task onBar deltas,
     dispatchAll state
       (run (idleRow made task) (events (timelineGesture onBar deltas))).2
     = Ok state) /\
  (forall task gestures taskId updates,
     UPDATE_TASK taskId updates
     ∉ (run (mount task) (gestures ≫= events)).2).
Proof.
  split; [exact timeline_gesture_on_idle_row |]. split.
  - intros state made task onBar deltas.
    rewrite timeline_gesture_on_idle_row. reflexivity.
  - intros task gestures taskId updates Hin.
    destruct (gestures_on_idle_row gestures 0 task) as (_ & _ & _ & Hsent).
    rewrite Forall_forall in Hsent.
    destruct (Hsent _ Hin) as [(X & h & H) | H]; discriminate H.
Qed.

(** ** The bar of a task whose dates move *)

(** X15.  Moving both dates of a task by a number of days, as an
    UPDATE_TASK with the two dates moved stores them, keeps the width of
    its bar; when the task starts at or after the timeline start before
    and after the move, the left edge moves by that number of day
    widths.  The dates are calendar dates and the day width is in whole
    pixels. *)
Theorem shifted_dates_shift_the_bar (task : Task)
    (a b t dayWidth daysDelta : Z) :
  startDate task = calendarDate a ->
  endDate task = calendarDate b ->
  dayInRange a -> dayInRange b -> dayInRange t ->
  dayInRange (a + daysDelta) -> dayInRange (b + daysDelta) ->
  wholePixels dayWidth ->
  (t <= a)%Z -> (t <= a + daysDelta)%Z ->
  let moved :=
    mergeTask task (datesUpdate (addDays (startDate task) daysDelta)
                                (addDays (endDate task) daysDelta)) in
  p_width (getTaskPosition moved (calendarDate t) dayWidth)
  = p_width (getTaskPosition task (calendarDate t) dayWidth) /\
  p_left (getTaskPosition task (calendarDate t) dayWidth)
  = inject_Z ((a - t) * dayWidth) /\
  p_left (getTaskPosition moved (calendarDate t) dayWidth)
  = inject_Z ((a - t) * dayWidth + daysDelta * dayWidth).
Proof.
  intros Hs He _ _ _ _ _ _ H1 H2 moved.
  assert (Hs' : startDate moved = calendarDate (a + daysDelta))
    by (unfold moved; simpl; rewrite Hs; apply addDays_calendar).
  assert (He' : endDate moved = calendarDate (b + daysDelta))
    by (unfold moved; simpl; rewrite He; apply addDays_calendar).
  rewrite (getTaskPosition_calendar task a b t dayWidth Hs He).
  rewrite (getTaskPosition_calendar moved _ _ t dayWidth Hs' He').
  simpl. split; [| split].
  - do 3 f_equal. lia.
  - rewrite Z.max_r by lia. reflexivity.
  - rewrite Z.max_r by lia. f_equal. lia.
Qed.

Lemma shifted_dates_shift_the_bar_example :
  p_left (getTaskPosition (exampleLeaf "1") (calendarDate 8) 48)
  = inject_Z 96 /\
  p_left (getTaskPosition
            (mergeTask (exampleLeaf "1")
               (datesUpdate (addDays (calendarDate 10) 2)
                            (addDays (calendarDate 12) 2)))
            (calendarDate 8) 48)
  = inject_Z 192.
Proof.
  assert (H10 : dayInRange 10) by (unfold dayInRange; lia).
  assert (H12 : dayInRange 12) by (unfold dayInRange; lia).
  assert (H8 : dayInRange 8) by (unfold dayInRange; lia).
  assert (H10' : dayInRange (10 + 2)) by (unfold dayInRange; lia).
  assert (H12' : dayInRange (12 + 2)) by (unfold dayInRange; lia).
  assert (Hw : wholePixels 48) by (unfold wholePixels; lia).
  assert (H1 : (8 <= 10)%Z) by lia.
  assert (H2 : (8 <= 10 + 2)%Z) by lia.
  exact (proj2 (shifted_dates_shift_the_bar (exampleLeaf "1") 10 12 8 48 2
                  eq_refl eq_refl H10 H12 H8 H10' H12' Hw H1 H2)).
Defined.

(** ** The drop of a dragged row *)

Lemma findIndex_elem {A : Type} (P : A -> Prop) `{!forall x, Decision (P x)}
    (l : list A) (y : A) :
  y ∈ l -> P y ->
  exists i x,
    findIndex P l = Z.of_nat i /\ l !! i = Some x /\ P x /\
    forall j z, l !! j = Some z -> j < i -> ~ P z.
Proof.
  intros Hin HP. unfold findIndex.
  destruct (list_find P l) as [[i x] |] eqn:E.
  - apply list_find_Some in E as (Hl & Hx & Hfirst). eauto 6.
  - apply list_find_None in E. rewrite Forall_forall in E.
    destruct (E y Hin HP).
Qed.

Lemma findIndex_none {A : Type} (P : A -> Prop)
    `{!forall x, Decision (P x)} (l : list A) :
  (forall y, y ∈ l -> ~ P y) -> findIndex P l = (-1)%Z.
Proof.
  intros Hall. unfold findIndex.
  destruct (list_find P l) as [[i x] |] eqn:E; [| reflexivity].
  apply list_find_Some in E as (Hl & Hx & _).
  destruct (Hall x (list_elem_of_lookup_2 _ _ _ Hl) Hx).
Qed.

Lemma findIndex_bounds {A : Type} (P : A -> Prop)
    `{!forall x, Decision (P x)} (l : list A) :
  (-1 <= findIndex P l < Z.of_nat (length l))%Z.
Proof.
  unfold findIndex. destruct (list_find P l) as [[i x] |] eqn:E; [| lia].
  apply list_find_Some in E as (Hl & _). apply lookup_lt_Some in Hl. lia.
Qed.

Lemma findIndex_middle {A : Type} (P : A -> Prop)
    `{!forall x, Decision (P x)} (l1 : list A) (x : A) (l2 : list A) :
  P x -> (forall y, y ∈ l1 -> ~ P y) ->
  findIndex P (l1 ++ x :: l2) = Z.of_nat (length l1).
Proof.
  intros Hx Hl1. unfold findIndex.
  assert (E : list_find P (l1 ++ x :: l2) = Some (length l1, x)).
  { apply list_find_Some. split; [apply list_lookup_middle; reflexivity |].
    split; [exact Hx |]. intros j y Hj Hlt.
    rewrite lookup_app_l in Hj by exact Hlt.
    apply Hl1, (list_elem_of_lookup_2 _ _ _ Hj). }
  rewrite E. reflexivity.
Qed.

Lemma filteredTasks_tasks (toLowerCase : string -> string)
    (searchTerm filterStatus filterPriority : string) (T : list Task) :
  filteredTasks toLowerCase searchTerm filterStatus filterPriority
    (Some <$> T)
  = Ok (filter (fun task => matchesFilters toLowerCase searchTerm
                              filterStatus filterPriority task = true) T).
Proof.
  induction T as [| t r IH]; [reflexivity |].
  rewrite fmap_cons. simpl. rewrite IH. simpl.
  rewrite filter_cons.
  destruct (matchesFilters toLowerCase searchTerm filterStatus
              filterPriority t) eqn:E.
  - rewrite decide_True by reflexivity. reflexivity.
  - rewrite decide_False by discriminate. reflexivity.
Qed.

Lemma reorder_action_moves (state : GanttState) (i j : nat) (x : slot) :
  tasks state !! i = Some x ->
  j < length (tasks state) ->
  exists s',
    ganttReducer state (REORDER_TASKS (Z.of_nat i) (Z.of_nat j)) = Ok s' /\
    tasks s' !! j = Some x /\
    delete j (tasks s') = delete i (tasks state) /\
    length (tasks s') = length (tasks state).
Proof.
  intros Hx Hj. pose proof (lookup_lt_Some _ _ _ Hx) as Hi.
  destruct (reorderTasks_moves (tasks state) i j Hi Hj)
    as (H1 & H2 & H3 & _).
  eexists. split; [reflexivity |]. rewrite tasks_withTasks.
  rewrite H1, Hx. auto.
Qed.

Lemma filter_all {A : Type} (P : A -> Prop) `{!forall x, Decision (P x)}
    (l : list A) :
  Forall P l -> filter P l = l.
Proof.
  induction 1 as [| x l Hx _ IH]; [reflexivity |].
  rewrite filter_cons, decide_True by exact Hx. f_equal. exact IH.
Qed.

(** X17.  When the filters hide no root task, dropping the row of a
    root task on the row of another root task dispatches REORDER_TASKS
    with their two indices: afterwards the dragged task is at the index
    the other one had, the other roots keep their order and the root
    list holds tasks only. *)
Theorem drag_end_moves_the_dragged_task (toLowerCase : string -> string)
    (state : GanttState) (T F : list Task)
    (searchTerm filterStatus filterPriority active over : string) :
  tasks state = Some <$> T ->
  filteredTasks toLowerCase searchTerm filterStatus filterPriority
    (tasks state) = Ok F ->
  Forall (fun task => matchesFilters toLowerCase searchTerm filterStatus
                        filterPriority task = true) T ->
  active ∈ id <$> T ->
  over ∈ id <$> T ->
  active <> over ->
  exists i j dragged target action s',
    handleDragEnd F active (Some over) = Some action /\
    T !! i = Some dragged /\ id dragged = active /\
    T !! j = Some target /\ id target = over /\
    ganttReducer state action = Ok s' /\
    tasks s' !! j = Some (Some dragged) /\
    delete j (tasks s') = Some <$> delete i T /\
    length (tasks s') = length T.
Proof.
  intros HT HF Hall Ha Ho Hne.
  rewrite HT, filteredTasks_tasks, (filter_all _ _ Hall) in HF.
  injection HF as <-.
  apply list_elem_of_fmap in Ha as (ta & Hta & Hain).
  apply list_elem_of_fmap in Ho as (to & Hto & Hoin).
  destruct (findIndex_elem (fun task => id task = active) T ta Hain
              (eq_sym Hta)) as (i & dragged & Hi & Hli & Hdi & _).
  destruct (findIndex_elem (fun task => id task = over) T to Hoin
              (eq_sym Hto)) as (j & target & Hj & Hlj & Hdj & _).
  assert (Hsi : tasks state !! i = Some (Some dragged))
    by (rewrite HT, list_lookup_fmap, Hli; reflexivity).
  assert (Hsj : j < length (tasks state)).
  { rewrite HT, length_fmap. apply (lookup_lt_Some _ _ _ Hlj). }
  destruct (reorder_action_moves state i j _ Hsi Hsj)
    as (s' & Hr & H1 & H2 & H3).
  exists i, j, dragged, target,
    (REORDER_TASKS (Z.of_nat i) (Z.of_nat j)), s'.
  split.
  { unfold handleDragEnd.
    rewrite bool_decide_eq_true_2 by exact Hne. rewrite Hi, Hj.
    reflexivity. }
  repeat (split; [assumption |]).
  split.
  - rewrite H2, HT. symmetry. apply list_fmap_delete.
  - rewrite H3, HT. apply length_fmap.
Qed.

Lemma drag_end_moves_the_dragged_task_example :
  exists action s',
    handleDragEnd exampleForest "4" (Some "1") = Some action /\
    ganttReducer exampleState action = Ok s' /\
    tasks s' !! 0 = Some (Some (exampleLeaf "4")).
Proof.
  assert (Hall : Forall (fun task => matchesFilters (fun s => s) ""
                           "all" "all" task = true) exampleForest)
    by (repeat constructor).
  assert (Ha : "4" ∈ id <$> exampleForest)
    by (apply elem_of_cons; right; apply elem_of_cons; left; reflexivity).
  assert (Ho : "1" ∈ id <$> exampleForest)
    by (apply elem_of_cons; left; reflexivity).
  assert (Hne : "4" <> "1") by discriminate.
  destruct (drag_end_moves_the_dragged_task (fun s => s) exampleState
              exampleForest exampleForest "" "all" "all" "4" "1"
              eq_refl eq_refl Hall Ha Ho Hne)
    as (i & j & dragged & target & action & s' & Hact & Hi & Hdi & Hj & Hdj
        & Hr & Hl & _).
  exists action, s'. split; [exact Hact |]. split; [exact Hr |].
  assert (Ej : j = 0).
  { destruct j as [| [| j]]; [reflexivity | |]; simpl in Hj.
    - injection Hj as <-. discriminate Hdj.
    - discriminate Hj. }
  assert (Ei : i = 1).
  { destruct i as [| [| i]]; [| reflexivity |]; simpl in Hi.
    - injection Hi as <-. discriminate Hdi.
    - discriminate Hi. }
  subst i j. simpl in Hi. injection Hi as <-. exact Hl.
Defined.

Lemma reorderTasks_Permutation (l : list slot) (src dst : Z) :
  spliceStart (length l) src < length l ->
  reorderTasks l src dst ≡ₚ l.
Proof.
  intros Hi. destruct (lookup_lt_is_Some_2 l _ Hi) as [x Hx].
  rewrite (reorderTasks_inside l _ _ _ x eq_refl Hx).
  rewrite <- Permutation_middle, take_drop.
  symmetry. apply delete_Permutation, Hx.
Qed.

Lemma filteredTasks_hole (toLowerCase : string -> string)
    (searchTerm filterStatus filterPriority : string) (l : list slot) :
  None ∈ l ->
  filteredTasks toLowerCase searchTerm filterStatus filterPriority l
  = TypeError.
Proof.
  induction l as [| s rest IH]; intros Hhole.
  - apply elem_of_nil in Hhole. destruct Hhole.
  - destruct s as [t |]; [| reflexivity].
    apply elem_of_cons in Hhole as [Hhole | Hhole]; [discriminate |].
    simpl. rewrite (IH Hhole). reflexivity.
Qed.

Lemma filteredTasks_Ok (toLowerCase : string -> string)
    (searchTerm filterStatus filterPriority : string) (l : list slot)
    (F : list Task) :
  filteredTasks toLowerCase searchTerm filterStatus filterPriority l = Ok F ->
  exists T,
    l = Some <$> T /\
    F = filter (fun task => matchesFilters toLowerCase searchTerm
                              filterStatus filterPriority task = true) T.
Proof.
  intros HF. destruct (slots_tasks_or_hole l) as [[T ->] | Hhole].
  - rewrite filteredTasks_tasks in HF. injection HF as <-. eauto.
  - rewrite (filteredTasks_hole _ _ _ _ _ Hhole) in HF. discriminate HF.
Qed.

(** X18.  Whatever row is dragged and whatever row it is dropped
    on, the action [handleDragEnd] dispatches from the filtered list of a
    non-empty root list makes no [undefined] entry: the reducer returns a
    state whose root list is a rearrangement of the one before. *)
Theorem drag_end_keeps_the_root_tasks (toLowerCase : string -> string)
    (state : GanttState) (F : list Task)
    (searchTerm filterStatus filterPriority active : string)
    (over : option string) (action : GanttAction) :
  tasks state <> [] ->
  filteredTasks toLowerCase searchTerm filterStatus filterPriority
    (tasks state) = Ok F ->
  handleDragEnd F active over = Some action ->
  exists s',
    ganttReducer state action = Ok s' /\
    tasks s' ≡ₚ tasks state /\
    Forall is_Some (tasks s').
Proof.
  intros Hne HF Hact. unfold handleDragEnd in Hact.
  destruct over as [over |]; [| discriminate].
  case_bool_decide; [| discriminate]. injection Hact as <-.
  destruct (filteredTasks_Ok _ _ _ _ _ _ HF) as (T & HT & ->).
  pose proof (length_filter
                (fun task => matchesFilters toLowerCase searchTerm
                               filterStatus filterPriority task = true) T)
    as Hlen.
  set (F := filter _ T) in *.
  pose proof (findIndex_bounds (fun task => id task = active) F) as Hb.
  assert (Hpos : 0 < length (tasks state))
    by (destruct (tasks state); [congruence | simpl; lia]).
  assert (Hi : spliceStart (length (tasks state))
                 (findIndex (fun task => id task = active) F)
               < length (tasks state)).
  { apply spliceStart_inside; [| exact Hpos].
    rewrite HT, length_fmap. lia. }
  eexists. split; [reflexivity |]. rewrite tasks_withTasks.
  pose proof (reorderTasks_Permutation _ _
                (findIndex (fun task => id task = over) F) Hi) as Hp.
  split; [exact Hp |]. rewrite Hp, HT. apply Forall_is_Some_fmap.
Qed.

Lemma drag_end_keeps_the_root_tasks_example :
  exists s',
    ganttReducer exampleState (REORDER_TASKS (-1) 0) = Ok s' /\
    tasks s' ≡ₚ tasks exampleState /\
    Forall is_Some (tasks s').
Proof.
  assert (Hne : tasks exampleState <> []) by discriminate.
  exact (drag_end_keeps_the_root_tasks (fun s => s) exampleState
           exampleForest "" "all" "all" "2" (Some "1")
           (REORDER_TASKS (-1) 0) Hne eq_refl eq_refl).
Defined.

(** X19.  When the id of the dragged row is not an id of the
    filtered list (the row of a subtask, which is not in the list), the
    source index sent is -1, and the reducer moves the last root task:
    it is taken out and put back where the destination index, the index
    of the target row in the filtered list, points among the other
    roots, which keep their order.  With the target at index [j] of the
    filtered list, the last root comes before the [j] first of the other
    roots, or after all of them when there are fewer than [j]. *)
Theorem drag_end_of_unlisted_row_moves_last_root (state : GanttState)
    (T0 : list Task) (lastRoot : Task) (F : list Task)
    (active over : string) :
  tasks state = Some <$> (T0 ++ [lastRoot]) ->
  active ∉ id <$> F ->
  active <> over ->
  handleDragEnd F active (Some over)
  = Some (REORDER_TASKS (-1) (findIndex (fun task => id task = over) F)) /\
  ganttReducer state
    (REORDER_TASKS (-1) (findIndex (fun task => id task = over) F))
  = Ok (withTasks state
          (Some <$>
             (take (spliceStart (length T0)
                      (findIndex (fun task => id task = over) F)) T0
              ++ lastRoot
              :: drop (spliceStart (length T0)
                         (findIndex (fun task => id task = over) F)) T0))) /\
  (forall F1 target F2,
     F = F1 ++ target :: F2 -> id target = over -> over ∉ id <$> F1 ->
     findIndex (fun task => id task = over) F = Z.of_nat (length F1) /\
     spliceStart (length T0) (findIndex (fun task => id task = over) F)
     = length F1 `min` length T0).
Proof.
  intros HT Ha Hne. split; [| split].
  - unfold handleDragEnd. rewrite bool_decide_eq_true_2 by exact Hne.
    rewrite (findIndex_none (fun task => id task = active) F);
      [reflexivity |].
    intros y Hy Hid. apply Ha, list_elem_of_fmap. eauto.
  - change (ganttReducer state (REORDER_TASKS ?i ?j))
      with (Ok (withTasks state (reorderTasks (tasks state) i j))).
    do 2 f_equal. rewrite HT.
    assert (Hlen : length (Some <$> T0 ++ [lastRoot] : list slot)
                   = S (length T0))
      by (rewrite length_fmap, length_app; simpl; lia).
    assert (Hs : spliceStart (length (Some <$> T0 ++ [lastRoot] : list slot))
                   (-1) = length T0)
      by (rewrite Hlen; unfold spliceStart; simpl; lia).
    assert (Hx : (Some <$> T0 ++ [lastRoot] : list slot) !! length T0
                 = Some (Some lastRoot)).
    { rewrite list_lookup_fmap, lookup_app_r, Nat.sub_diag by lia.
      reflexivity. }
    rewrite (reorderTasks_inside _ _ _ _ _ Hs Hx).
    assert (Hdel : delete (length T0) (Some <$> T0 ++ [lastRoot] : list slot)
                   = Some <$> T0).
    { rewrite fmap_app. simpl.
      rewrite delete_inserted by (rewrite length_fmap; reflexivity).
      apply app_nil_r. }
    rewrite Hdel, length_fmap, fmap_app, fmap_cons, fmap_take, fmap_drop.
    reflexivity.
  - intros F1 target F2 -> Hid Hnot.
    rewrite (findIndex_middle (fun task => id task = over) F1 target F2 Hid).
    + split; [reflexivity |]. unfold spliceStart.
      destruct (Z.ltb_spec (Z.of_nat (length F1)) 0); lia.
    + intros y Hy Hy'. apply Hnot, list_elem_of_fmap. eauto.
Qed.

Lemma drag_end_of_unlisted_row_moves_last_root_example :
  handleDragEnd exampleForest "2" (Some "1") = Some (REORDER_TASKS (-1) 0) /\
  ganttReducer exampleState (REORDER_TASKS (-1) 0)
  = Ok (withTasks exampleState
          (Some <$> [exampleLeaf "4";
                     exampleParent "1" [exampleLeaf "2"; exampleLeaf "3"]])).
Proof.
  assert (Ha : "2" ∉ id <$> exampleForest).
  { intros H. apply list_elem_of_In in H. simpl in H.
    repeat destruct H as [H | H]; try discriminate H. exact H. }
  assert (Hne : "2" <> "1") by discriminate.
  destruct (drag_end_of_unlisted_row_moves_last_root exampleState
              [exampleParent "1" [exampleLeaf "2"; exampleLeaf "3"]]
              (exampleLeaf "4") exampleForest "2" "1" eq_refl Ha Hne)
    as (Hsent & Hmoved & _).
  split; [exact Hsent | exact Hmoved].
Defined.

(** X20.  The indices [handleDragEnd] sends are positions in the
    filtered list, and the reducer applies them to the whole root list.
    With distinct root ids, when the filters hide a root task that comes
    before the dragged one, the task the reducer moves to the destination
    index is not the dragged task but a root that comes before it. *)
Theorem drag_end_under_a_filter_moves_another_task
    (toLowerCase : string -> string) (state : GanttState)
    (l1 : list Task) (dragged : Task) (l2 : list Task) (hidden : Task)
    (F : list Task) (searchTerm filterStatus filterPriority over : string) :
  tasks state = Some <$> (l1 ++ dragged :: l2) ->
  NoDup (id <$> (l1 ++ dragged :: l2)) ->
  filteredTasks toLowerCase searchTerm filterStatus filterPriority
    (tasks state) = Ok F ->
  dragged ∈ F ->
  over ∈ id <$> F ->
  id dragged <> over ->
  hidden ∈ l1 ->
  matchesFilters toLowerCase searchTerm filterStatus filterPriority hidden
  = false ->
  exists i j moved s',
    handleDragEnd F (id dragged) (Some over)
    = Some (REORDER_TASKS (Z.of_nat i) (Z.of_nat j)) /\
    ganttReducer state (REORDER_TASKS (Z.of_nat i) (Z.of_nat j)) = Ok s' /\
    tasks s' !! j = Some (Some moved) /\
    moved ∈ l1 /\
    id moved <> id dragged.
Proof.
  intros HT Hnd HF Hdr Ho Hne Hh Hm.
  set (P := fun task => matchesFilters toLowerCase searchTerm filterStatus
                          filterPriority task = true).
  rewrite HT, filteredTasks_tasks in HF. injection HF as <-.
  fold P in Hdr, Ho |- *.
  apply list_elem_of_filter in Hdr as [HPd _].
  rewrite filter_app, filter_cons, decide_True in Ho |- * by exact HPd.
  (* the roots before the dragged one have other ids *)
  assert (Hl1 : forall y, y ∈ l1 -> id y <> id dragged).
  { intros y Hy E. rewrite fmap_app, fmap_cons in Hnd.
    apply NoDup_app in Hnd as (_ & Hdisj & _).
    apply (Hdisj (id y)); [apply list_elem_of_fmap; eauto |].
    rewrite E. apply elem_of_cons. left. reflexivity. }
  set (i := length (filter P l1)).
  assert (Hi : i < length l1).
  { apply (length_filter_lt P l1 hidden Hh). unfold P. rewrite Hm.
    discriminate. }
  destruct (lookup_lt_is_Some_2 l1 i Hi) as [moved Hmoved].
  apply list_elem_of_fmap in Ho as (to & Hto & Hoin).
  destruct (findIndex_elem (fun task => id task = over) _ to Hoin
              (eq_sym Hto)) as (j & target & Hj & Hlj & _).
  assert (Hjlen : j < length (tasks state)).
  { rewrite HT, length_fmap. apply lookup_lt_Some in Hlj.
    rewrite length_app in *. simpl in *.
    pose proof (length_filter P l1). pose proof (length_filter P l2). lia. }
  assert (Hsi : tasks state !! i = Some (Some moved)).
  { rewrite HT, list_lookup_fmap, lookup_app_l, Hmoved by exact Hi.
    reflexivity. }
  destruct (reorder_action_moves state i j _ Hsi Hjlen)
    as (s' & Hr & H1 & _).
  exists i, j, moved, s'. split; [| split; [exact Hr | split; [exact H1 |]]].
  - unfold handleDragEnd. rewrite bool_decide_eq_true_2 by exact Hne.
    rewrite Hj.
    rewrite (findIndex_middle (fun task => id task = id dragged));
      [reflexivity | reflexivity |].
    intros y Hy. apply list_elem_of_filter in Hy as [_ Hy].
    apply Hl1, Hy.
  - pose proof (list_elem_of_lookup_2 _ _ _ Hmoved) as Hin.
    split; [exact Hin | apply Hl1, Hin].
Qed.

Lemma drag_end_under_a_filter_moves_another_task_example :
  exists i j moved s',
    handleDragEnd [exampleDone "4"; exampleDone "5"] "4" (Some "5")
    = Some (REORDER_TASKS (Z.of_nat i) (Z.of_nat j)) /\
    ganttReducer
      (mkState (Some <$> [exampleLeaf "1"; exampleDone "4"; exampleDone "5"])
               None day false 1%Q None false None)
      (REORDER_TASKS (Z.of_nat i) (Z.of_nat j)) = Ok s' /\
    tasks s' !! j = Some (Some moved) /\
    moved = exampleLeaf "1".
Proof.
  assert (Hnd : NoDup (id <$> ([exampleLeaf "1"]
                               ++ exampleDone "4" :: [exampleDone "5"]))).
  { refine (bool_decide_unpack _ _). vm_compute. exact I. }
  assert (Hdr : exampleDone "4" ∈ [exampleDone "4"; exampleDone "5"])
    by (apply elem_of_cons; left; reflexivity).
  assert (Ho : "5" ∈ id <$> [exampleDone "4"; exampleDone "5"])
    by (apply elem_of_cons; right; apply elem_of_cons; left; reflexivity).
  assert (Hne : id (exampleDone "4") <> "5") by discriminate.
  assert (Hh : exampleLeaf "1" ∈ [exampleLeaf "1"])
    by (apply elem_of_cons; left; reflexivity).
  destruct (drag_end_under_a_filter_moves_another_task (fun s => s)
              (mkState (Some <$> [exampleLeaf "1"; exampleDone "4";
                                  exampleDone "5"])
                       None day false 1%Q None false None)
              [exampleLeaf "1"] (exampleDone "4") [exampleDone "5"]
              (exampleLeaf "1") [exampleDone "4"; exampleDone "5"]
              "" "completed" "all" "5"
              eq_refl Hnd eq_refl Hdr Ho Hne Hh eq_refl)
    as (i & j & moved & s' & Hact & Hr & Hl & Hin & Hid).
  apply list_elem_of_singleton in Hin.
  exists i, j, moved, s'.
  split; [exact Hact |]. split; [exact Hr |]. split; [exact Hl | exact Hin].
Defined.

(** ** Tasks made by the chart component *)

Lemma add_action_tasks (state : GanttState) (T : list Task) (newTask : Task) :
  tasks state = Some <$> T ->
  ganttReducer state (ADD_TASK newTask)
  = Ok (withTasks state (Some <$> (T ++ [newTask]))).
Proof. intros HT. simpl. rewrite HT, fmap_app. reflexivity. Qed.

Lemma forestIds_app (l1 l2 : list Task) :
  forestIds (l1 ++ l2) = forestIds l1 ++ forestIds l2.
Proof. unfold forestIds. rewrite map_app, concat_app. reflexivity. Qed.

Lemma findTaskById_added (T : list Task) (newTask : Task) :
  id newTask ∉ forestIds T ->
  findTaskById (T ++ [newTask]) (id newTask) = Some newTask.
Proof.
  intros Hfresh. rewrite findTaskById_app.
  rewrite (findTaskById_absent _ _ Hfresh), findTaskById_cons.
  rewrite findTask_eq, bool_decide_eq_true_2 by reflexivity. reflexivity.
Qed.

(** X21.  [handleDuplicateTask] sends ADD_TASK with a copy of
    the task that has a new id and the children of the original.  On a
    forest with distinct ids, for a task of the forest and a new id that
    no task has, the ids are distinct after the reducer exactly when the
    task duplicated has no child. *)
Theorem duplicate_keeps_ids_distinct_only_without_children
    (state : GanttState) (T : list Task) (task : Task) (clock : Clock) :
  tasks state = Some <$> T ->
  NoDup (forestIds T) ->
  (forall y, y ∈ taskIds task -> y ∈ forestIds T) ->
  freshId clock ∉ forestIds T ->
  exists copy T',
    handleDuplicateTask (Some task) clock state = Some (ADD_TASK copy) /\
    ganttReducer state (ADD_TASK copy)
    = Ok (withTasks state (Some <$> T')) /\
    T' = T ++ [copy] /\
    id copy = freshId clock /\
    children copy = children task /\
    findTaskById T' (freshId clock) = Some copy /\
    (NoDup (forestIds T') <->
     children task = None \/ children task = Some []).
Proof.
  intros HT Hnd Hsub Hfresh. do 2 eexists.
  split; [reflexivity |]. split; [apply add_action_tasks, HT |].
  split; [reflexivity |]. split; [reflexivity |]. split; [reflexivity |].
  split; [apply (findTaskById_added T); exact Hfresh |].
  rewrite forestIds_app, forestIds_single, taskIds_eq. simpl.
  rewrite taskIds_eq in Hsub.
  destruct (children task) as [[| c cs] |] eqn:E.
  - split; [auto |]. intros _. apply NoDup_app. split; [exact Hnd |].
    split; [| apply NoDup_singleton].
    intros y Hy Hin. apply list_elem_of_singleton in Hin. subst y.
    exact (Hfresh Hy).
  - split; [| intros [H | H]; discriminate H]. intros Hn. exfalso.
    apply NoDup_app in Hn as (_ & Hdisj & _).
    apply (Hdisj (id c)).
    + apply Hsub. apply elem_of_cons. right.
      rewrite forestIds_cons, taskIds_eq.
      apply elem_of_app. left. apply elem_of_cons. left. reflexivity.
    + apply elem_of_cons. right. rewrite forestIds_cons, taskIds_eq.
      apply elem_of_app. left. apply elem_of_cons. left. reflexivity.
  - split; [auto |]. intros _. apply NoDup_app. split; [exact Hnd |].
    split; [| apply NoDup_singleton].
    intros y Hy Hin. apply list_elem_of_singleton in Hin. subst y.
    exact (Hfresh Hy).
Qed.

Lemma duplicate_keeps_ids_distinct_only_without_children_example :
  exists copy T',
    handleDuplicateTask
      (Some (exampleParent "1" [exampleLeaf "2"; exampleLeaf "3"]))
      exampleClock exampleState
    = Some (ADD_TASK copy) /\
    ganttReducer exampleState (ADD_TASK copy)
    = Ok (withTasks exampleState (Some <$> T')) /\
    id copy = "task-1700000000000" /\
    ~ NoDup (forestIds T').
Proof.
  assert (Hnd : NoDup (forestIds exampleForest)).
  { refine (bool_decide_unpack _ _). vm_compute. exact I. }
  assert (Hsub : forall y,
            y ∈ taskIds (exampleParent "1" [exampleLeaf "2"; exampleLeaf "3"])
            -> y ∈ forestIds exampleForest).
  { intros y Hy. change (forestIds exampleForest)
      with (taskIds (exampleParent "1" [exampleLeaf "2"; exampleLeaf "3"])
            ++ ["4"]).
    apply elem_of_app. left. exact Hy. }
  assert (Hfresh : freshId exampleClock
                   ∉ forestIds exampleForest).
  { intros H. apply list_elem_of_In in H. vm_compute in H.
    repeat destruct H as [H | H]; try discriminate H. exact H. }
  destruct (duplicate_keeps_ids_distinct_only_without_children
              exampleState exampleForest
              (exampleParent "1" [exampleLeaf "2"; exampleLeaf "3"])
              exampleClock eq_refl Hnd Hsub Hfresh)
    as (copy & T' & Hact & Hr & _ & Hid & _ & _ & Hiff).
  exists copy, T'. split; [exact Hact |]. split; [exact Hr |].
  split; [rewrite Hid; vm_compute; reflexivity |].
  intros Hn. apply Hiff in Hn as [Hn | Hn]; discriminate Hn.
Defined.

(** X22.  Saving the dialog with no task selected, with data that
    has no [id] key, makes a task whose id is [task-] followed by the
    clock reading and whose order is the number of root tasks.  The
    spread of the data comes after the defaults, so a key the data has
    wins:
    the name is the one given, even when it is empty, and "New Task" only
    when the data has no name.  Sent as ADD_TASK, the task is put last
    and found under its id when no task had that id; sent as
    ADD_TASK_AT_POSITION for a target that no task of the forest has, it
    is dropped and the state is unchanged. *)
Theorem saved_task_is_added_or_dropped (state : GanttState) (T : list Task)
    (taskData : TaskUpdates) (clock : Clock) :
  tasks state = Some <$> T ->
  u_id taskData = None ->
  freshId clock ∉ forestIds T ->
  let newTask := newTaskOf taskData clock state in
  id newTask = freshId clock /\
  name newTask = default "New Task" (u_name taskData) /\
  order newTask = default (Z.of_nat (length T)) (u_order taskData) /\
  (forall action,
     handleSaveTask None action None taskData clock state
     = ADD_TASK newTask) /\
  (exists s',
     ganttReducer state (ADD_TASK newTask) = Ok s' /\
     tasks s' = Some <$> (T ++ [newTask]) /\
     findRoot (tasks s') (freshId clock) = Ok (Some newTask)) /\
  (forall action X,
     X <> "" -> X ∉ forestIds T ->
     handleSaveTask None (Some action) (Some X) taskData clock state
     = ADD_TASK_AT_POSITION newTask (positionOf action) X /\
     ganttReducer state
       (ADD_TASK_AT_POSITION newTask (positionOf action) X) = Ok state).
Proof.
  intros HT Hid Hfresh newTask.
  assert (Hidn : id newTask = freshId clock)
    by (unfold newTask, newTaskOf; simpl; rewrite Hid; reflexivity).
  split; [exact Hidn |]. split; [| split; [| split; [| split]]].
  - unfold newTask, newTaskOf. simpl.
    destruct (u_name taskData); reflexivity.
  - unfold newTask, newTaskOf. simpl. rewrite HT, length_fmap. reflexivity.
  - intros [a |]; reflexivity.
  - eexists. split; [apply add_action_tasks, HT |].
    split; [reflexivity |].
    rewrite tasks_withTasks, findRoot_tasks, <- Hidn. f_equal.
    apply findTaskById_added. rewrite Hidn. exact Hfresh.
  - intros a X HX Hmiss. split.
    + unfold handleSaveTask. rewrite bool_decide_eq_true_2 by exact HX.
      reflexivity.
    + simpl. rewrite HT, insertRoot_tasks. simpl.
      rewrite (insertTask_absent _ _ _ _ Hmiss), <- HT, withTasks_same.
      reflexivity.
Qed.

Lemma saved_task_is_added_or_dropped_example :
  id (newTaskOf exampleData exampleClock exampleState)
  = "task-1700000000000" /\
  name (newTaskOf exampleData exampleClock exampleState) = "" /\
  order (newTaskOf exampleData exampleClock exampleState) = 2%Z /\
  ganttReducer exampleState
    (ADD_TASK_AT_POSITION (newTaskOf exampleData exampleClock exampleState)
       (positionOf add_below) "7")
  = Ok exampleState.
Proof.
  assert (Hfresh : freshId exampleClock ∉ forestIds exampleForest).
  { intros H. apply list_elem_of_In in H. vm_compute in H.
    repeat destruct H as [H | H]; try discriminate H. exact H. }
  assert (Hmiss : "7" ∉ forestIds exampleForest).
  { intros H. apply list_elem_of_In in H. simpl in H.
    repeat destruct H as [H | H]; try discriminate H. exact H. }
  assert (H7 : "7" <> "") by discriminate.
  destruct (saved_task_is_added_or_dropped exampleState exampleForest
              exampleData exampleClock eq_refl eq_refl Hfresh)
    as (Hid & Hname & Horder & _ & _ & Hdrop).
  split; [rewrite Hid; vm_compute; reflexivity |].
  split; [exact Hname |]. split; [exact Horder |].
  exact (proj2 (Hdrop add_below "7" H7 Hmiss)).
Defined.

(** ** The list fields of the task dialog *)

Lemma includes_comma_cons (c : Ascii.ascii) (r : string) :
  includes (String c r) "," = false ->
  c <> ","%char /\ includes r "," = false.
Proof.
  change (includes (String c r) ",")
    with (String.prefix "," (String c r) || includes r ",").
  intros H. apply orb_false_iff in H as [Hp Hr].
  split; [| exact Hr]. intros ->. simpl in Hp.
  destruct r; discriminate Hp.
Qed.

Lemma split_cons_other (c : Ascii.ascii) (s : string) :
  c <> ","%char ->
  split (String c s) =
  match split s with
  | piece :: pieces => String c piece :: pieces
  | [] => [String c EmptyString]
  end.
Proof. intros H. simpl. rewrite bool_decide_eq_false_2 by exact H. reflexivity. Qed.

Lemma split_plain (r : string) :
  includes r "," = false -> split r = [r].
Proof.
  induction r as [| c r IH]; intros H; [reflexivity |].
  apply includes_comma_cons in H as [Hc Hr].
  rewrite (split_cons_other _ _ Hc), (IH Hr). reflexivity.
Qed.

Lemma split_plain_comma (r s : string) :
  includes r "," = false ->
  split (r +:+ String "," s) = r :: split s.
Proof.
  induction r as [| c r IH]; intros H; [reflexivity |].
  apply includes_comma_cons in H as [Hc Hr].
  change (String c r +:+ String "," s)
    with (String c (r +:+ String "," s)).
  rewrite (split_cons_other _ _ Hc), (IH Hr). reflexivity.
Qed.

Lemma join_cons (r r' : string) (l : list string) :
  join (r :: r' :: l) = r +:+ String "," (String " " (join (r' :: l))).
Proof. reflexivity. Qed.

Lemma split_join (r : string) (l : list string) :
  Forall (fun x => includes x "," = false) (r :: l) ->
  split (join (r :: l)) = r :: (String " " <$> l).
Proof.
  revert r. induction l as [| r' l IH]; intros r H.
  - apply Forall_cons in H as [Hr _]. exact (split_plain r Hr).
  - apply Forall_cons in H as [Hr Hl].
    rewrite join_cons, (split_plain_comma _ _ Hr).
    rewrite split_cons_other by discriminate.
    rewrite (IH r' Hl). reflexivity.
Qed.

Lemma trim_after_space (r : string) : trim (String " " r) = trim r.
Proof. reflexivity. Qed.

Lemma textList_listText (l : list string) :
  Forall plainName l -> textList (listText (Some l)) = l.
Proof.
  intros H. destruct l as [| r l]; [reflexivity |].
  assert (Hc : Forall (fun x => includes x "," = false) (r :: l))
    by (eapply Forall_impl; [exact H |]; intros x (_ & Hx & _); exact Hx).
  unfold textList, listText. rewrite (split_join r l Hc).
  apply Forall_cons in H as [(Hne & _ & Ht) Hl].
  rewrite fmap_cons, Ht, filter_cons, decide_True by exact Hne. f_equal.
  induction Hl as [| x l' (Hxne & _ & Hxt) _ IH]; [reflexivity |].
  apply Forall_cons in Hc as [Hr Hc]. apply Forall_cons in Hc as [_ Hc].
  rewrite !fmap_cons, trim_after_space, Hxt.
  rewrite filter_cons, decide_True by exact Hxne. f_equal.
  apply IH. apply Forall_cons. split; assumption.
Qed.

(** X23.  A list field of the task dialog shows a list as its
    names joined by a comma and a space, and saves the text split at the
    commas, each piece trimmed, the empty pieces left out.  What is saved
    from the text shown for a list is that list, when each name is not
    empty, has no comma and has no white space at either end; an absent
    list is saved as the empty list. *)
Theorem list_field_round_trip (l : list string) :
  Forall plainName l ->
  textList (listText (Some l)) = l /\
  textList (listText None) = [].
Proof.
  intros H. split; [apply textList_listText, H | reflexivity].
Qed.

Lemma list_field_round_trip_example :
  textList (listText (Some ["Ann Lee"; "Bo"])) = ["Ann Lee"; "Bo"].
Proof.
  apply (list_field_round_trip ["Ann Lee"; "Bo"]).
  repeat constructor; discriminate.
Defined.

Lemma includes_comma_other (c : Ascii.ascii) (r : string) :
  c <> ","%char -> includes r "," = false ->
  includes (String c r) "," = false.
Proof.
  intros Hc Hr.
  change (includes (String c r) ",")
    with (String.prefix "," (String c r) || includes r ",").
  rewrite Hr, orb_false_r.
  change (String.prefix "," (String c r))
    with (match Ascii.ascii_dec "," c with
          | left _ => String.prefix "" r
          | right _ => false
          end).
  destruct (Ascii.ascii_dec "," c) as [E | E]; [congruence | reflexivity].
Qed.

Lemma split_no_comma (s : string) :
  Forall (fun x => includes x "," = false) (split s).
Proof.
  induction s as [| c s IH]; [repeat constructor |].
  simpl. case_bool_decide as Hc.
  - apply Forall_cons. split; [reflexivity | exact IH].
  - destruct (split s) as [| piece pieces].
    + repeat constructor. apply includes_comma_other; [exact Hc | reflexivity].
    + apply Forall_cons in IH as [Hp Hps]. apply Forall_cons.
      split; [apply includes_comma_other; assumption | exact Hps].
Qed.

Lemma trimStart_no_comma (s : string) :
  includes s "," = false -> includes (trimStart s) "," = false.
Proof.
  induction s as [| c s IH]; intros H; [exact H |].
  simpl. destruct (isWhiteSpace c); [| exact H].
  apply IH. apply includes_comma_cons in H as [_ H]. exact H.
Qed.

Lemma trimEnd_no_comma (s : string) :
  includes s "," = false -> includes (trimEnd s) "," = false.
Proof.
  induction s as [| c s IH]; intros H; [exact H |].
  apply includes_comma_cons in H as [Hc H]. specialize (IH H).
  simpl. destruct (trimEnd s) as [| d kept].
  - destruct (isWhiteSpace c); [reflexivity |].
    apply includes_comma_other; [exact Hc | reflexivity].
  - apply includes_comma_other; assumption.
Qed.

(** No white space at the start of a string. *)
Lemma trimStart_fixed (s : string) :
  match s with
  | String c _ => isWhiteSpace c = false
  | EmptyString => True
  end ->
  trimStart s = s.
Proof. destruct s as [| c s]; [reflexivity |]. simpl. intros ->. reflexivity. Qed.

Lemma trimStart_start (s : string) :
  match trimStart s with
  | String c _ => isWhiteSpace c = false
  | EmptyString => True
  end.
Proof.
  induction s as [| c s IH]; [exact I |]. simpl.
  destruct (isWhiteSpace c) eqn:E; [exact IH | exact E].
Qed.

Lemma trimEnd_start (s : string) :
  match s with
  | String c _ => isWhiteSpace c = false
  | EmptyString => True
  end ->
  match trimEnd s with
  | String c _ => isWhiteSpace c = false
  | EmptyString => True
  end.
Proof.
  destruct s as [| c s]; [intros _; exact I |]. simpl. intros E.
  destruct (trimEnd s); [| exact E].
  destruct (isWhiteSpace c) eqn:Ec; [discriminate E | exact Ec].
Qed.

Lemma trimEnd_twice (s : string) : trimEnd (trimEnd s) = trimEnd s.
Proof.
  induction s as [| c s IH]; [reflexivity |]. simpl.
  destruct (trimEnd s) as [| d kept] eqn:E.
  - destruct (isWhiteSpace c) eqn:Ec; [reflexivity |].
    simpl. rewrite Ec. reflexivity.
  - change (trimEnd (String c (String d kept)))
      with (match trimEnd (String d kept) with
            | EmptyString => if isWhiteSpace c then EmptyString
                             else String c EmptyString
            | k => String c k
            end).
    rewrite IH. reflexivity.
Qed.

Lemma trim_twice (s : string) : trim (trim s) = trim s.
Proof.
  unfold trim.
  rewrite (trimStart_fixed (trimEnd (trimStart s)))
    by (apply trimEnd_start, trimStart_start).
  apply trimEnd_twice.
Qed.

Lemma textList_plain (text : string) : Forall plainName (textList text).
Proof.
  unfold textList. apply Forall_forall. intros x Hx.
  apply list_elem_of_filter in Hx as [Hne Hx].
  apply list_elem_of_fmap in Hx as (piece & -> & Hp).
  pose proof (split_no_comma text) as Hc. rewrite Forall_forall in Hc.
  split; [exact Hne |]. split; [| apply trim_twice].
  apply trimEnd_no_comma, trimStart_no_comma, Hc, Hp.
Qed.

(** X24.  Every name the dialog saves from a list field, whatever
    the text typed, is not empty, has no comma and has no white space at
    either end; so when the dialog is opened again on what it saved and
    saved unchanged, the list saved is the same. *)
Theorem saved_names_are_plain (text : string) :
  Forall plainName (textList text) /\
  textList (listText (Some (textList text))) = textList text.
Proof.
  split; [apply textList_plain | apply textList_listText, textList_plain].
Qed.

(** ** Dates stored one after the other *)

Lemma keepsId_datesUpdate (X : string) (s e : Date) :
  keepsId X (datesUpdate (C := list Task) s e).
Proof. left. reflexivity. Qed.

Lemma dates_update_overrides (state : GanttState) (X : string)
    (s1 e1 s2 e2 : Date) :
  (st ← ganttReducer state (UPDATE_TASK X (datesUpdate s1 e1));
   ganttReducer st (UPDATE_TASK X (datesUpdate s2 e2)))
  = ganttReducer state (UPDATE_TASK X (datesUpdate s2 e2)).
Proof.
  pose proof (updateRoot_twice (tasks state) X (datesUpdate s1 e1)
                (datesUpdate s2 e2) (keepsId_datesUpdate X s1 e1)) as Hc.
  change (thenUpdates _ _) with (datesUpdate (C := list Task) s2 e2) in Hc.
  simpl. rewrite <- Hc.
  destruct (updateRoot (tasks state) X (datesUpdate s1 e1)) as [l1 |];
    [| reflexivity].
  simpl. destruct (updateRoot l1 X (datesUpdate s2 e2)); reflexivity.
Qed.

Lemma dispatchAll_cons (state : GanttState) (a : GanttAction)
    (rest : list GanttAction) :
  dispatchAll state (a :: rest)
  = ganttReducer state a ≫= (fun s => dispatchAll s rest).
Proof. reflexivity. Qed.

(** X25.  RESIZE_TASK stores the two dates it carries, as an
    UPDATE_TASK with these two dates does, whatever the dates of the task
    are.  On every state, of a run of such actions on one id, one after
    the other, only the last counts: the run, followed by any actions,
    leaves what its last action followed by these actions leaves. *)
Theorem last_dates_stored_win (state : GanttState) (X : string)
    (moves rest : list GanttAction) :
  Forall (fun a => exists s e, a = RESIZE_TASK X s e \/
                               a = UPDATE_TASK X (datesUpdate s e)) moves ->
  (forall s e,
     ganttReducer state (RESIZE_TASK X s e)
     = ganttReducer state (UPDATE_TASK X (datesUpdate s e))) /\
  dispatchAll state (moves ++ rest)
  = dispatchAll state (option_list (last moves) ++ rest).
Proof.
  intros H. split; [reflexivity |]. revert state.
  induction H as [| m1 more Hm1 Hmore IH]; intros state; [reflexivity |].
  destruct more as [| m2 more]; [reflexivity |].
  change (last (m1 :: m2 :: more)) with (last (m2 :: more)).
  rewrite <- IH. apply Forall_cons in Hmore as [Hm2 _].
  destruct Hm1 as (s1 & e1 & Hm1). destruct Hm2 as (s2 & e2 & Hm2).
  pose proof (dates_update_overrides state X s1 e1 s2 e2) as Ho.
  rewrite <- !app_comm_cons, !dispatchAll_cons.
  assert (H1 : ganttReducer state m1
               = ganttReducer state (UPDATE_TASK X (datesUpdate s1 e1)))
    by (destruct Hm1 as [-> | ->]; reflexivity).
  assert (H2 : forall st, ganttReducer st m2
               = ganttReducer st (UPDATE_TASK X (datesUpdate s2 e2)))
    by (intros st; destruct Hm2 as [-> | ->]; reflexivity).
  rewrite H1, H2, <- Ho.
  destruct (ganttReducer state (UPDATE_TASK X (datesUpdate s1 e1)))
    as [st |]; [| reflexivity].
  rewrite !bind_Ok, dispatchAll_cons, H2. reflexivity.
Qed.

Lemma last_dates_stored_win_example :
  dispatchAll exampleState
    [RESIZE_TASK "3" (calendarDate 10) (calendarDate 14);
     UPDATE_TASK "3" (datesUpdate (calendarDate 9) (calendarDate 12));
     RESIZE_TASK "3" (calendarDate 10) (calendarDate 11);
     SELECT_TASK (Some "3")]
  = dispatchAll exampleState
      [RESIZE_TASK "3" (calendarDate 10) (calendarDate 11);
       SELECT_TASK (Some "3")].
Proof.
  apply (last_dates_stored_win exampleState "3"
           [RESIZE_TASK "3" (calendarDate 10) (calendarDate 14);
            UPDATE_TASK "3" (datesUpdate (calendarDate 9) (calendarDate 12));
            RESIZE_TASK "3" (calendarDate 10) (calendarDate 11)]
           [SELECT_TASK (Some "3")]).
  repeat constructor; eauto.
Defined.

(** ** The ids of the forest after an insertion *)

Lemma taskIds_addSubtask (t newTask : Task) (X : string) :
  taskIds (addSubtask t newTask X) = taskIds t ++ taskIds newTask.
Proof.
  rewrite (taskIds_eq (addSubtask t newTask X)), (taskIds_eq t).
  simpl. rewrite forestIds_app, forestIds_single.
  rewrite (taskIds_eq (mergeTask newTask (parentUpdate X))),
    (taskIds_eq newTask). simpl.
  destruct (children t); reflexivity.
Qed.

Lemma insertion_ids (newTask : Task) (position : Position) (X : string)
    (ts : list Task) :
  NoDup (forestIds ts) ->
  X ∈ forestIds ts ->
  forestIds (addTaskAtPosition ts newTask position X)
  ≡ₚ forestIds ts ++ taskIds newTask.
Proof.
  unfold addTaskAtPosition. revert ts.
  apply (forest_ind
           (fun t => id t <> X -> NoDup (taskIds t) -> X ∈ taskIds t ->
                     taskIds (insertBelow newTask position X t)
                     ≡ₚ taskIds t ++ taskIds newTask)
           (fun ts => NoDup (forestIds ts) -> X ∈ forestIds ts ->
                      forestIds (insertTask newTask position X ts)
                      ≡ₚ forestIds ts ++ taskIds newTask)).
  - intros t IH Hid Hnd Hin. rewrite insertBelow_eq.
    rewrite (taskIds_eq t) in Hnd, Hin |- *.
    apply NoDup_cons in Hnd as [_ Hnd].
    apply elem_of_cons in Hin as [Hin | Hin]; [congruence |].
    destruct (children t) as [c |] eqn:E.
    + rewrite taskIds_eq, id_withChildren, children_withChildren.
      simpl. f_equiv. exact (IH c eq_refl Hnd Hin).
    + apply elem_of_nil in Hin. destruct Hin.
  - intros _ Hin. apply elem_of_nil in Hin. destruct Hin.
  - intros t r IHt IHr Hnd Hin. rewrite insertTask_cons.
    rewrite forestIds_cons in Hnd, Hin |- *.
    apply NoDup_app in Hnd as (Hnt & Hdisj & Hnr).
    case_bool_decide as Hid.
    + destruct position.
      * rewrite !forestIds_cons.
        rewrite (Permutation_app_comm (taskIds newTask)).
        rewrite <- !app_assoc. reflexivity.
      * rewrite !forestIds_cons. rewrite <- !app_assoc.
        f_equiv. apply Permutation_app_comm.
      * rewrite forestIds_cons, taskIds_addSubtask, <- !app_assoc.
        f_equiv. apply Permutation_app_comm.
    + rewrite forestIds_cons.
      apply elem_of_app in Hin as [Hin | Hin].
      * pose proof (insertTask_absent newTask position X r (Hdisj _ Hin))
          as Hr.
        unfold addTaskAtPosition in Hr. rewrite Hr, (IHt Hid Hnt Hin).
        rewrite <- !app_assoc. f_equiv. apply Permutation_app_comm.
      * assert (Hnot : X ∉ taskIds t)
          by (intros Ht; exact (Hdisj _ Ht Hin)).
        rewrite (insertBelow_absent _ _ _ _ Hnot), (IHr Hnr Hin).
        rewrite app_assoc. reflexivity.
Qed.

Lemma length_taskIds (t : Task) : length (taskIds t) = subtreeSize t.
Proof.
  revert t.
  apply (Task_forest_ind
           (fun t => length (taskIds t) = subtreeSize t)
           (fun ts => length (forestIds ts) = nodeCount ts)).
  - intros t IH. unfold subtreeSize. rewrite taskIds_eq, taskNodes_eq.
    simpl. f_equal. destruct (children t) as [c |]; [| reflexivity].
    apply (IH c eq_refl).
  - reflexivity.
  - intros t r IHt IHr. unfold nodeCount, subtreeSize in *.
    rewrite forestIds_cons, forestNodes_cons, !length_app, IHt, IHr.
    reflexivity.
Qed.

Lemma length_forestIds (ts : list Task) :
  length (forestIds ts) = nodeCount ts.
Proof.
  induction ts as [| t r IH]; [reflexivity |].
  unfold nodeCount in *.
  rewrite forestIds_cons, forestNodes_cons, !length_app, IH.
  f_equal. apply length_taskIds.
Qed.

(** X26.  On a forest with distinct ids that has the target,
    ADD_TASK_AT_POSITION adds the nodes of the new task and nothing
    else, for each of the three positions: the ids of the new forest are
    those of the old one and those of the new task, and the number of
    nodes grows by the size of the new task. *)
Theorem insertion_adds_the_new_nodes (state : GanttState) (T : list Task)
    (newTask : Task) (position : Position) (X : string) :
  tasks state = Some <$> T ->
  NoDup (forestIds T) ->
  X ∈ forestIds T ->
  exists T',
    ganttReducer state (ADD_TASK_AT_POSITION newTask position X)
    = Ok (withTasks state (Some <$> T')) /\
    forestIds T' ≡ₚ forestIds T ++ taskIds newTask /\
    nodeCount T' = nodeCount T + subtreeSize newTask.
Proof.
  intros HT Hnd Hin. exists (addTaskAtPosition T newTask position X).
  split; [simpl; rewrite HT, insertRoot_tasks; reflexivity |].
  pose proof (insertion_ids newTask position X T Hnd Hin) as Hp.
  split; [exact Hp |].
  rewrite <- !length_forestIds, <- length_taskIds, Hp.
  apply length_app.
Qed.

Lemma insertion_adds_the_new_nodes_example :
  exists T',
    ganttReducer exampleState
      (ADD_TASK_AT_POSITION (exampleParent "8" [exampleLeaf "9"]) subtask
         "3")
    = Ok (withTasks exampleState (Some <$> T')) /\
    nodeCount T' = 6.
Proof.
  assert (Hnd : NoDup (forestIds exampleForest)).
  { refine (bool_decide_unpack _ _). vm_compute. exact I. }
  assert (Hin : "3" ∈ forestIds exampleForest).
  { do 2 (apply elem_of_cons; right). apply elem_of_cons. left.
    reflexivity. }
  destruct (insertion_adds_the_new_nodes exampleState exampleForest
              (exampleParent "8" [exampleLeaf "9"]) subtask "3"
              eq_refl Hnd Hin)
    as (T' & Hr & _ & Hc).
  exists T'. split; [exact Hr | exact Hc].
Defined.

(** ** The new task after an insertion *)

Lemma findTaskById_inserted (newTask : Task) (position : Position)
    (X : string) (ts : list Task) :
  X ∈ forestIds ts ->
  id newTask ∉ forestIds ts ->
  findTaskById (addTaskAtPosition ts newTask position X) (id newTask)
  = Some match position with
         | subtask => mergeTask newTask (parentUpdate X)
         | _ => newTask
         end.
Proof.
  unfold addTaskAtPosition. revert ts.
  set (stored := match position with
                 | subtask => mergeTask newTask (parentUpdate X)
                 | _ => newTask
                 end).
  assert (Hstored : findTask (id newTask) stored = Some stored).
  { rewrite findTask_eq, bool_decide_eq_true_2; [reflexivity |].
    unfold stored. destruct position; reflexivity. }
  apply (forest_ind
           (fun t => id t <> X -> X ∈ taskIds t -> id newTask ∉ taskIds t ->
                     findTask (id newTask)
                       (insertBelow newTask position X t) = Some stored)
           (fun ts => X ∈ forestIds ts -> id newTask ∉ forestIds ts ->
                      findTaskById (insertTask newTask position X ts)
                        (id newTask) = Some stored)).
  - intros t IH Hid Hin Hfresh. rewrite insertBelow_eq.
    pose proof (not_in_taskIds _ _ Hfresh) as [Hne Hc].
    rewrite taskIds_eq in Hin.
    apply elem_of_cons in Hin as [Hin | Hin]; [congruence |].
    destruct (children t) as [c |] eqn:E.
    + rewrite findTask_eq, id_withChildren, bool_decide_eq_false_2,
        children_withChildren by exact Hne.
      exact (IH c eq_refl Hin (Hc c eq_refl)).
    + apply elem_of_nil in Hin. destruct Hin.
  - intros Hin. apply elem_of_nil in Hin. destruct Hin.
  - intros t r IHt IHr Hin Hfresh. rewrite forestIds_cons in Hin, Hfresh.
    assert (Ht : id newTask ∉ taskIds t)
      by (intros H; apply Hfresh, elem_of_app; left; exact H).
    assert (Hr : id newTask ∉ forestIds r)
      by (intros H; apply Hfresh, elem_of_app; right; exact H).
    rewrite insertTask_cons. case_bool_decide as Hid.
    + unfold stored in *. destruct position.
      * rewrite findTaskById_cons, Hstored. reflexivity.
      * rewrite findTaskById_cons, (findTask_absent _ _ Ht),
          findTaskById_cons, Hstored. reflexivity.
      * rewrite findTaskById_cons, findTask_eq.
        pose proof (not_in_taskIds _ _ Ht) as [Hne Hc].
        rewrite bool_decide_eq_false_2 by exact Hne.
        change (children (addSubtask t newTask X))
          with (Some (default [] (children t)
                      ++ [mergeTask newTask (parentUpdate X)])).
        cbv beta iota. rewrite findTaskById_app.
        assert (Hnone : findTaskById (default [] (children t))
                          (id newTask) = None).
        { destruct (children t) as [c |] eqn:E; [| reflexivity].
          apply findTaskById_absent, (Hc c eq_refl). }
        rewrite Hnone, findTaskById_cons, Hstored. reflexivity.
    + rewrite findTaskById_cons.
      destruct (decide (X ∈ taskIds t)) as [Hx | Hx].
      * rewrite (IHt Hid Hx Ht). reflexivity.
      * rewrite (insertBelow_absent _ _ _ _ Hx), (findTask_absent _ _ Ht).
        apply elem_of_app in Hin as [Hin | Hin]; [contradiction |].
        exact (IHr Hin Hr).
Qed.

(** X27.  After ADD_TASK_AT_POSITION with a target that the
    forest has and a new task whose id no task of the forest has,
    [findTaskById] returns the new task for its id: the task as given for
    the positions above and below, the task with its [parentId] set to
    the target id for the position subtask. *)
Theorem inserted_task_is_found (state : GanttState) (T : list Task)
    (newTask : Task) (position : Position) (X : string) :
  tasks state = Some <$> T ->
  X ∈ forestIds T ->
  id newTask ∉ forestIds T ->
  exists s',
    ganttReducer state (ADD_TASK_AT_POSITION newTask position X) = Ok s' /\
    findRoot (tasks s') (id newTask)
    = Ok (Some match position with
               | subtask => mergeTask newTask (parentUpdate X)
               | _ => newTask
               end).
Proof.
  intros HT HX Hfresh. eexists. split.
  - simpl. rewrite HT, insertRoot_tasks. reflexivity.
  - rewrite tasks_withTasks, findRoot_tasks. f_equal.
    apply findTaskById_inserted; assumption.
Qed.

Lemma inserted_task_is_found_example :
  exists s',
    ganttReducer exampleState
      (ADD_TASK_AT_POSITION (exampleLeaf "9") subtask "3") = Ok s' /\
    findRoot (tasks s') "9"
    = Ok (Some (mergeTask (exampleLeaf "9") (parentUpdate "3"))).
Proof.
  assert (HX : "3" ∈ forestIds exampleForest).
  { do 2 (apply elem_of_cons; right). apply elem_of_cons. left.
    reflexivity. }
  assert (Hfresh : id (exampleLeaf "9") ∉ forestIds exampleForest).
  { intros H. apply list_elem_of_In in H. simpl in H.
    repeat destruct H as [H | H]; try discriminate H. exact H. }
  exact (inserted_task_is_found exampleState exampleForest
           (exampleLeaf "9") subtask "3" eq_refl HX Hfresh).
Defined.

(** ** The store runs and the helpers on values

    On a store where the objects of a forest form a tree, each helper,
    given enough fuel, returns an array that stands for the forest the
    helper on values returns. *)

Import Store.

(** *** Stores *)

Lemma bind_run {A B : Type} (m : M A) (k : A -> M B) (h : heap) :
  (m ≫= k) h = match m h with
               | Some (a, h') => k a h'
               | None => None
               end.
Proof. reflexivity. Qed.

Lemma getObject_run (h : heap) (l : loc) (o : TaskObj) :
  object h l = Some o -> getObject l h = Some (o, h).
Proof. intros H. unfold getObject. rewrite H. reflexivity. Qed.

Lemma getArray_run (h : heap) (l : loc) (entries : list loc) :
  array h l = Some entries -> getArray l h = Some (entries, h).
Proof. intros H. unfold getArray. rewrite H. reflexivity. Qed.

Lemma wf_lt (h : heap) (x : loc) :
  wf h -> is_Some (cells h !! x) -> x < next h.
Proof.
  intros Hwf [c Hc]. destruct (decide (x < next h)) as [| Hge]; [assumption |].
  exfalso. pose proof (Hwf x ltac:(lia)) as Hn. congruence.
Qed.

Lemma wf_emptyHeap : wf emptyHeap.
Proof. intros l _. apply lookup_empty. Qed.

Lemma wf_extend (h : heap) (c : cell) : wf h -> wf (extend h c).
Proof.
  intros Hwf l Hl. simpl in *. rewrite lookup_insert_ne by lia.
  apply Hwf. lia.
Qed.

Lemma wf_write (h : heap) (l : loc) (c : cell) :
  wf h -> l < next h -> wf (write h l c).
Proof.
  intros Hwf Hlt x Hx. simpl in *. rewrite lookup_insert_ne by lia.
  apply Hwf, Hx.
Qed.

Lemma cells_extend_old (h : heap) (c : cell) (x : loc) :
  x < next h -> cells (extend h c) !! x = cells h !! x.
Proof. intros Hx. simpl. apply lookup_insert_ne. lia. Qed.

Lemma cells_extend_new (h : heap) (c : cell) :
  cells (extend h c) !! next h = Some c.
Proof. simpl. apply lookup_insert_eq. Qed.

Lemma cells_write_other (h : heap) (l : loc) (c : cell) (x : loc) :
  x <> l -> cells (write h l c) !! x = cells h !! x.
Proof. intros Hx. simpl. apply lookup_insert_ne. congruence. Qed.

Lemma cells_write_same (h : heap) (l : loc) (c : cell) :
  cells (write h l c) !! l = Some c.
Proof. simpl. apply lookup_insert_eq. Qed.

Lemma object_cells (h h' : heap) (l : loc) :
  cells h' !! l = cells h !! l -> object h' l = object h l.
Proof. unfold object. intros ->. reflexivity. Qed.

Lemma array_cells (h h' : heap) (l : loc) :
  cells h' !! l = cells h !! l -> array h' l = array h l.
Proof. unfold array. intros ->. reflexivity. Qed.

Lemma object_is_Some (h : heap) (l : loc) (o : TaskObj) :
  object h l = Some o -> cells h !! l = Some (Obj o).
Proof.
  unfold object. destruct (cells h !! l) as [[o' | e] |]; try discriminate.
  intros H. injection H as ->. reflexivity.
Qed.

Lemma array_is_Some (h : heap) (l : loc) (entries : list loc) :
  array h l = Some entries -> cells h !! l = Some (Arr entries).
Proof.
  unfold array. destruct (cells h !! l) as [[o' | e] |]; try discriminate.
  intros H. injection H as ->. reflexivity.
Qed.

Lemma changes_refl (h : heap) (fp : gset loc) : wf h -> changes h h fp.
Proof. intros Hwf. split; [exact Hwf |]. split; [lia | reflexivity]. Qed.

Lemma changes_trans (h h1 h2 : heap) (fp1 fp2 fp : gset loc) :
  changes h h1 fp1 -> changes h1 h2 fp2 ->
  (forall x, x ∈ fp1 -> x ∈ fp) ->
  (forall x, x ∈ fp2 -> x < next h -> x ∈ fp) ->
  changes h h2 fp.
Proof.
  intros (Hwf1 & Hn1 & Hc1) (Hwf2 & Hn2 & Hc2) H1 H2.
  split; [exact Hwf2 |]. split; [lia |].
  intros x Hx Hfp. rewrite Hc2, Hc1; [reflexivity | exact Hx | | lia |].
  - intros Hin. apply Hfp, H1, Hin.
  - intros Hin. apply Hfp, H2; assumption.
Qed.

Lemma changes_extend (h : heap) (c : cell) (fp : gset loc) :
  wf h -> changes h (extend h c) fp.
Proof.
  intros Hwf. split; [apply wf_extend, Hwf |]. split; [simpl; lia |].
  intros x Hx _. apply cells_extend_old, Hx.
Qed.

Lemma changes_write (h : heap) (l : loc) (c : cell) (fp : gset loc) :
  wf h -> l < next h -> l ∈ fp -> changes h (write h l c) fp.
Proof.
  intros Hwf Hl Hin. split; [apply wf_write; assumption |].
  split; [simpl; lia |].
  intros x Hx Hfp. apply cells_write_other. intros ->. exact (Hfp Hin).
Qed.

Lemma changes_weaken (h h' : heap) (fp fp' : gset loc) :
  changes h h' fp -> (forall x, x ∈ fp -> x ∈ fp') -> changes h h' fp'.
Proof.
  intros (Hwf & Hn & Hc) Hsub. split; [exact Hwf |]. split; [exact Hn |].
  intros x Hx Hfp. apply Hc; [exact Hx |]. intros Hin. exact (Hfp (Hsub x Hin)).
Qed.

(** *** Representations *)

Lemma reprTask_eq (sep : bool) (h : heap) (t : Task) (l : loc)
    (fp : gset loc) :
  reprTask sep h t l fp =
  exists o,
    object h l = Some o /\ o = objOf t (o_children o) /\
    match children t with
    | Some c =>
        exists a fpa,
          o_children o = Some a /\
          (sep = true -> l ∉ fpa) /\ fp = {[l]} ∪ fpa /\
          reprArray sep h c a fpa
    | None => o_children o = None /\ fp = {[l]}
    end.
Proof. destruct t; reflexivity. Qed.

Lemma reprList_nil_inv (sep : bool) (R : Task -> loc -> gset loc -> Prop)
    (entries : list loc) (fp : gset loc) :
  reprList sep R [] entries fp -> entries = [] /\ fp = ∅.
Proof. destruct entries; simpl; [intros ->; split; reflexivity | tauto]. Qed.

Lemma reprList_cons_inv (sep : bool) (R : Task -> loc -> gset loc -> Prop)
    (t : Task) (ts : list Task) (entries : list loc) (fp : gset loc) :
  reprList sep R (t :: ts) entries fp ->
  exists e es f1 f2,
    entries = e :: es /\ R t e f1 /\ reprList sep R ts es f2 /\
    (sep = true -> f1 ## f2) /\ fp = f1 ∪ f2.
Proof.
  destruct entries as [| e es]; simpl; [tauto |].
  intros (f1 & f2 & H1 & H2 & H3 & H4). exists e, es, f1, f2. tauto.
Qed.

Lemma reprList_cons (sep : bool) (R : Task -> loc -> gset loc -> Prop)
    (t : Task) (ts : list Task) (e : loc) (es : list loc)
    (f1 f2 : gset loc) :
  R t e f1 -> reprList sep R ts es f2 -> (sep = true -> f1 ## f2) ->
  reprList sep R (t :: ts) (e :: es) (f1 ∪ f2).
Proof. intros H1 H2 H3. simpl. exists f1, f2. tauto. Qed.

(** A representation rests on its references only. *)
Lemma repr_frame (sep : bool) (h h' : heap) :
  (forall t l fp,
     reprTask sep h t l fp ->
     (forall x, x ∈ fp -> cells h' !! x = cells h !! x) ->
     reprTask sep h' t l fp) /\
  (forall ts entries fp,
     reprList sep (reprTask sep h) ts entries fp ->
     (forall x, x ∈ fp -> cells h' !! x = cells h !! x) ->
     reprList sep (reprTask sep h') ts entries fp).
Proof.
  apply task_and_forest_ind.
  - intros t IH l fp H Hfr. rewrite reprTask_eq in *.
    destruct H as (o & Ho & Hf & Hc). exists o.
    destruct (children t) as [c |] eqn:E.
    + destruct Hc as (a & fpa & Ha & Hsep & -> & entries & fpc & He & Hs2
                      & -> & Hl).
      split; [rewrite (object_cells h h' l);
              [exact Ho | apply Hfr; set_solver] |].
      split; [exact Hf |].
      exists a, ({[a]} ∪ fpc). split; [exact Ha |]. split; [exact Hsep |].
      split; [reflexivity |].
      exists entries, fpc.
      split; [rewrite (array_cells h h' a);
              [exact He | apply Hfr; set_solver] |].
      split; [exact Hs2 |]. split; [reflexivity |].
      apply (IH c eq_refl); [exact Hl |]. intros x Hx. apply Hfr. set_solver.
    + destruct Hc as [Hn ->].
      split; [rewrite (object_cells h h' l);
              [exact Ho | apply Hfr; set_solver] |].
      split; [exact Hf |]. split; [exact Hn | reflexivity].
  - intros entries fp H _. apply reprList_nil_inv in H as [-> ->].
    reflexivity.
  - intros t r IHt IHr entries fp H Hfr.
    apply reprList_cons_inv in H
      as (e & es & f1 & f2 & -> & H1 & H2 & H3 & ->).
    apply reprList_cons; [| | exact H3].
    + apply IHt; [exact H1 |]. intros x Hx. apply Hfr. set_solver.
    + apply IHr; [exact H2 |]. intros x Hx. apply Hfr. set_solver.
Qed.

Lemma reprTask_frame (sep : bool) (h h' : heap) (t : Task) (l : loc)
    (fp : gset loc) :
  reprTask sep h t l fp ->
  (forall x, x ∈ fp -> cells h' !! x = cells h !! x) ->
  reprTask sep h' t l fp.
Proof. apply repr_frame. Qed.

Lemma reprList_frame (sep : bool) (h h' : heap) (ts : list Task)
    (entries : list loc) (fp : gset loc) :
  reprList sep (reprTask sep h) ts entries fp ->
  (forall x, x ∈ fp -> cells h' !! x = cells h !! x) ->
  reprList sep (reprTask sep h') ts entries fp.
Proof. apply repr_frame. Qed.

(** The references of a representation are in use. *)
Lemma repr_bound (sep : bool) (h : heap) :
  (forall t l fp,
     reprTask sep h t l fp -> forall x, x ∈ fp -> is_Some (cells h !! x)) /\
  (forall ts entries fp,
     reprList sep (reprTask sep h) ts entries fp ->
     forall x, x ∈ fp -> is_Some (cells h !! x)).
Proof.
  apply task_and_forest_ind.
  - intros t IH l fp H x Hx. rewrite reprTask_eq in H.
    destruct H as (o & Ho & Hf & Hc). apply object_is_Some in Ho.
    destruct (children t) as [c |] eqn:E.
    + destruct Hc as (a & fpa & Ha & Hsep & -> & entries & fpc & He & Hs2
                      & -> & Hl).
      apply array_is_Some in He.
      apply elem_of_union in Hx as [Hx | Hx];
        [apply elem_of_singleton in Hx as ->; eauto |].
      apply elem_of_union in Hx as [Hx | Hx];
        [apply elem_of_singleton in Hx as ->; eauto |].
      exact (IH c eq_refl entries fpc Hl x Hx).
    + destruct Hc as [Hn ->]. apply elem_of_singleton in Hx as ->. eauto.
  - intros entries fp H x Hx. apply reprList_nil_inv in H as [-> ->].
    set_solver.
  - intros t r IHt IHr entries fp H x Hx.
    apply reprList_cons_inv in H
      as (e & es & f1 & f2 & -> & H1 & H2 & H3 & ->).
    apply elem_of_union in Hx as [Hx | Hx]; [eapply IHt | eapply IHr]; eauto.
Qed.

Lemma reprTask_lt (sep : bool) (h : heap) (t : Task) (l : loc)
    (fp : gset loc) (x : loc) :
  wf h -> reprTask sep h t l fp -> x ∈ fp -> x < next h.
Proof.
  intros Hwf H Hx. apply wf_lt; [exact Hwf |].
  exact (proj1 (repr_bound sep h) t l fp H x Hx).
Qed.

Lemma reprList_lt (sep : bool) (h : heap) (ts : list Task)
    (entries : list loc) (fp : gset loc) (x : loc) :
  wf h -> reprList sep (reprTask sep h) ts entries fp -> x ∈ fp ->
  x < next h.
Proof.
  intros Hwf H Hx. apply wf_lt; [exact Hwf |].
  exact (proj2 (repr_bound sep h) ts entries fp H x Hx).
Qed.

(** A tree of objects stands for its value. *)
Lemma repr_weaken (h : heap) :
  (forall t l fp, reprTask true h t l fp -> reprTask false h t l fp) /\
  (forall ts entries fp,
     reprList true (reprTask true h) ts entries fp ->
     reprList false (reprTask false h) ts entries fp).
Proof.
  apply task_and_forest_ind.
  - intros t IH l fp H. rewrite reprTask_eq in *.
    destruct H as (o & Ho & Hf & Hc). exists o.
    split; [exact Ho |]. split; [exact Hf |].
    destruct (children t) as [c |] eqn:E; [| exact Hc].
    destruct Hc as (a & fpa & Ha & Hsep & -> & entries & fpc & He & Hs2
                    & -> & Hl).
    exists a, ({[a]} ∪ fpc). split; [exact Ha |].
    split; [discriminate |]. split; [reflexivity |].
    exists entries, fpc. split; [exact He |]. split; [discriminate |].
    split; [reflexivity |]. exact (IH c eq_refl entries fpc Hl).
  - intros entries fp H. apply reprList_nil_inv in H as [-> ->]. reflexivity.
  - intros t r IHt IHr entries fp H.
    apply reprList_cons_inv in H
      as (e & es & f1 & f2 & -> & H1 & H2 & H3 & ->).
    apply reprList_cons; [apply IHt, H1 | apply IHr, H2 | discriminate].
Qed.

(** With enough fuel the value is read back. *)
Lemma repr_read (sep : bool) (h : heap) :
  (forall t l fp,
     reprTask sep h t l fp ->
     exists n, forall fuel, n <= fuel -> readTask fuel h l = Some t) /\
  (forall ts entries fp,
     reprList sep (reprTask sep h) ts entries fp ->
     exists n, forall fuel, n <= fuel ->
       mapM (readTask fuel h) entries = Some ts).
Proof.
  apply task_and_forest_ind.
  - intros t IH l fp H. rewrite reprTask_eq in H.
    destruct H as (o & Ho & Hf & Hc).
    destruct (children t) as [c |] eqn:E.
    + destruct Hc as (a & fpa & Ha & Hsep & -> & entries & fpc & He & Hs2
                      & -> & Hl).
      destruct (IH c eq_refl entries fpc Hl) as [n Hn].
      exists (S n). intros fuel Hfuel.
      destruct fuel as [| fuel]; [lia |]. simpl.
      rewrite Ho. simpl. rewrite Ha, He. simpl.
      rewrite (Hn fuel) by lia. simpl. f_equal.
      rewrite Hf. destruct t; simpl in *. rewrite E. reflexivity.
    + destruct Hc as [Hn ->]. exists 1. intros fuel Hfuel.
      destruct fuel as [| fuel]; [lia |]. simpl.
      rewrite Ho. simpl. rewrite Hn. simpl. f_equal.
      rewrite Hf. destruct t; simpl in *. rewrite E. reflexivity.
  - intros entries fp H. apply reprList_nil_inv in H as [-> ->].
    exists 0. reflexivity.
  - intros t r IHt IHr entries fp H.
    apply reprList_cons_inv in H
      as (e & es & f1 & f2 & -> & H1 & H2 & H3 & ->).
    destruct (IHt e f1 H1) as [n1 Hn1]. destruct (IHr es f2 H2) as [n2 Hn2].
    exists (n1 + n2). intros fuel Hfuel. simpl.
    rewrite Hn1, Hn2 by lia. reflexivity.
Qed.

(** *** Fresh objects of a value form a tree that stands for it *)

Lemma allocTask_eq (t : Task) :
  allocTask t =
  (c ← match children t with
       | Some ts => entries ← mapM allocTask ts;
                    a ← alloc (Arr entries);
                    mret (Some a)
       | None => mret None
       end;
   alloc (Obj (objOf t c))).
Proof. destruct t; reflexivity. Qed.

Lemma alloc_repr :
  (forall t h,
     wf h ->
     exists l h' fp,
       allocTask t h = Some (l, h') /\ changes h h' ∅ /\
       reprTask true h' t l fp /\ (forall x, x ∈ fp -> next h <= x)) /\
  (forall ts h,
     wf h ->
     exists entries h' fp,
       mapM allocTask ts h = Some (entries, h') /\ changes h h' ∅ /\
       reprList true (reprTask true h') ts entries fp /\
       (forall x, x ∈ fp -> next h <= x)).
Proof.
  apply task_and_forest_ind.
  - intros t IH h Hwf. rewrite allocTask_eq.
    destruct (children t) as [c |] eqn:E.
    + destruct (IH c eq_refl h Hwf) as (entries & h1 & fpc & Hrun & Hch & Hl & Hfr).
      destruct Hch as (Hwf1 & Hn1 & Hc1).
      set (h2 := extend h1 (Arr entries)).
      set (h3 := extend h2 (Obj (objOf t (Some (next h1))))).
      exists (next h2), h3, ({[next h2]} ∪ ({[next h1]} ∪ fpc)).
      assert (Hlt : forall x, x ∈ fpc -> x < next h1)
        by (intros x Hx; eapply reprList_lt; eauto).
      split; [rewrite !bind_run, Hrun; reflexivity |].
      split.
      { split; [apply wf_extend, wf_extend, Hwf1 |].
        split; [simpl; lia |]. intros x Hx _.
        unfold h3. rewrite cells_extend_old by (simpl; lia).
        unfold h2. rewrite cells_extend_old by lia. apply Hc1; [lia | set_solver]. }
      split.
      { rewrite reprTask_eq, E. exists (objOf t (Some (next h1))).
        split; [unfold object, h3; rewrite cells_extend_new; reflexivity |].
        split; [reflexivity |].
        exists (next h1), ({[next h1]} ∪ fpc). split; [reflexivity |].
        split.
        { intros _ Hin. apply elem_of_union in Hin as [Hin | Hin].
          - apply elem_of_singleton in Hin. simpl in Hin. lia.
          - apply Hlt in Hin. simpl in Hin. lia. }
        split; [reflexivity |].
        exists entries, fpc. split.
        { unfold array, h3. rewrite cells_extend_old by (simpl; lia).
          unfold h2. rewrite cells_extend_new. reflexivity. }
        split; [intros _ Hin; apply Hlt in Hin; lia |].
        split; [reflexivity |].
        eapply reprList_frame; [exact Hl |]. intros x Hx. apply Hlt in Hx.
        unfold h3. rewrite cells_extend_old by (simpl; lia).
        unfold h2. rewrite cells_extend_old by lia. reflexivity. }
      intros x Hx. apply elem_of_union in Hx as [Hx | Hx].
      * apply elem_of_singleton in Hx. subst x. simpl. lia.
      * apply elem_of_union in Hx as [Hx | Hx].
        -- apply elem_of_singleton in Hx. subst x. lia.
        -- apply Hfr, Hx.
    + exists (next h), (extend h (Obj (objOf t None))), {[next h]}.
      split; [reflexivity |]. split; [apply changes_extend, Hwf |].
      split.
      { rewrite reprTask_eq, E. exists (objOf t None).
        split; [unfold object; rewrite cells_extend_new; reflexivity |].
        split; [reflexivity |]. split; reflexivity. }
      intros x Hx. apply elem_of_singleton in Hx. subst x. lia.
  - intros h Hwf. exists [], h, ∅. split; [reflexivity |].
    split; [apply changes_refl, Hwf |]. split; [reflexivity |]. set_solver.
  - intros t r IHt IHr h Hwf.
    destruct (IHt h Hwf) as (e & h1 & f1 & Hrun1 & Hch1 & Hr1 & Hfr1).
    pose proof Hch1 as (Hwf1 & Hn1 & Hc1).
    destruct (IHr h1 Hwf1) as (es & h2 & f2 & Hrun2 & Hch2 & Hr2 & Hfr2).
    pose proof Hch2 as (Hwf2 & Hn2 & Hc2).
    exists (e :: es), h2, (f1 ∪ f2).
    split; [simpl; rewrite !bind_run, Hrun1, !bind_run, Hrun2; reflexivity |].
    split; [eapply changes_trans; eauto; set_solver |].
    assert (Hlt1 : forall x, x ∈ f1 -> x < next h1)
      by (intros x Hx; eapply reprTask_lt; eauto).
    split.
    { apply reprList_cons; [| exact Hr2 |].
      - eapply reprTask_frame; [exact Hr1 |]. intros x Hx.
        apply Hc2; [apply Hlt1, Hx | set_solver].
      - intros _ x Hx1 Hx2. apply Hlt1 in Hx1. apply Hfr2 in Hx2. lia. }
    intros x Hx. apply elem_of_union in Hx as [Hx | Hx];
      [apply Hfr1, Hx | apply Hfr2 in Hx; lia].
Qed.

(** *** The deletion on a tree of objects *)

Lemma filterM_cons {A : Type} (f : A -> M bool) (x : A) (r : list A) :
  filterM f (x :: r) =
  (b ← f x; ys ← filterM f r; mret (if b : bool then x :: ys else ys)).
Proof. reflexivity. Qed.

Lemma mergeObj_children (t : Task) (c0 : option loc) (a : loc)
    (c : list Task) :
  mergeObj (objOf t c0) (childrenUpdate a) = objOf (withChildren t c) (Some a).
Proof. destruct t; reflexivity. Qed.

Lemma o_children_objOf (t : Task) (c : option loc) :
  o_children (objOf t c) = c.
Proof. reflexivity. Qed.

Lemma o_id_objOf (t : Task) (c : option loc) : o_id (objOf t c) = id t.
Proof. reflexivity. Qed.

Lemma within_lt (h h' : heap) (fp fp' : gset loc) (x : loc) :
  within h fp fp' -> x ∈ fp' -> x < next h -> x ∈ fp.
Proof. intros Hw Hx Hlt. destruct (Hw x Hx) as [H | H]; [exact H | lia]. Qed.

(** The steps of the callback and of the deletion. *)
Lemma deleteCallback_match (recurse : loc -> M loc) (X : string) (l : loc)
    (h : heap) (o : TaskObj) :
  object h l = Some o -> o_id o = X ->
  Heap.deleteCallback recurse X l h = Some (false, h).
Proof.
  intros Ho Hid. unfold Heap.deleteCallback.
  rewrite bind_run, (getObject_run _ _ _ Ho).
  rewrite bool_decide_eq_true_2 by exact Hid. reflexivity.
Qed.

Lemma deleteCallback_leaf (recurse : loc -> M loc) (X : string) (l : loc)
    (h : heap) (o : TaskObj) :
  object h l = Some o -> o_id o <> X -> o_children o = None ->
  Heap.deleteCallback recurse X l h = Some (true, h).
Proof.
  intros Ho Hid Hc. unfold Heap.deleteCallback.
  rewrite bind_run, (getObject_run _ _ _ Ho).
  rewrite bool_decide_eq_false_2, Hc by exact Hid. reflexivity.
Qed.

Lemma deleteCallback_node (recurse : loc -> M loc) (X : string) (l : loc)
    (h h1 : heap) (o o' : TaskObj) (a a' : loc) :
  object h l = Some o -> o_id o <> X -> o_children o = Some a ->
  recurse a h = Some (a', h1) -> object h1 l = Some o' ->
  Heap.deleteCallback recurse X l h
  = Some (true, write h1 l (Obj (mergeObj o' (childrenUpdate a')))).
Proof.
  intros Ho Hid Hc Hrec Ho'. unfold Heap.deleteCallback.
  rewrite bind_run, (getObject_run _ _ _ Ho).
  rewrite bool_decide_eq_false_2, Hc by exact Hid.
  rewrite bind_run, Hrec, bind_run, (getObject_run _ _ _ Ho'). reflexivity.
Qed.

Lemma deleteTaskRecursively_step (fuel : nat) (a : loc) (X : string)
    (h h1 : heap) (entries kept : list loc) :
  array h a = Some entries ->
  filterM (Heap.deleteCallback
             (fun c => Heap.deleteTaskRecursively fuel c X) X) entries h
  = Some (kept, h1) ->
  Heap.deleteTaskRecursively (S fuel) a X h
  = Some (next h1, extend h1 (Arr kept)).
Proof.
  intros He Hrun. simpl.
  rewrite bind_run, (getArray_run _ _ _ He), bind_run, Hrun. reflexivity.
Qed.

Lemma filterM_step {A : Type} (f : A -> M bool) (x : A) (r : list A)
    (h h1 h2 : heap) (b : bool) (ys : list A) :
  f x h = Some (b, h1) -> filterM f r h1 = Some (ys, h2) ->
  filterM f (x :: r) h = Some (if b then x :: ys else ys, h2).
Proof.
  intros Hx Hr. rewrite filterM_cons, bind_run, Hx, bind_run, Hr.
  reflexivity.
Qed.

(** On a tree of objects the deletion, given enough fuel, returns objects
    that stand for what the deletion on values returns; the entries it
    was given then stand for [leftByDelete]; it changes cells of the tree
    only. *)
Lemma delete_run (X : string) :
  (forall t h l fp,
     wf h -> reprTask true h t l fp -> id t <> X ->
     exists n h' t' fp',
       (forall fuel, n <= fuel ->
          Heap.deleteCallback
            (fun c => Heap.deleteTaskRecursively fuel c X) X l h
          = Some (true, h')) /\
       deleteTask X t = Some t' /\
       reprTask true h' t' l fp' /\
       changes h h' fp /\ within h fp fp') /\
  (forall ts h entries fp,
     wf h -> reprList true (reprTask true h) ts entries fp ->
     exists n h' kept fp' fpi,
       (forall fuel, n <= fuel ->
          filterM (Heap.deleteCallback
                     (fun c => Heap.deleteTaskRecursively fuel c X) X)
            entries h
          = Some (kept, h')) /\
       reprList true (reprTask true h') (deleteTaskRecursively ts X)
         kept fp' /\
       reprList true (reprTask true h') (leftByDelete X ts) entries fpi /\
       changes h h' fp /\ within h fp fp' /\ within h fp fpi).
Proof.
  apply task_and_forest_ind.
  - (* one task that is kept *)
    intros t IH h l fp Hwf H Hid. rewrite reprTask_eq in H.
    destruct H as (o & Ho & Hf & Hc).
    assert (Hoid : o_id o <> X) by (rewrite Hf; exact Hid).
    destruct (children t) as [c |] eqn:E.
    + destruct Hc as (a & fpa & Ha & Hsep & -> & entries & fpc & He & Hs2
                      & -> & Hl).
      specialize (Hsep eq_refl). specialize (Hs2 eq_refl).
      destruct (IH c eq_refl h entries fpc Hwf Hl)
        as (n & h1 & kept & fpc' & fpci & Hrun & Hl1 & _ & Hch1 & Hw1 & _).
      pose proof Hch1 as (Hwf1 & Hn1 & Hc1).
      assert (Hllt : l < next h)
        by (apply wf_lt; [exact Hwf | rewrite (object_is_Some _ _ _ Ho); eauto]).
      assert (Hlfpc : l ∉ fpc) by set_solver.
      assert (Hlt1 : forall x, x ∈ fpc' -> x < next h1)
        by (intros x Hx; eapply reprList_lt; eauto).
      assert (Hlfpc' : l ∉ fpc')
        by (intros Hin; apply Hlfpc; eapply within_lt; eauto).
      set (h2 := extend h1 (Arr kept)).
      set (o3 := mergeObj o (childrenUpdate (next h1))).
      set (h3 := write h2 l (Obj o3)).
      assert (Ho2 : object h2 l = Some o).
      { rewrite <- Ho. apply object_cells. unfold h2.
        rewrite cells_extend_old by lia. apply Hc1; assumption. }
      exists (S n), h3, (withChildren t (deleteTaskRecursively c X)),
        ({[l]} ∪ ({[next h1]} ∪ fpc')).
      split.
      { intros fuel Hfuel. destruct fuel as [| fuel]; [lia |].
        apply (deleteCallback_node _ X l h h2 o o a (next h1));
          try assumption.
        apply (deleteTaskRecursively_step fuel a X h h1 entries kept He).
        apply Hrun. lia. }
      split.
      { rewrite deleteTask_eq, bool_decide_eq_false_2, E by exact Hid.
        reflexivity. }
      split.
      { rewrite reprTask_eq, children_withChildren. exists o3.
        split; [unfold object, h3; rewrite cells_write_same; reflexivity |].
        split.
        { unfold o3. rewrite Hf.
          rewrite (mergeObj_children t _ (next h1)
                     (deleteTaskRecursively c X)). reflexivity. }
        exists (next h1), ({[next h1]} ∪ fpc').
        split; [unfold o3; rewrite Hf; reflexivity |].
        split.
        { intros _ Hin. apply elem_of_union in Hin as [Hin | Hin];
            [apply elem_of_singleton in Hin; lia | exact (Hlfpc' Hin)]. }
        split; [reflexivity |].
        exists kept, fpc'. split.
        { unfold array, h3. rewrite cells_write_other by lia.
          unfold h2. rewrite cells_extend_new. reflexivity. }
        split; [intros _ Hin; apply Hlt1 in Hin; lia |].
        split; [reflexivity |].
        eapply reprList_frame; [exact Hl1 |]. intros x Hx.
        unfold h3. rewrite cells_write_other by (intros ->; exact (Hlfpc' Hx)).
        unfold h2. apply cells_extend_old, Hlt1, Hx. }
      split.
      { split; [apply wf_write; [apply wf_extend, Hwf1 | simpl; lia] |].
        split; [simpl; lia |]. intros x Hx Hfp.
        unfold h3. rewrite cells_write_other by set_solver.
        unfold h2. rewrite cells_extend_old by lia.
        apply Hc1; [exact Hx | set_solver]. }
      intros x Hx. apply elem_of_union in Hx as [Hx | Hx]; [left; set_solver |].
      apply elem_of_union in Hx as [Hx | Hx].
      * apply elem_of_singleton in Hx. right. lia.
      * destruct (Hw1 x Hx) as [Hin | Hge]; [left; set_solver | right; exact Hge].
    + destruct Hc as [Hn ->].
      exists 0, h, t, {[l]}.
      split; [intros fuel _; eapply deleteCallback_leaf; eassumption |].
      split.
      { rewrite deleteTask_eq, bool_decide_eq_false_2, E by exact Hid.
        reflexivity. }
      split.
      { rewrite reprTask_eq, E. exists o. repeat split; assumption. }
      split; [apply changes_refl, Hwf |]. intros x Hx. left. exact Hx.
  - (* no entry *)
    intros h entries fp Hwf H. apply reprList_nil_inv in H as [-> ->].
    exists 0, h, [], ∅, ∅.
    split; [reflexivity |]. split; [reflexivity |]. split; [reflexivity |].
    split; [apply changes_refl, Hwf |].
    split; intros x Hx; left; exact Hx.
  - (* an entry and the rest *)
    intros t r IHt IHr h entries fp Hwf H.
    apply reprList_cons_inv in H
      as (e & es & f1 & f2 & -> & H1 & H2 & H3 & ->).
    specialize (H3 eq_refl).
    assert (Hlt1 : forall x, x ∈ f1 -> x < next h)
      by (intros x Hx; exact (reprTask_lt true h t e f1 x Hwf H1 Hx)).
    assert (Hlt2 : forall x, x ∈ f2 -> x < next h)
      by (intros x Hx; exact (reprList_lt true h r es f2 x Hwf H2 Hx)).
    rewrite deleteTaskRecursively_cons.
    unfold leftByDelete. rewrite map_cons. fold (leftByDelete X r).
    destruct (decide (id t = X)) as [Hid | Hid].
    + (* the entry goes *)
      destruct (IHr h es f2 Hwf H2)
        as (n & h' & kept & fp' & fpi & Hrun & Hl' & Hli & Hch & Hw & Hwi).
      pose proof Hch as (Hwf' & Hnx' & Hc').
      exists n, h', kept, fp', (f1 ∪ fpi).
      pose proof H1 as H1'. rewrite reprTask_eq in H1'.
      destruct H1' as (o & Ho & Hf & _).
      rewrite deleteTask_eq, bool_decide_eq_true_2 by exact Hid.
      split.
      { intros fuel Hfuel.
        apply (filterM_step _ e es h h h' false kept); [| apply Hrun, Hfuel].
        eapply deleteCallback_match; [exact Ho |]. rewrite Hf. exact Hid. }
      split; [exact Hl' |].
      split.
      { apply reprList_cons; [| exact Hli |].
        - eapply reprTask_frame; [exact H1 |]. intros x Hx.
          apply Hc'; [apply Hlt1, Hx |]. intros Hin. exact (H3 x Hx Hin).
        - intros _ x Hx1 Hx2. destruct (Hwi x Hx2) as [Hin | Hge].
          + exact (H3 x Hx1 Hin).
          + apply Hlt1 in Hx1. lia. }
      split; [eapply changes_weaken; [exact Hch |]; set_solver |].
      split.
      * intros x Hx. destruct (Hw x Hx) as [Hin | Hge];
          [left; set_solver | right; exact Hge].
      * intros x Hx. apply elem_of_union in Hx as [Hx | Hx];
          [left; set_solver |].
        destruct (Hwi x Hx) as [Hin | Hge];
          [left; set_solver | right; exact Hge].
    + (* the entry stays *)
      destruct (IHt h e f1 Hwf H1 Hid)
        as (n1 & h1 & t' & f1' & Hrun1 & Hd1 & Hr1 & Hch1 & Hw1).
      pose proof Hch1 as (Hwf1 & Hnx1 & Hc1).
      assert (Hr2 : reprList true (reprTask true h1) r es f2).
      { eapply reprList_frame; [exact H2 |]. intros x Hx.
        apply Hc1; [apply Hlt2, Hx |]. intros Hin. exact (H3 x Hin Hx). }
      destruct (IHr h1 es f2 Hwf1 Hr2)
        as (n2 & h2 & kept & f2' & f2i & Hrun2 & Hl2 & Hl2i & Hch2 & Hw2
            & Hw2i).
      pose proof Hch2 as (Hwf2 & Hnx2 & Hc2).
      assert (Hlt1' : forall x, x ∈ f1' -> x < next h1)
        by (intros x Hx; exact (reprTask_lt true h1 t' e f1' x Hwf1 Hr1 Hx)).
      assert (Hdis : forall x, x ∈ f1' -> x ∉ f2).
      { intros x Hx Hx2. destruct (Hw1 x Hx) as [Hin | Hge].
        - exact (H3 x Hin Hx2).
        - apply Hlt2 in Hx2. lia. }
      assert (Hr1' : reprTask true h2 t' e f1').
      { eapply reprTask_frame; [exact Hr1 |]. intros x Hx.
        apply Hc2; [apply Hlt1', Hx | apply Hdis, Hx]. }
      exists (n1 + n2), h2, (e :: kept), (f1' ∪ f2'), (f1' ∪ f2i).
      split.
      { intros fuel Hfuel.
        apply (filterM_step _ e es h h1 h2 true kept);
          [apply Hrun1 | apply Hrun2]; lia. }
      rewrite Hd1. split.
      { apply reprList_cons; [exact Hr1' | exact Hl2 |].
        intros _ x Hx1 Hx2. destruct (Hw2 x Hx2) as [Hin | Hge].
        - exact (Hdis x Hx1 Hin).
        - apply Hlt1' in Hx1. lia. }
      split.
      { apply reprList_cons; [exact Hr1' | exact Hl2i |].
        intros _ x Hx1 Hx2. destruct (Hw2i x Hx2) as [Hin | Hge].
        - exact (Hdis x Hx1 Hin).
        - apply Hlt1' in Hx1. lia. }
      split.
      { eapply changes_trans; [exact Hch1 | exact Hch2 | |]; set_solver. }
      split.
      * intros x Hx. apply elem_of_union in Hx as [Hx | Hx].
        -- destruct (Hw1 x Hx) as [Hin | Hge];
             [left; set_solver | right; exact Hge].
        -- destruct (Hw2 x Hx) as [Hin | Hge];
             [left; set_solver | right; lia].
      * intros x Hx. apply elem_of_union in Hx as [Hx | Hx].
        -- destruct (Hw1 x Hx) as [Hin | Hge];
             [left; set_solver | right; exact Hge].
        -- destruct (Hw2i x Hx) as [Hin | Hge];
             [left; set_solver | right; lia].
Qed.

(** The forest made of fresh objects in the empty store. *)
Lemma allocForest_repr (ts : list Task) :
  exists a h entries fp,
    allocForest ts emptyHeap = Some (a, h) /\ wf h /\
    array h a = Some entries /\ (a ∉ fp) /\
    reprList true (reprTask true h) ts entries fp.
Proof.
  destruct (proj2 alloc_repr ts emptyHeap wf_emptyHeap)
    as (entries & h1 & fp & Hrun & (Hwf1 & Hn1 & Hc1) & Hl & Hfr).
  assert (Hlt : forall x, x ∈ fp -> x < next h1)
    by (intros x Hx; eapply reprList_lt; eauto).
  exists (next h1), (extend h1 (Arr entries)), entries, fp.
  split; [unfold allocForest; rewrite bind_run, Hrun; reflexivity |].
  split; [apply wf_extend, Hwf1 |].
  split; [unfold array; rewrite cells_extend_new; reflexivity |].
  split; [intros Hin; apply Hlt in Hin; lia |].
  eapply reprList_frame; [exact Hl |]. intros x Hx.
  apply cells_extend_old, Hlt, Hx.
Qed.

(** Reading an array whose entries stand for a forest. *)
Lemma readForest_repr (sep : bool) (h : heap) (a : loc)
    (entries : list loc) (ts : list Task) (fp : gset loc) :
  array h a = Some entries ->
  reprList sep (reprTask sep h) ts entries fp ->
  exists n, forall fuel, n <= fuel -> readForest fuel h a = Some ts.
Proof.
  intros Ha Hl. destruct (proj2 (repr_read sep h) ts entries fp Hl) as [n Hn].
  exists n. intros fuel Hfuel. unfold readForest. rewrite Ha. simpl.
  apply Hn, Hfuel.
Qed.

Lemma returnedBy_run (fuel : nat) (ts : list Task) (call : loc -> M loc)
    (a r : loc) (h h1 : heap) :
  allocForest ts emptyHeap = Some (a, h) -> call a h = Some (r, h1) ->
  Heap.returnedBy fuel ts call = readForest fuel h1 r.
Proof.
  intros Hal Hcall. unfold Heap.returnedBy. rewrite Hal. simpl.
  rewrite Hcall. reflexivity.
Qed.

Lemma inputAfter_run (fuel : nat) (ts : list Task) (call : loc -> M loc)
    (a r : loc) (h h1 : heap) :
  allocForest ts emptyHeap = Some (a, h) -> call a h = Some (r, h1) ->
  Heap.inputAfter fuel ts call = readForest fuel h1 a.
Proof.
  intros Hal Hcall. unfold Heap.inputAfter. rewrite Hal. simpl.
  rewrite Hcall. reflexivity.
Qed.

(** For every forest and every id, the deletion run on fresh objects of
    the forest returns, given enough fuel, the forest the deletion on
    values returns; the forest it was given is [leftByDelete] after the
    call. *)
Theorem delete_on_store (T : list Task) (X : string) :
  exists n, forall fuel, n <= fuel ->
    Heap.returnedBy fuel T (Heap.deleteCall fuel X)
    = Some (deleteTaskRecursively T X) /\
    Heap.inputAfter fuel T (Heap.deleteCall fuel X)
    = Some (leftByDelete X T).
Proof.
  destruct (allocForest_repr T) as (a & h & entries & fp & Hal & Hwf & Ha
                                    & Hafp & Hl).
  destruct (proj2 (delete_run X) T h entries fp Hwf Hl)
    as (n1 & h1 & kept & fp' & fpi & Hrun & Hl1 & Hli & (Hwf1 & Hn1 & Hc1)
        & Hw1 & Hwi).
  assert (Halt : a < next h)
    by (apply wf_lt; [exact Hwf | rewrite (array_is_Some _ _ _ Ha); eauto]).
  assert (Hlt : forall x, x ∈ fp' -> x < next h1)
    by (intros x Hx; exact (reprList_lt true h1 _ kept fp' x Hwf1 Hl1 Hx)).
  assert (Hlti : forall x, x ∈ fpi -> x < next h1)
    by (intros x Hx; exact (reprList_lt true h1 _ entries fpi x Hwf1 Hli Hx)).
  destruct (readForest_repr true (extend h1 (Arr kept)) (next h1) kept
              (deleteTaskRecursively T X) fp') as [n2 Hn2].
  { unfold array. rewrite cells_extend_new. reflexivity. }
  { eapply reprList_frame; [exact Hl1 |]. intros x Hx.
    apply cells_extend_old, Hlt, Hx. }
  destruct (readForest_repr true (extend h1 (Arr kept)) a entries
              (leftByDelete X T) fpi) as [n3 Hn3].
  { rewrite <- Ha. apply array_cells. rewrite cells_extend_old by lia.
    apply Hc1; assumption. }
  { eapply reprList_frame; [exact Hli |]. intros x Hx.
    apply cells_extend_old, Hlti, Hx. }
  exists (S n1 + n2 + n3). intros fuel Hfuel.
  destruct fuel as [| fuel]; [lia |].
  assert (Hcall : Heap.deleteCall (S fuel) X a h
                  = Some (next h1, extend h1 (Arr kept))).
  { apply (deleteTaskRecursively_step fuel a X h h1 entries kept Ha).
    apply Hrun. lia. }
  rewrite (returnedBy_run _ T _ a _ h _ Hal Hcall).
  rewrite (inputAfter_run _ T _ a _ h _ Hal Hcall).
  split; [apply Hn2 | apply Hn3]; lia.
Qed.

(** *** The insertion on a tree of objects *)

(** The steps of the loop of [insertTask]. *)
Lemma insertTask_end (fuel : nat) (n : loc) (position : Position)
    (X : string) (a : loc) (i : nat) (h : heap) (entries : list loc) :
  array h a = Some entries -> entries !! i = None ->
  Heap.insertTask (S fuel) n position X a i h = Some (a, h).
Proof.
  intros Ha Hi. simpl. rewrite bind_run, (getArray_run _ _ _ Ha), Hi.
  reflexivity.
Qed.

Lemma insertTask_above (fuel : nat) (n : loc) (X : string) (a : loc)
    (i : nat) (h : heap) (entries : list loc) (e : loc) (o : TaskObj) :
  array h a = Some entries -> entries !! i = Some e ->
  object h e = Some o -> o_id o = X ->
  Heap.insertTask (S fuel) n above X a i h
  = Some (a, write h a (Arr (take i entries ++ n :: drop i entries))).
Proof.
  intros Ha Hi Ho Hid. simpl.
  rewrite bind_run, (getArray_run _ _ _ Ha), Hi.
  rewrite bind_run, (getObject_run _ _ _ Ho).
  rewrite bool_decide_eq_true_2 by exact Hid. reflexivity.
Qed.

Lemma insertTask_below (fuel : nat) (n : loc) (X : string) (a : loc)
    (i : nat) (h : heap) (entries : list loc) (e : loc) (o : TaskObj) :
  array h a = Some entries -> entries !! i = Some e ->
  object h e = Some o -> o_id o = X ->
  Heap.insertTask (S fuel) n below X a i h
  = Some (a, write h a (Arr (take (S i) entries ++ n :: drop (S i) entries))).
Proof.
  intros Ha Hi Ho Hid. simpl.
  rewrite bind_run, (getArray_run _ _ _ Ha), Hi.
  rewrite bind_run, (getObject_run _ _ _ Ho).
  rewrite bool_decide_eq_true_2 by exact Hid. reflexivity.
Qed.

Lemma insertTask_subtask (fuel : nat) (n : loc) (X : string) (a : loc)
    (i : nat) (h : heap) (entries : list loc) (e : loc) (o no : TaskObj)
    (old : list loc) :
  array h a = Some entries -> entries !! i = Some e ->
  object h e = Some o -> o_id o = X ->
  match o_children o with
  | Some c => array h c = Some old
  | None => old = []
  end ->
  object h n = Some no ->
  Heap.insertTask (S fuel) n subtask X a i h
  = Some (a,
          write
            (extend
               (extend (extend h (Obj (mergeObj no (parentUpdate X))))
                  (Arr (old ++ [next h])))
               (Obj (mergeObj (mergeObj o (childrenUpdate (S (next h))))
                       (expansionUpdate true))))
            a (Arr (<[i := S (S (next h))]> entries))).
Proof.
  intros Ha Hi Ho Hid Hold Hn. simpl.
  rewrite bind_run, (getArray_run _ _ _ Ha), Hi.
  rewrite bind_run, (getObject_run _ _ _ Ho).
  rewrite bool_decide_eq_true_2 by exact Hid.
  rewrite bind_run.
  assert (Hget : (match o_children o with
                  | Some c => getArray c
                  | None => mret []
                  end) h = Some (old, h)).
  { destruct (o_children o) as [c |].
    - apply getArray_run, Hold.
    - subst old. reflexivity. }
  rewrite Hget, bind_run, (getObject_run _ _ _ Hn). reflexivity.
Qed.

Lemma insertTask_skip_leaf (fuel : nat) (n : loc) (position : Position)
    (X : string) (a : loc) (i : nat) (h : heap) (entries : list loc)
    (e : loc) (o : TaskObj) :
  array h a = Some entries -> entries !! i = Some e ->
  object h e = Some o -> o_id o <> X -> o_children o = None ->
  Heap.insertTask (S fuel) n position X a i h
  = Heap.insertTask fuel n position X a (S i) h.
Proof.
  intros Ha Hi Ho Hid Hc. simpl.
  rewrite bind_run, (getArray_run _ _ _ Ha), Hi.
  rewrite bind_run, (getObject_run _ _ _ Ho).
  rewrite bool_decide_eq_false_2, Hc by exact Hid. reflexivity.
Qed.

Lemma insertTask_skip_node (fuel : nat) (n : loc) (position : Position)
    (X : string) (a : loc) (i : nat) (h h1 : heap)
    (entries entries' : list loc) (e e' : loc) (o o' : TaskObj)
    (c c' : loc) :
  array h a = Some entries -> entries !! i = Some e ->
  object h e = Some o -> o_id o <> X -> o_children o = Some c ->
  Heap.insertTask fuel n position X c 0 h = Some (c', h1) ->
  array h1 a = Some entries' -> entries' !! i = Some e' ->
  object h1 e' = Some o' ->
  Heap.insertTask (S fuel) n position X a i h
  = Heap.insertTask fuel n position X a (S i)
      (write (extend h1 (Obj (mergeObj o' (childrenUpdate c'))))
         a (Arr (<[i := next h1]> entries'))).
Proof.
  intros Ha Hi Ho Hid Hc Hrec Ha' Hi' Ho'. simpl.
  rewrite bind_run, (getArray_run _ _ _ Ha), Hi.
  rewrite bind_run, (getObject_run _ _ _ Ho).
  rewrite bool_decide_eq_false_2, Hc by exact Hid.
  rewrite bind_run, bind_run, Hrec, bind_run, (getArray_run _ _ _ Ha'), Hi'.
  rewrite bind_run, (getObject_run _ _ _ Ho'). reflexivity.
Qed.

Lemma objOf_withChildren (t : Task) (c : list Task) (c0 : option loc) :
  objOf (withChildren t c) c0 = objOf t c0.
Proof. destruct t; reflexivity. Qed.

Lemma mergeObj_addSubtask (t newTask : Task) (X : string) (c0 : option loc)
    (arr : loc) :
  mergeObj (mergeObj (objOf t c0) (childrenUpdate arr)) (expansionUpdate true)
  = objOf (addSubtask t newTask X) (Some arr).
Proof. destruct t; reflexivity. Qed.

Lemma mergeObj_parentUpdate (t : Task) (X : string) (c0 : option loc) :
  mergeObj (objOf t c0) (parentUpdate X)
  = objOf (mergeTask t (parentUpdate X)) c0.
Proof. destruct t; reflexivity. Qed.

Lemma children_parentUpdate (t : Task) (X : string) :
  children (mergeTask t (parentUpdate X)) = children t.
Proof. reflexivity. Qed.

Lemma children_addSubtask (t newTask : Task) (X : string) :
  children (addSubtask t newTask X)
  = Some (default [] (children t) ++ [mergeTask newTask (parentUpdate X)]).
Proof. reflexivity. Qed.

(** An object with a children array stands for a task with children. *)
Lemma reprTask_node (h : heap) (t : Task) (l : loc) (o : TaskObj) (a : loc)
    (entries : list loc) (ts : list Task) (fpc : gset loc) :
  object h l = Some o -> o = objOf t (Some a) -> children t = Some ts ->
  array h a = Some entries ->
  reprList false (reprTask false h) ts entries fpc ->
  reprTask false h t l ({[l]} ∪ ({[a]} ∪ fpc)).
Proof.
  intros Ho Hf Hc Ha Hl. rewrite reprTask_eq, Hc. exists o.
  split; [exact Ho |]. split; [rewrite Hf; reflexivity |].
  exists a, ({[a]} ∪ fpc). split; [rewrite Hf; reflexivity |].
  split; [discriminate |]. split; [reflexivity |].
  exists entries, fpc. split; [exact Ha |]. split; [discriminate |].
  split; [reflexivity | exact Hl].
Qed.

Lemma reprList_app (h : heap) (ts1 ts2 : list Task) (es1 es2 : list loc)
    (f1 f2 : gset loc) :
  reprList false (reprTask false h) ts1 es1 f1 ->
  reprList false (reprTask false h) ts2 es2 f2 ->
  exists f,
    reprList false (reprTask false h) (ts1 ++ ts2) (es1 ++ es2) f /\
    forall x, x ∈ f -> x ∈ f1 \/ x ∈ f2.
Proof.
  revert es1 f1. induction ts1 as [| t r IH]; intros es1 f1 H1 H2.
  - apply reprList_nil_inv in H1 as [-> ->]. exists f2. split; [exact H2 |].
    intros x Hx. right. exact Hx.
  - apply reprList_cons_inv in H1
      as (e & es & g1 & g2 & -> & Ht & Hr & _ & ->).
    destruct (IH es g2 Hr H2) as (f & Hf & Hsub).
    exists (g1 ∪ f). split.
    + apply reprList_cons; [exact Ht | exact Hf | discriminate].
    + intros x Hx. apply elem_of_union in Hx as [Hx | Hx];
        [left; set_solver |].
      destruct (Hsub x Hx) as [H | H]; [left; set_solver | right; exact H].
Qed.

(** The copy of the new task with its parentId set. *)
Lemma reprTask_child (h h' : heap) (newTask : Task) (n child : loc)
    (fn : gset loc) (no : TaskObj) (X : string) :
  reprTask false h newTask n fn -> object h n = Some no ->
  object h' child = Some (mergeObj no (parentUpdate X)) ->
  (forall x, x ∈ fn -> cells h' !! x = cells h !! x) ->
  exists fc,
    reprTask false h' (mergeTask newTask (parentUpdate X)) child fc /\
    forall x, x ∈ fc -> x = child \/ x ∈ fn.
Proof.
  intros Hn Hno Hchild Hfr. rewrite reprTask_eq in Hn.
  destruct Hn as (o & Ho & Hf & Hc). rewrite Hno in Ho. injection Ho as <-.
  destruct (children newTask) as [c |] eqn:E.
  - destruct Hc as (a & fpa & Ha & _ & -> & entries & fpc & He & _ & -> & Hl).
    rewrite Ha in Hf.
    exists ({[child]} ∪ ({[a]} ∪ fpc)). split.
    + apply (reprTask_node h' _ child (mergeObj no (parentUpdate X)) a
               entries c fpc).
      * exact Hchild.
      * rewrite Hf. apply mergeObj_parentUpdate.
      * rewrite children_parentUpdate. exact E.
      * rewrite (array_cells h h' a); [exact He | apply Hfr; set_solver].
      * eapply reprList_frame; [exact Hl |]. intros x Hx. apply Hfr.
        set_solver.
    + intros x Hx. apply elem_of_union in Hx as [Hx | Hx];
        [left; set_solver | right; set_solver].
  - destruct Hc as [Hn ->]. rewrite Hn in Hf.
    exists {[child]}. split.
    + rewrite reprTask_eq, children_parentUpdate, E.
      exists (mergeObj no (parentUpdate X)).
      split; [exact Hchild |]. rewrite Hf, mergeObj_parentUpdate.
      split; [reflexivity |]. split; reflexivity.
    + intros x Hx. left. set_solver.
Qed.

Section InsertRun.

Variables (newTask : Task) (position : Position) (X : string).
Variables (n : loc) (fn : gset loc).

Lemma insert_run_nil : insertRunSpec newTask position X n fn [].
Proof.
  intros h a done es fp Hwf Ha Hl Hafp Hn Hdis Hafn.
  apply reprList_nil_inv in Hl as [-> ->].
  exists 1, h, [], ∅, ∅.
  split.
  { intros fuel Hfuel. destruct fuel as [| fuel]; [lia |].
    apply (insertTask_end _ _ _ _ _ _ _ _ Ha).
    rewrite app_nil_r. apply lookup_ge_None. lia. }
  split; [exact Ha |]. split; [reflexivity |]. split; [reflexivity |].
  split; [apply changes_refl, Hwf |]. set_solver.
Qed.

(** The target is the first entry. *)
Lemma insert_run_match (t : Task) (r : list Task) :
  id t = X -> insertRunSpec newTask position X n fn (t :: r).
Proof.
  intros Hid h a done es fp Hwf Ha Hl Hafp Hn Hdis Hafn.
  pose proof (proj2 (repr_weaken h) _ _ _ Hl) as Hlw.
  apply reprList_cons_inv in Hl
    as (e & es_r & f1 & f2 & -> & H1 & H2 & H3 & ->).
  pose proof H1 as H1'. rewrite reprTask_eq in H1'.
  destruct H1' as (o & Ho & Hf & Hc).
  assert (Hoid : o_id o = X) by (rewrite Hf; exact Hid).
  assert (Halt : a < next h)
    by (apply wf_lt; [exact Hwf | rewrite (array_is_Some _ _ _ Ha); eauto]).
  assert (Hlook : (done ++ e :: es_r) !! length done = Some e)
    by (apply list_lookup_middle; reflexivity).
  assert (Hfnlt : forall x, x ∈ fn -> x < next h)
    by (intros x Hx; eapply reprTask_lt; eauto).
  assert (Hfplt : forall x, x ∈ f1 ∪ f2 -> x < next h)
    by (intros x Hx; eapply (reprList_lt false); eauto).
  rewrite insertTask_cons, bool_decide_eq_true_2 by exact Hid.
  assert (Hleft : leftByInsert newTask position X (t :: r) = t :: r)
    by (simpl; rewrite bool_decide_eq_true_2 by exact Hid; reflexivity).
  rewrite Hleft.
  destruct position eqn:Epos.
  - (* above *)
    set (h' := write h a (Arr (done ++ n :: e :: es_r))).
    assert (Hfr : forall x, x <> a -> cells h' !! x = cells h !! x)
      by (intros x Hx; apply cells_write_other, Hx).
    assert (Hlw' : reprList false (reprTask false h') (t :: r) (e :: es_r)
                     (f1 ∪ f2)).
    { eapply reprList_frame; [exact Hlw |]. intros x Hx. apply Hfr.
      intros ->. exact (Hafp Hx). }
    exists 1, h', (n :: e :: es_r), (fn ∪ (f1 ∪ f2)), (f1 ∪ f2).
    split.
    { intros fuel Hfuel. destruct fuel as [| fuel]; [lia |].
      rewrite (insertTask_above _ _ _ _ _ _ _ _ _ Ha Hlook Ho Hoid).
      rewrite take_app_length, drop_app_length. reflexivity. }
    split; [unfold array, h'; rewrite cells_write_same; reflexivity |].
    split.
    { apply reprList_cons; [| exact Hlw' | discriminate].
      eapply reprTask_frame; [exact Hn |]. intros x Hx. apply Hfr.
      intros ->. exact (Hafn Hx). }
    split; [exact Hlw' |].
    split; [apply changes_write; [exact Hwf | exact Halt | set_solver] |].
    intros x Hx. set_solver.
  - (* below *)
    set (h' := write h a (Arr (done ++ e :: n :: es_r))).
    assert (Hfr : forall x, x <> a -> cells h' !! x = cells h !! x)
      by (intros x Hx; apply cells_write_other, Hx).
    assert (Hlw' : reprList false (reprTask false h') (t :: r) (e :: es_r)
                     (f1 ∪ f2)).
    { eapply reprList_frame; [exact Hlw |]. intros x Hx. apply Hfr.
      intros ->. exact (Hafp Hx). }
    pose proof Hlw' as Hlw''.
    apply reprList_cons_inv in Hlw''
      as (e0 & es0 & g1 & g2 & Heq & Ht' & Hr' & _ & Hg).
    injection Heq as <- <-.
    exists 1, h', (e :: n :: es_r), (g1 ∪ (fn ∪ g2)), (f1 ∪ f2).
    split.
    { intros fuel Hfuel. destruct fuel as [| fuel]; [lia |].
      rewrite (insertTask_below _ _ _ _ _ _ _ _ _ Ha Hlook Ho Hoid).
      rewrite (cons_middle e done es_r), app_assoc.
      replace (S (length done)) with (length (done ++ [e]))
        by (rewrite length_app; simpl; lia).
      rewrite take_app_length, drop_app_length, <- app_assoc. reflexivity. }
    split; [unfold array, h'; rewrite cells_write_same; reflexivity |].
    split.
    { apply reprList_cons; [exact Ht' | | discriminate].
      apply reprList_cons; [| exact Hr' | discriminate].
      eapply reprTask_frame; [exact Hn |]. intros x Hx. apply Hfr.
      intros ->. exact (Hafn Hx). }
    split; [exact Hlw' |].
    split; [apply changes_write; [exact Hwf | exact Halt | set_solver] |].
    intros x Hx. set_solver.
  - (* subtask *)
    pose proof Hn as Hn'. rewrite reprTask_eq in Hn'.
    destruct Hn' as (no & Hno & _ & _).
    assert (Hold : exists old fpc,
               match o_children o with
               | Some c => array h c = Some old
               | None => old = []
               end /\
               reprList false (reprTask false h) (default [] (children t))
                 old fpc /\
               forall x, x ∈ fpc -> x ∈ f1).
    { destruct (children t) as [c |] eqn:E.
      - destruct Hc as (ac & fpa & Hac & _ & -> & old & fpc & He & _ & ->
                        & Hlc).
        exists old, fpc. rewrite Hac. split; [exact He |].
        split; [exact (proj2 (repr_weaken h) _ _ _ Hlc) |]. set_solver.
      - destruct Hc as [Hnone _]. exists [], ∅. rewrite Hnone.
        split; [reflexivity |]. split; [reflexivity |]. set_solver. }
    destruct Hold as (old & fpc & Hold & Hlold & Hfpc).
    set (child := next h). set (arr := S (next h)). set (u := S (S (next h))).
    set (h1 := extend h (Obj (mergeObj no (parentUpdate X)))).
    set (h2 := extend h1 (Arr (old ++ [child]))).
    set (oupd := mergeObj (mergeObj o (childrenUpdate arr))
                   (expansionUpdate true)).
    set (h3 := extend h2 (Obj oupd)).
    set (h' := write h3 a (Arr (<[length done := u]> (done ++ e :: es_r)))).
    assert (Hfr : forall x, x < next h -> x <> a ->
                            cells h' !! x = cells h !! x).
    { intros x Hx Hxa. unfold h'. rewrite cells_write_other by exact Hxa.
      unfold h3. rewrite cells_extend_old by (simpl; lia).
      unfold h2. rewrite cells_extend_old by (simpl; lia).
      unfold h1. apply cells_extend_old, Hx. }
    assert (Hlw' : reprList false (reprTask false h') (t :: r) (e :: es_r)
                     (f1 ∪ f2)).
    { eapply reprList_frame; [exact Hlw |]. intros x Hx.
      apply Hfr; [apply Hfplt, Hx |]. intros ->. exact (Hafp Hx). }
    pose proof Hlw' as Hlw''.
    apply reprList_cons_inv in Hlw''
      as (e0 & es0 & g1 & g2 & Heq & Ht' & Hr' & _ & Hg).
    injection Heq as <- <-.
    assert (Hchild : object h' child = Some (mergeObj no (parentUpdate X))).
    { unfold object, h'. rewrite cells_write_other by (unfold child; lia).
      unfold h3. rewrite cells_extend_old by (simpl; unfold child; lia).
      unfold h2. rewrite cells_extend_old by (simpl; unfold child; lia).
      unfold h1, child. rewrite cells_extend_new. reflexivity. }
    destruct (reprTask_child h h' newTask n child fn no X Hn Hno Hchild)
      as (fc & Hrc & Hfc).
    { intros x Hx. apply Hfr; [apply Hfnlt, Hx |]. intros ->.
      exact (Hafn Hx). }
    destruct (reprList_app h' (default [] (children t))
                [mergeTask newTask (parentUpdate X)] old [child] fpc
                (fc ∪ ∅)) as (fall & Hall & Hfall).
    { eapply reprList_frame; [exact Hlold |]. intros x Hx.
      apply Hfr; [apply Hfplt; set_solver |]. intros ->.
      apply Hafp. set_solver. }
    { apply reprList_cons; [exact Hrc | reflexivity | discriminate]. }
    exists 1, h', (u :: es_r), (({[u]} ∪ ({[arr]} ∪ fall)) ∪ g2), (f1 ∪ f2).
    split.
    { intros fuel Hfuel. destruct fuel as [| fuel]; [lia |].
      exact (insertTask_subtask _ _ _ _ _ _ _ _ _ _ old Ha Hlook Ho Hoid
               Hold Hno). }
    split.
    { unfold array, h'. rewrite cells_write_same.
      rewrite insert_app_r_alt, Nat.sub_diag by lia. reflexivity. }
    split.
    { apply reprList_cons; [| exact Hr' | discriminate].
      apply (reprTask_node h' _ u oupd arr (old ++ [child])
               (default [] (children t) ++
                [mergeTask newTask (parentUpdate X)]) fall).
      - unfold object, h'. rewrite cells_write_other by (unfold u; lia).
        unfold h3, u. change (S (S (next h))) with (next h2).
        rewrite cells_extend_new. reflexivity.
      - unfold oupd. rewrite Hf. apply mergeObj_addSubtask.
      - apply children_addSubtask.
      - unfold array, h'. rewrite cells_write_other by (unfold arr; lia).
        unfold h3. rewrite cells_extend_old by (simpl; unfold arr; lia).
        unfold h2, arr. change (S (next h)) with (next h1).
        rewrite cells_extend_new. reflexivity.
      - exact Hall. }
    split; [exact Hlw' |].
    split.
    { split.
      - unfold h'. apply wf_write; [| simpl; lia].
        apply wf_extend, wf_extend, wf_extend, Hwf.
      - split; [simpl; lia |]. intros x Hx Hxfp. apply Hfr; [exact Hx |].
        set_solver. }
    intros x Hx. apply elem_of_union in Hx as [Hx | Hx]; [| set_solver].
    apply elem_of_union in Hx as [Hx | Hx]; [| set_solver].
    apply elem_of_union in Hx as [Hx | Hx];
      [apply elem_of_singleton in Hx; right; right; unfold u in Hx; lia |].
    apply elem_of_union in Hx as [Hx | Hx];
      [apply elem_of_singleton in Hx; right; right; unfold arr in Hx; lia |].
    destruct (Hfall x Hx) as [Hin | Hin]; [left; set_solver |].
    apply elem_of_union in Hin as [Hin | Hin]; [| set_solver].
    destruct (Hfc x Hin) as [-> | Hin']; [right; right; unfold child; lia |].
    right. left. exact Hin'.
Qed.

(** The first entry is another task: its children, then the rest. *)
Lemma insert_run_skip (t : Task) (r : list Task) :
  id t <> X ->
  (forall c, children t = Some c ->
             insertRunSpec newTask position X n fn c) ->
  insertRunSpec newTask position X n fn r ->
  insertRunSpec newTask position X n fn (t :: r).
Proof.
  intros Hid IHc IHr h a done es fp Hwf Ha Hl Hafp Hn Hdis Hafn.
  apply reprList_cons_inv in Hl
    as (e & es_r & f1 & f2 & -> & H1 & H2 & H3 & ->).
  specialize (H3 eq_refl).
  pose proof H1 as H1'. rewrite reprTask_eq in H1'.
  destruct H1' as (o & Ho & Hf & Hc).
  assert (Hoid : o_id o <> X) by (rewrite Hf; exact Hid).
  assert (Halt : a < next h)
    by (apply wf_lt; [exact Hwf | rewrite (array_is_Some _ _ _ Ha); eauto]).
  assert (Hlook : (done ++ e :: es_r) !! length done = Some e)
    by (apply list_lookup_middle; reflexivity).
  assert (Hfnlt : forall x, x ∈ fn -> x < next h)
    by (intros x Hx; exact (reprTask_lt false h newTask n fn x Hwf Hn Hx)).
  assert (Hlt1 : forall x, x ∈ f1 -> x < next h)
    by (intros x Hx; exact (reprTask_lt true h t e f1 x Hwf H1 Hx)).
  assert (Hlt2 : forall x, x ∈ f2 -> x < next h)
    by (intros x Hx; exact (reprList_lt true h r es_r f2 x Hwf H2 Hx)).
  assert (Haf1 : a ∉ f1) by (intros Hin; apply Hafp, elem_of_union; left; exact Hin).
  assert (Haf2 : a ∉ f2) by (intros Hin; apply Hafp, elem_of_union; right; exact Hin).
  assert (Hdone : length (done ++ [e]) = S (length done))
    by (rewrite length_app; simpl; lia).
  rewrite insertTask_cons, bool_decide_eq_false_2 by exact Hid.
  assert (Hleft : leftByInsert newTask position X (t :: r)
                  = insertBelow newTask position X t ::
                    leftByInsert newTask position X r)
    by (simpl; rewrite bool_decide_eq_false_2 by exact Hid; reflexivity).
  rewrite Hleft, insertBelow_eq.
  destruct (children t) as [c |] eqn:E.
  - (* the entry has children *)
    destruct Hc as (ac & fpa & Hac & Hsep & -> & cs & fpc & Hcs & Hs2 & ->
                    & Hlc).
    specialize (Hsep eq_refl). specialize (Hs2 eq_refl).
    rewrite Hac in Hf.
    assert (Hea : e <> ac) by (intros ->; apply Hsep, elem_of_union; left;
                               apply elem_of_singleton; reflexivity).
    assert (Hefpc : e ∉ fpc)
      by (intros Hin; apply Hsep, elem_of_union; right; exact Hin).
    assert (Hacf1 : ac ∈ {[e]} ∪ ({[ac]} ∪ fpc)) by set_solver.
    assert (Hef1 : e ∈ {[e]} ∪ ({[ac]} ∪ fpc)) by set_solver.
    assert (Hfpcf1 : forall x, x ∈ fpc -> x ∈ {[e]} ∪ ({[ac]} ∪ fpc))
      by set_solver.
    set (f1 := {[e]} ∪ ({[ac]} ∪ fpc)) in *.
    assert (Haac : a <> ac) by (intros ->; exact (Haf1 Hacf1)).
    assert (Hae : a <> e) by (intros ->; exact (Haf1 Hef1)).
    destruct (IHc c eq_refl h ac [] cs fpc Hwf Hcs Hlc Hs2 Hn)
      as (k1 & h1 & cs' & fpc' & fpci & Hrun1 & Hcs' & Hlc' & _ & Hch1 & Hw1).
    { intros x Hx Hin. apply (Hdis x Hx), elem_of_union. left.
      apply Hfpcf1, Hin. }
    { intros Hin. apply (Hdis ac Hin), elem_of_union. left. exact Hacf1. }
    pose proof Hch1 as (Hwf1 & Hnx1 & Hc1). simpl in Hcs', Hrun1.
    assert (Hkeep1 : forall x, x < next h -> x <> ac -> x ∉ fpc ->
                               cells h1 !! x = cells h !! x).
    { intros x Hx Hxac Hxfpc. apply Hc1; [exact Hx |]. intros Hin.
      apply elem_of_union in Hin as [Hin | Hin];
        [apply elem_of_singleton in Hin; exact (Hxac Hin) | exact (Hxfpc Hin)]. }
    assert (Ha1 : array h1 a = Some (done ++ e :: es_r)).
    { rewrite <- Ha. apply array_cells, Hkeep1; [exact Halt | exact Haac |].
      intros Hin. exact (Haf1 (Hfpcf1 a Hin)). }
    assert (Ho1 : object h1 e = Some o).
    { rewrite <- Ho. apply object_cells, Hkeep1;
        [apply Hlt1, Hef1 | exact Hea | exact Hefpc]. }
    set (u := next h1).
    set (ou := mergeObj o (childrenUpdate ac)).
    set (h2 := extend h1 (Obj ou)).
    set (h3 := write h2 a (Arr (<[length done := u]> (done ++ e :: es_r)))).
    assert (Hwf3 : wf h3)
      by (apply wf_write; [apply wf_extend, Hwf1 | simpl; lia]).
    assert (Hkeep3 : forall x, x < next h1 -> x <> a ->
                               cells h3 !! x = cells h1 !! x).
    { intros x Hx Hxa. unfold h3. rewrite cells_write_other by exact Hxa.
      unfold h2. apply cells_extend_old, Hx. }
    assert (Ha3 : array h3 a = Some ((done ++ [u]) ++ es_r)).
    { unfold array, h3. rewrite cells_write_same.
      rewrite insert_app_r_alt, Nat.sub_diag, <- app_assoc by lia.
      reflexivity. }
    assert (Hf2keep : forall x, x ∈ f2 -> cells h3 !! x = cells h !! x).
    { intros x Hx. rewrite Hkeep3, Hkeep1;
        [reflexivity | apply Hlt2, Hx | | | specialize (Hlt2 x Hx); lia |].
      - intros ->. exact (H3 ac Hacf1 Hx).
      - intros Hin. exact (H3 x (Hfpcf1 x Hin) Hx).
      - intros ->. exact (Haf2 Hx). }
    assert (Hfnkeep : forall x, x ∈ fn -> cells h3 !! x = cells h !! x).
    { intros x Hx. rewrite Hkeep3, Hkeep1;
        [reflexivity | apply Hfnlt, Hx | | | specialize (Hfnlt x Hx); lia |].
      - intros ->. apply (Hdis ac Hx), elem_of_union. left. exact Hacf1.
      - intros Hin. apply (Hdis x Hx), elem_of_union. left.
        apply Hfpcf1, Hin.
      - intros ->. exact (Hafn Hx). }
    destruct (IHr h3 a (done ++ [u]) es_r f2 Hwf3 Ha3)
      as (k2 & h4 & es_r' & f2' & f2i & Hrun2 & Ha4 & Hl2' & Hl2i & Hch2
          & Hw2).
    { eapply reprList_frame; [exact H2 | exact Hf2keep]. }
    { exact Haf2. }
    { eapply reprTask_frame; [exact Hn | exact Hfnkeep]. }
    { intros x Hx Hin. apply (Hdis x Hx), elem_of_union. right. exact Hin. }
    { exact Hafn. }
    pose proof Hch2 as (Hwf4 & Hnx4 & Hc4).
    assert (Hnx3 : next h3 = S (next h1)) by reflexivity.
    assert (Hkeep4 : forall x, x < next h1 -> x <> a -> x ∉ f2 ->
                               cells h4 !! x = cells h1 !! x).
    { intros x Hx Hxa Hxf2. rewrite Hc4, Hkeep3;
        [reflexivity | exact Hx | exact Hxa | lia |].
      intros Hin. apply elem_of_union in Hin as [Hin | Hin];
        [apply elem_of_singleton in Hin; exact (Hxa Hin) | exact (Hxf2 Hin)]. }
    assert (Hlt1' : forall x, x ∈ fpc' -> x < next h1)
      by (intros x Hx; eapply reprList_lt; eauto).
    assert (Hfpc'ok : forall x, x ∈ fpc' -> x <> a /\ x ∉ f2).
    { intros x Hx. destruct (Hw1 x ltac:(apply elem_of_union; left; exact Hx))
        as [Hin | [Hin | Hge]].
      - split; [intros ->; exact (Haf1 (Hfpcf1 a Hin)) |].
        intros Hin2. exact (H3 x (Hfpcf1 x Hin) Hin2).
      - split; [intros ->; exact (Hafn Hin) |].
        intros Hin2. apply (Hdis x Hin), elem_of_union. right. exact Hin2.
      - split; [lia |]. intros Hin2. apply Hlt2 in Hin2. lia. }
    assert (Hlc4 : reprList false (reprTask false h4)
                     (insertTask newTask position X c) cs' fpc').
    { eapply reprList_frame; [exact Hlc' |]. intros x Hx.
      destruct (Hfpc'ok x Hx) as [Hxa Hxf2].
      apply Hkeep4; [apply Hlt1', Hx | exact Hxa | exact Hxf2]. }
    assert (Hac4 : array h4 ac = Some cs').
    { rewrite <- Hcs'. apply array_cells, Hkeep4;
        [specialize (Hlt1 ac Hacf1); lia | congruence |].
      intros Hin. exact (H3 ac Hacf1 Hin). }
    assert (Hu4 : object h4 u = Some ou).
    { unfold object. rewrite Hc4.
      - unfold h3. rewrite cells_write_other by (unfold u; lia).
        unfold h2, u. rewrite cells_extend_new. reflexivity.
      - unfold u. lia.
      - intros Hin. apply elem_of_union in Hin as [Hin | Hin].
        + apply elem_of_singleton in Hin. unfold u in Hin. lia.
        + apply Hlt2 in Hin. unfold u in Hin. lia. }
    assert (He4 : object h4 e = Some o).
    { rewrite <- Ho1. apply object_cells, Hkeep4;
        [specialize (Hlt1 e Hef1); lia | congruence |].
      intros Hin. exact (H3 e Hef1 Hin). }
    exists (S (k1 + k2)), h4, (u :: es_r'),
      (({[u]} ∪ ({[ac]} ∪ fpc')) ∪ f2'), (({[e]} ∪ ({[ac]} ∪ fpc')) ∪ f2i).
    split.
    { intros fuel Hfuel. destruct fuel as [| fuel]; [lia |].
      rewrite (insertTask_skip_node fuel n position X a (length done) h h1
                 (done ++ e :: es_r) (done ++ e :: es_r) e e o o ac ac
                 Ha Hlook Ho Hoid).
      - rewrite <- Hdone.
        replace (length (done ++ [e])) with (length (done ++ [u]))
          by (rewrite !length_app; reflexivity).
        apply Hrun2. lia.
      - rewrite Hf. reflexivity.
      - apply Hrun1. lia.
      - exact Ha1.
      - exact Hlook.
      - exact Ho1. }
    split; [rewrite Ha4, <- app_assoc; reflexivity |].
    split.
    { apply reprList_cons; [| exact Hl2' | discriminate].
      apply (reprTask_node h4 _ u ou ac cs'
               (insertTask newTask position X c) fpc'); try assumption.
      - unfold ou. rewrite Hf. apply mergeObj_children.
      - apply children_withChildren. }
    split.
    { apply reprList_cons; [| exact Hl2i | discriminate].
      apply (reprTask_node h4 _ e o ac cs'
               (insertTask newTask position X c) fpc'); try assumption.
      apply children_withChildren. }
    split.
    { split; [exact Hwf4 |]. split; [lia |].
      intros x Hx Hxfp.
      assert (Hxa : x <> a)
        by (intros ->; apply Hxfp, elem_of_union; left;
            apply elem_of_singleton; reflexivity).
      assert (Hxf : x ∉ f1 ∪ f2)
        by (intros Hin; apply Hxfp, elem_of_union; right; exact Hin).
      rewrite Hkeep4, Hkeep1; [reflexivity | exact Hx | | | lia | exact Hxa |].
      - intros ->. apply Hxf, elem_of_union. left. exact Hacf1.
      - intros Hin. apply Hxf, elem_of_union. left. apply Hfpcf1, Hin.
      - intros Hin. apply Hxf, elem_of_union. right. exact Hin. }
    assert (Hsub : forall x, x ∈ {[ac]} ∪ fpc' ->
                             x ∈ f1 ∪ f2 \/ x ∈ fn \/ next h <= x).
    { intros x Hx. apply elem_of_union in Hx as [Hx | Hx].
      - apply elem_of_singleton in Hx. subst x. left.
        apply elem_of_union. left. exact Hacf1.
      - destruct (Hw1 x ltac:(apply elem_of_union; left; exact Hx))
          as [Hin | [Hin | Hge]].
        + left. apply elem_of_union. left. apply Hfpcf1, Hin.
        + right. left. exact Hin.
        + right. right. exact Hge. }
    assert (Hsub2 : forall x, x ∈ f2' ∪ f2i ->
                              x ∈ f1 ∪ f2 \/ x ∈ fn \/ next h <= x).
    { intros x Hx. destruct (Hw2 x Hx) as [Hin | [Hin | Hge]].
      - left. apply elem_of_union. right. exact Hin.
      - right. left. exact Hin.
      - right. right. lia. }
    intros x Hx. apply elem_of_union in Hx as [Hx | Hx];
      apply elem_of_union in Hx as [Hx | Hx].
    + apply elem_of_union in Hx as [Hx | Hx]; [| exact (Hsub x Hx)].
      apply elem_of_singleton in Hx. subst x. right. right. unfold u. lia.
    + apply Hsub2, elem_of_union. left. exact Hx.
    + apply elem_of_union in Hx as [Hx | Hx]; [| exact (Hsub x Hx)].
      apply elem_of_singleton in Hx. subst x. left.
      apply elem_of_union. left. exact Hef1.
    + apply Hsub2, elem_of_union. right. exact Hx.
  - (* the entry has no children *)
    destruct Hc as [Hnone ->].
    assert (Ha' : array h a = Some ((done ++ [e]) ++ es_r))
      by (rewrite <- app_assoc; exact Ha).
    destruct (IHr h a (done ++ [e]) es_r f2 Hwf Ha' H2 Haf2 Hn)
      as (k2 & h4 & es_r' & f2' & f2i & Hrun2 & Ha4 & Hl2' & Hl2i & Hch2
          & Hw2).
    { intros x Hx Hin. apply (Hdis x Hx), elem_of_union. right. exact Hin. }
    { exact Hafn. }
    pose proof Hch2 as (Hwf4 & Hnx4 & Hc4).
    assert (Het : reprTask false h4 t e {[e]}).
    { eapply reprTask_frame; [exact (proj1 (repr_weaken h) _ _ _ H1) |].
      intros x Hx. apply elem_of_singleton in Hx. subst x.
      apply Hc4; [apply Hlt1; set_solver |]. intros Hin.
      apply elem_of_union in Hin as [Hin | Hin].
      - apply elem_of_singleton in Hin. subst a. apply Haf1. set_solver.
      - apply (H3 e); [set_solver | exact Hin]. }
    exists (S k2), h4, (e :: es_r'), ({[e]} ∪ f2'), ({[e]} ∪ f2i).
    split.
    { intros fuel Hfuel. destruct fuel as [| fuel]; [lia |].
      rewrite (insertTask_skip_leaf fuel n position X a (length done) h
                 (done ++ e :: es_r) e o Ha Hlook Ho Hoid Hnone).
      rewrite <- Hdone. apply Hrun2. lia. }
    split; [rewrite Ha4, <- app_assoc; reflexivity |].
    split; [apply reprList_cons; [exact Het | exact Hl2' | discriminate] |].
    split; [apply reprList_cons; [exact Het | exact Hl2i | discriminate] |].
    split.
    { eapply changes_weaken; [exact Hch2 |]. intros x Hx.
      apply elem_of_union in Hx as [Hx | Hx];
        [apply elem_of_union; left; exact Hx |].
      apply elem_of_union. right. apply elem_of_union. right. exact Hx. }
    assert (Hsub2 : forall x, x ∈ f2' ∪ f2i ->
                              x ∈ {[e]} ∪ f2 \/ x ∈ fn \/ next h <= x).
    { intros x Hx. destruct (Hw2 x Hx) as [Hin | [Hin | Hge]].
      - left. apply elem_of_union. right. exact Hin.
      - right. left. exact Hin.
      - right. right. exact Hge. }
    intros x Hx. apply elem_of_union in Hx as [Hx | Hx];
      apply elem_of_union in Hx as [Hx | Hx].
    + left. apply elem_of_union. left. exact Hx.
    + apply Hsub2, elem_of_union. left. exact Hx.
    + left. apply elem_of_union. left. exact Hx.
    + apply Hsub2, elem_of_union. right. exact Hx.
Qed.

(** The loop on every tree of objects. *)
Lemma insert_run (ts : list Task) : insertRunSpec newTask position X n fn ts.
Proof.
  revert ts.
  apply (forest_ind
           (fun t => forall c, children t = Some c ->
                               insertRunSpec newTask position X n fn c)
           (insertRunSpec newTask position X n fn)).
  - intros t IH. exact IH.
  - exact insert_run_nil.
  - intros t r IHt IHr. destruct (decide (id t = X)) as [Hid | Hid].
    + apply insert_run_match, Hid.
    + apply insert_run_skip; assumption.
Qed.

End InsertRun.

(** For every forest, new task, position and target id, the insertion
    run on fresh objects returns, given enough fuel, the forest the
    insertion on values returns; the forest it was given is
    [leftByInsert] after the call. *)
Theorem insert_on_store (T : list Task) (newTask : Task)
    (position : Position) (X : string) :
  exists k, forall fuel, k <= fuel ->
    Heap.returnedBy fuel T (Heap.insertCall fuel newTask position X)
    = Some (addTaskAtPosition T newTask position X) /\
    Heap.inputAfter fuel T (Heap.insertCall fuel newTask position X)
    = Some (leftByInsert newTask position X T).
Proof.
  destruct (allocForest_repr T) as (a & h & entries & fp & Hal & Hwf & Ha
                                    & Hafp & Hl).
  destruct (proj1 alloc_repr newTask h Hwf)
    as (n & h1 & fn & Hrunn & (Hwf1 & Hn1 & Hc1) & Hrn & Hfn).
  assert (Halt : a < next h)
    by (apply wf_lt; [exact Hwf | rewrite (array_is_Some _ _ _ Ha); eauto]).
  assert (Hfplt : forall x, x ∈ fp -> x < next h)
    by (intros x Hx; exact (reprList_lt true h T entries fp x Hwf Hl Hx)).
  assert (Hfnlt : forall x, x ∈ fn -> x < next h1)
    by (intros x Hx; exact (reprTask_lt true h1 newTask n fn x Hwf1 Hrn Hx)).
  set (a' := next h1). set (h2 := extend h1 (Arr entries)).
  assert (Hkeep2 : forall x, x < next h -> cells h2 !! x = cells h !! x).
  { intros x Hx. unfold h2. rewrite cells_extend_old by lia.
    apply Hc1; [exact Hx | set_solver]. }
  destruct (insert_run newTask position X n fn T h2 a' [] entries fp)
    as (k & h' & es' & fp' & fpi & Hrun & Ha' & Hl' & Hli
        & (Hwf' & Hnx' & Hc') & Hw).
  { apply wf_extend, Hwf1. }
  { unfold array, h2, a'. rewrite cells_extend_new. reflexivity. }
  { eapply reprList_frame; [exact Hl |]. intros x Hx.
    apply Hkeep2, Hfplt, Hx. }
  { intros Hin. apply Hfplt in Hin. unfold a' in Hin. lia. }
  { eapply reprTask_frame; [exact (proj1 (repr_weaken h1) _ _ _ Hrn) |].
    intros x Hx. unfold h2. apply cells_extend_old, Hfnlt, Hx. }
  { intros x Hx Hin. apply Hfn in Hx. apply Hfplt in Hin. lia. }
  { intros Hin. apply Hfnlt in Hin. unfold a' in Hin. lia. }
  simpl in Ha', Hrun.
  destruct (readForest_repr false h' a' es'
              (insertTask newTask position X T) fp' Ha' Hl') as [k2 Hk2].
  destruct (readForest_repr false h' a entries
              (leftByInsert newTask position X T) fpi) as [k3 Hk3].
  { rewrite <- Ha. apply array_cells. rewrite Hc'.
    - apply Hkeep2, Halt.
    - simpl. lia.
    - intros Hin. apply elem_of_union in Hin as [Hin | Hin].
      + apply elem_of_singleton in Hin. unfold a' in Hin. lia.
      + exact (Hafp Hin). }
  { exact Hli. }
  exists (k + k2 + k3). intros fuel Hfuel.
  assert (Hcall : Heap.insertCall fuel newTask position X a h
                  = Some (a', h')).
  { unfold Heap.insertCall. rewrite bind_run, Hrunn.
    unfold Heap.addTaskAtPosition.
    assert (Ha1 : array h1 a = Some entries).
    { rewrite <- Ha. apply array_cells, Hc1; [exact Halt | set_solver]. }
    rewrite bind_run, (getArray_run _ _ _ Ha1), bind_run.
    change (alloc (Arr entries) h1) with (Some (a', h2)).
    apply Hrun. lia. }
  rewrite (returnedBy_run _ T _ a _ h _ Hal Hcall).
  rewrite (inputAfter_run _ T _ a _ h _ Hal Hcall).
  split; [apply Hk2 | apply Hk3]; lia.
Qed.

(** *** The update changes no object of any store *)

Lemma preserves_ret {A : Type} (a : A) : preserves (mret a).
Proof. intros h a' h' H. injection H as <- <-. split; [lia | reflexivity]. Qed.

Lemma preserves_bind {A B : Type} (m : M A) (k : A -> M B) :
  preserves m -> (forall a, preserves (k a)) ->
  preserves (m ≫= k).
Proof.
  intros Hm Hk h b h' H. unfold mbind, M_bind in H.
  destruct (m h) as [[a h1] |] eqn:E; [| discriminate].
  destruct (Hm h a h1 E) as [Hn1 Hc1].
  destruct (Hk a h1 b h' H) as [Hn2 Hc2].
  split; [lia |]. intros l Hl. rewrite Hc2 by lia. apply Hc1, Hl.
Qed.

Lemma preserves_alloc (c : cell) : preserves (alloc c).
Proof.
  intros h a h' H. injection H as <- <-. simpl. split; [lia |].
  intros l Hl. apply lookup_insert_ne. lia.
Qed.

Lemma preserves_getObject (l : loc) : preserves (getObject l).
Proof.
  intros h a h' H. unfold getObject in H.
  destruct (object h l); [| discriminate].
  injection H as <- <-. split; [lia | reflexivity].
Qed.

Lemma preserves_getArray (l : loc) : preserves (getArray l).
Proof.
  intros h a h' H. unfold getArray in H.
  destruct (array h l); [| discriminate].
  injection H as <- <-. split; [lia | reflexivity].
Qed.

Lemma preserves_stuck {A : Type} : preserves (@stuck A).
Proof. intros h a h' H. discriminate H. Qed.

Lemma preserves_mapM {A B : Type} (f : A -> M B) (l : list A) :
  (forall x, preserves (f x)) -> preserves (mapM f l).
Proof.
  intros Hf. induction l as [| x r IH]; [apply preserves_ret |].
  simpl. apply preserves_bind; [apply Hf |]. intros y.
  apply preserves_bind; [exact IH |]. intros ys. apply preserves_ret.
Qed.

(** Whatever the store, the array and the payload, the update leaves
    every object and array that was there as it was. *)
Lemma updateTaskRecursively_preserves (fuel : nat) (tasks : loc)
    (taskId : string) (updates : TaskUpdatesOf loc) :
  preserves (Heap.updateTaskRecursively fuel tasks taskId updates).
Proof.
  revert tasks. induction fuel as [| fuel IH]; intros tasks;
    [apply preserves_stuck |].
  simpl. apply preserves_bind; [apply preserves_getArray |]. intros entries.
  apply preserves_bind; [| intros mapped; apply preserves_alloc].
  apply preserves_mapM. intros task. unfold Heap.updateCallback.
  apply preserves_bind; [apply preserves_getObject |]. intros o.
  case_bool_decide; [apply preserves_alloc |].
  destruct (o_children o) as [c |]; [| apply preserves_ret].
  apply preserves_bind; [apply IH |]. intros c'. apply preserves_alloc.
Qed.

(** *** The update on objects that stand for a forest *)

Lemma mergeObj_mergeTask (t : Task) (c0 : option loc) (u : TaskUpdates)
    (ou : TaskUpdatesOf loc) :
  forgetChildren u = forgetChildren ou ->
  mergeObj (objOf t c0) ou
  = objOf (mergeTask t u) (default c0 (u_children ou)).
Proof.
  destruct t, u, ou. unfold forgetChildren. simpl. intros H.
  injection H as -> -> -> -> -> -> -> _ -> -> -> -> -> -> ->. reflexivity.
Qed.

Lemma children_mergeTask (t : Task) (u : TaskUpdates) :
  children (mergeTask t u) = default (children t) (u_children u).
Proof. reflexivity. Qed.

(** What is there stays there when no cell changes. *)
Lemma reprTask_preserved (sep : bool) (h h' : heap) (t : Task) (l : loc)
    (fp : gset loc) :
  wf h -> changes h h' ∅ -> reprTask sep h t l fp -> reprTask sep h' t l fp.
Proof.
  intros Hwf (_ & _ & Hc) H. eapply reprTask_frame; [exact H |].
  intros x Hx. apply Hc; [exact (reprTask_lt sep h t l fp x Hwf H Hx) |].
  set_solver.
Qed.

Lemma reprList_preserved (sep : bool) (h h' : heap) (ts : list Task)
    (entries : list loc) (fp : gset loc) :
  wf h -> changes h h' ∅ ->
  reprList sep (reprTask sep h) ts entries fp ->
  reprList sep (reprTask sep h') ts entries fp.
Proof.
  intros Hwf (_ & _ & Hc) H. eapply reprList_frame; [exact H |].
  intros x Hx. apply Hc; [exact (reprList_lt sep h ts entries fp x Hwf H Hx) |].
  set_solver.
Qed.

Lemma array_preserved (h h' : heap) (a : loc) (entries : list loc) :
  wf h -> changes h h' ∅ -> array h a = Some entries ->
  array h' a = Some entries.
Proof.
  intros Hwf (_ & _ & Hc) Ha. rewrite <- Ha. apply array_cells, Hc;
    [| set_solver].
  apply wf_lt; [exact Hwf | rewrite (array_is_Some _ _ _ Ha); eauto].
Qed.

Lemma object_preserved (h h' : heap) (l : loc) (o : TaskObj) :
  wf h -> changes h h' ∅ -> object h l = Some o -> object h' l = Some o.
Proof.
  intros Hwf (_ & _ & Hc) Ho. rewrite <- Ho. apply object_cells, Hc;
    [| set_solver].
  apply wf_lt; [exact Hwf | rewrite (object_is_Some _ _ _ Ho); eauto].
Qed.

Lemma reprUpdates_preserved (h h' : heap) (u : TaskUpdates)
    (ou : TaskUpdatesOf loc) (fu : gset loc) :
  wf h -> changes h h' ∅ -> reprUpdates h u ou fu -> reprUpdates h' u ou fu.
Proof.
  intros Hwf Hch [Hs Hc]. split; [exact Hs |].
  destruct (u_children u) as [[ts |] |]; try exact Hc.
  destruct (u_children ou) as [[a |] |]; try exact Hc.
  destruct Hc as (entries & fpc & Ha & Hsep & -> & Hl).
  exists entries, fpc. split; [eapply array_preserved; eauto |].
  split; [exact Hsep |]. split; [reflexivity |].
  eapply reprList_preserved; eauto.
Qed.

Lemma changes_nothing_trans (h h1 h2 : heap) :
  changes h h1 ∅ -> changes h1 h2 ∅ -> changes h h2 ∅.
Proof. intros H1 H2. eapply changes_trans; eauto; set_solver. Qed.

Lemma mapM_step {A B : Type} (f : A -> M B) (x : A) (r : list A)
    (h h1 h2 : heap) (y : B) (ys : list B) :
  f x h = Some (y, h1) -> mapM f r h1 = Some (ys, h2) ->
  mapM f (x :: r) h = Some (y :: ys, h2).
Proof.
  intros Hx Hr. simpl. rewrite bind_run, Hx, bind_run, Hr. reflexivity.
Qed.

Lemma updateTaskRecursively_step (fuel : nat) (a : loc) (X : string)
    (ou : TaskUpdatesOf loc) (h h1 : heap) (entries mapped : list loc) :
  array h a = Some entries ->
  mapM (Heap.updateCallback
          (fun c => Heap.updateTaskRecursively fuel c X ou) X ou) entries h
  = Some (mapped, h1) ->
  Heap.updateTaskRecursively (S fuel) a X ou h
  = Some (next h1, extend h1 (Arr mapped)).
Proof.
  intros He Hrun. simpl.
  rewrite bind_run, (getArray_run _ _ _ He), bind_run, Hrun. reflexivity.
Qed.

(** The update, given enough fuel, returns objects that stand for what
    the update on values returns, and changes no cell. *)
Lemma update_run (X : string) (u : TaskUpdates) (ou : TaskUpdatesOf loc)
    (fu : gset loc) :
  (forall t h l fp,
     wf h -> reprTask false h t l fp -> reprUpdates h u ou fu ->
     exists k h' l' fp',
       (forall fuel, k <= fuel ->
          Heap.updateCallback
            (fun c => Heap.updateTaskRecursively fuel c X ou) X ou l h
          = Some (l', h')) /\
       reprTask false h' (updateTask X u t) l' fp' /\
       changes h h' ∅) /\
  (forall ts h entries fp,
     wf h -> reprList false (reprTask false h) ts entries fp ->
     reprUpdates h u ou fu ->
     exists k h' mapped fp',
       (forall fuel, k <= fuel ->
          mapM (Heap.updateCallback
                  (fun c => Heap.updateTaskRecursively fuel c X ou) X ou)
            entries h
          = Some (mapped, h')) /\
       reprList false (reprTask false h') (updateTaskRecursively ts X u)
         mapped fp' /\
       changes h h' ∅).
Proof.
  apply task_and_forest_ind.
  - intros t IH h l fp Hwf H Hu. pose proof H as Hrepr.
    rewrite reprTask_eq in H. destruct H as (o & Ho & Hf & Hc).
    rewrite updateTask_eq.
    destruct (decide (id t = X)) as [Hid | Hid].
    + (* the task that matches: a merged copy *)
      rewrite bool_decide_eq_true_2 by exact Hid.
      set (h' := extend h (Obj (mergeObj o ou))).
      assert (Hch : changes h h' ∅) by (apply changes_extend, Hwf).
      assert (Hobj : object h' (next h) = Some (mergeObj o ou))
        by (unfold object, h'; rewrite cells_extend_new; reflexivity).
      assert (Hrun : forall fuel,
                Heap.updateCallback
                  (fun c => Heap.updateTaskRecursively fuel c X ou) X ou l h
                = Some (next h, h')).
      { intros fuel. unfold Heap.updateCallback.
        rewrite bind_run, (getObject_run _ _ _ Ho).
        rewrite bool_decide_eq_true_2 by (rewrite Hf; exact Hid).
        reflexivity. }
      pose proof Hu as [Hs Huc].
      assert (Hmerge : mergeObj o ou
                       = objOf (mergeTask t u)
                           (default (o_children o) (u_children ou)))
        by (rewrite Hf at 1; apply mergeObj_mergeTask, Hs).
      assert (Hshape : option_map (option_map (fun _ => tt)) (u_children u)
                       = option_map (option_map (fun _ => tt))
                           (u_children ou)).
      { destruct u, ou. unfold forgetChildren in Hs. simpl in *.
        injection Hs as _ _ _ _ _ _ _ Hs _ _ _ _ _ _ _. exact Hs. }
      destruct (u_children u) as [[ts |] |] eqn:Eu;
        destruct (u_children ou) as [[au |] |] eqn:Eou;
        try discriminate Hshape.
      * (* the payload has children *)
        destruct (reprUpdates_preserved h h' u ou fu Hwf Hch Hu) as [_ Huc'].
        rewrite Eu, Eou in Huc'.
        destruct Huc' as (entries & fpc & Ha & _ & -> & Hl).
        exists 0, h', (next h), ({[next h]} ∪ ({[au]} ∪ fpc)).
        split; [intros fuel _; apply Hrun |]. split; [| exact Hch].
        apply (reprTask_node h' _ (next h) (mergeObj o ou) au entries ts fpc);
          try assumption.
        rewrite children_mergeTask, Eu. reflexivity.
      * (* the payload sets children to undefined *)
        exists 0, h', (next h), {[next h]}.
        split; [intros fuel _; apply Hrun |]. split; [| exact Hch].
        rewrite reprTask_eq, children_mergeTask, Eu. simpl.
        exists (mergeObj o ou). split; [exact Hobj |].
        rewrite Hmerge. simpl. repeat split; reflexivity.
      * (* the payload has no children key *)
        simpl in Hmerge.
        destruct (children t) as [c |] eqn:E.
        -- destruct Hc as (a & fpa & Ha & _ & -> & entries & fpc & He & _
                           & -> & Hl).
           rewrite Ha in Hmerge.
           exists 0, h', (next h), ({[next h]} ∪ ({[a]} ∪ fpc)).
           split; [intros fuel _; apply Hrun |]. split; [| exact Hch].
           apply (reprTask_node h' _ (next h) (mergeObj o ou) a entries c
                    fpc); try assumption.
           ++ rewrite children_mergeTask, Eu. exact E.
           ++ exact (array_preserved h h' a entries Hwf Hch He).
           ++ exact (reprList_preserved false h h' c entries fpc Hwf Hch Hl).
        -- destruct Hc as [Hn ->]. rewrite Hn in Hmerge.
           exists 0, h', (next h), {[next h]}.
           split; [intros fuel _; apply Hrun |]. split; [| exact Hch].
           rewrite reprTask_eq, children_mergeTask, Eu. simpl. rewrite E.
           exists (mergeObj o ou). split; [exact Hobj |].
           rewrite Hmerge. simpl. repeat split; reflexivity.
    + rewrite bool_decide_eq_false_2 by exact Hid.
      assert (Hoid : o_id o <> X) by (rewrite Hf; exact Hid).
      destruct (children t) as [c |] eqn:E.
      * (* another task with children: a copy with the new children *)
        destruct Hc as (a & fpa & Ha & _ & -> & entries & fpc & He & _
                        & -> & Hl).
        destruct (IH c eq_refl h entries fpc Hwf Hl Hu)
          as (k & h1 & mapped & fpc' & Hrun & Hl1 & Hch1).
        pose proof Hch1 as (Hwf1 & Hn1 & Hc1).
        set (h2 := extend h1 (Arr mapped)).
        set (ou' := mergeObj o (childrenUpdate (next h1))).
        set (h3 := extend h2 (Obj ou')).
        assert (Hch3 : changes h h3 ∅).
        { eapply changes_nothing_trans; [exact Hch1 |].
          eapply changes_nothing_trans; [apply changes_extend, Hwf1 |].
          apply changes_extend, wf_extend, Hwf1. }
        assert (Hlt1 : forall x, x ∈ fpc' -> x < next h1)
          by (intros x Hx;
              exact (reprList_lt false h1 _ mapped fpc' x Hwf1 Hl1 Hx)).
        exists (S k), h3, (next h2), ({[next h2]} ∪ ({[next h1]} ∪ fpc')).
        split.
        { intros fuel Hfuel. destruct fuel as [| fuel]; [lia |].
          unfold Heap.updateCallback.
          rewrite bind_run, (getObject_run _ _ _ Ho).
          rewrite bool_decide_eq_false_2, Ha by exact Hoid.
          rewrite bind_run.
          rewrite (updateTaskRecursively_step fuel a X ou h h1 entries
                     mapped He) by (apply Hrun; lia).
          reflexivity. }
        split; [| exact Hch3].
        apply (reprTask_node h3 _ (next h2) ou' (next h1) mapped
                 (updateTaskRecursively c X u) fpc').
        -- unfold object, h3. rewrite cells_extend_new. reflexivity.
        -- unfold ou'. rewrite Hf. apply mergeObj_children.
        -- apply children_withChildren.
        -- unfold array, h3. rewrite cells_extend_old by (simpl; lia).
           unfold h2. rewrite cells_extend_new. reflexivity.
        -- eapply reprList_frame; [exact Hl1 |]. intros x Hx.
           apply Hlt1 in Hx. unfold h3.
           rewrite cells_extend_old by (simpl; lia).
           unfold h2. apply cells_extend_old, Hx.
      * (* another task without children: the task itself *)
        destruct Hc as [Hn ->].
        exists 0, h, l, {[l]}.
        split.
        { intros fuel _. unfold Heap.updateCallback.
          rewrite bind_run, (getObject_run _ _ _ Ho).
          rewrite bool_decide_eq_false_2, Hn by exact Hoid. reflexivity. }
        split; [exact Hrepr | apply changes_refl, Hwf].
  - intros h entries fp Hwf H Hu. apply reprList_nil_inv in H as [-> ->].
    exists 0, h, [], ∅. split; [reflexivity |].
    split; [reflexivity | apply changes_refl, Hwf].
  - intros t r IHt IHr h entries fp Hwf H Hu.
    apply reprList_cons_inv in H
      as (e & es & f1 & f2 & -> & H1 & H2 & _ & ->).
    destruct (IHt h e f1 Hwf H1 Hu) as (k1 & h1 & e' & f1' & Hrun1 & Hr1 & Hch1).
    pose proof Hch1 as (Hwf1 & Hn1 & Hc1).
    destruct (IHr h1 es f2 Hwf1) as (k2 & h2 & es' & f2' & Hrun2 & Hr2 & Hch2).
    { exact (reprList_preserved false h h1 r es f2 Hwf Hch1 H2). }
    { exact (reprUpdates_preserved h h1 u ou fu Hwf Hch1 Hu). }
    exists (k1 + k2), h2, (e' :: es'), (f1' ∪ f2').
    split.
    { intros fuel Hfuel.
      apply (mapM_step _ e es h h1 h2 e' es'); [apply Hrun1 | apply Hrun2];
        lia. }
    split; [| exact (changes_nothing_trans h h1 h2 Hch1 Hch2)].
    apply reprList_cons; [| exact Hr2 | discriminate].
    exact (reprTask_preserved false h1 h2 _ e' f1' Hwf1 Hch2 Hr1).
Qed.

Lemma allocForest_at (ts : list Task) (h : heap) :
  wf h ->
  exists a h' entries fp,
    allocForest ts h = Some (a, h') /\ changes h h' ∅ /\
    array h' a = Some entries /\
    reprList false (reprTask false h') ts entries fp.
Proof.
  intros Hwf.
  destruct (proj2 alloc_repr ts h Hwf)
    as (entries & h1 & fp & Hrun & Hch1 & Hl & Hfr).
  pose proof Hch1 as (Hwf1 & Hn1 & Hc1).
  assert (Hch2 : changes h1 (extend h1 (Arr entries)) ∅)
    by (apply changes_extend, Hwf1).
  exists (next h1), (extend h1 (Arr entries)), entries, fp.
  split; [unfold allocForest; rewrite bind_run, Hrun; reflexivity |].
  split; [exact (changes_nothing_trans h h1 _ Hch1 Hch2) |].
  split; [unfold array; rewrite cells_extend_new; reflexivity |].
  apply (reprList_preserved false h1 _ ts entries fp Hwf1 Hch2).
  exact (proj2 (repr_weaken h1) _ _ _ Hl).
Qed.

Lemma allocUpdates_repr (u : TaskUpdates) (h : heap) :
  wf h ->
  exists ou h' fu,
    allocUpdates u h = Some (ou, h') /\ changes h h' ∅ /\
    reprUpdates h' u ou fu.
Proof.
  intros Hwf. unfold allocUpdates.
  destruct (u_children u) as [[ts |] |] eqn:E.
  - destruct (allocForest_at ts h Hwf) as (a & h' & entries & fp & Hrun & Hch
                                          & Ha & Hl).
    eexists _, h', ({[a]} ∪ fp).
    split; [rewrite bind_run, bind_run, Hrun; reflexivity |].
    split; [exact Hch |]. split.
    + destruct u. unfold forgetChildren. simpl in *. rewrite E. reflexivity.
    + rewrite E. simpl. exists entries, fp. split; [exact Ha |].
      split; [discriminate |]. split; [reflexivity | exact Hl].
  - eexists _, h, ∅. split; [reflexivity |].
    split; [apply changes_refl, Hwf |]. split.
    + destruct u. unfold forgetChildren. simpl in *. rewrite E. reflexivity.
    + rewrite E. reflexivity.
  - eexists _, h, ∅. split; [reflexivity |].
    split; [apply changes_refl, Hwf |]. split.
    + destruct u. unfold forgetChildren. simpl in *. rewrite E. reflexivity.
    + rewrite E. reflexivity.
Qed.

(** For every forest, id and payload, the update run on fresh objects
    returns, given enough fuel, the forest the update on values returns,
    and the forest it was given is the same after the call. *)
Theorem update_on_store (T : list Task) (X : string) (u : TaskUpdates) :
  exists k, forall fuel, k <= fuel ->
    Heap.returnedBy fuel T (Heap.updateCall fuel X u)
    = Some (updateTaskRecursively T X u) /\
    Heap.inputAfter fuel T (Heap.updateCall fuel X u) = Some T.
Proof.
  destruct (allocForest_at T emptyHeap wf_emptyHeap)
    as (a & h & entries & fp & Hal & (Hwf & _ & _) & Ha & Hl).
  destruct (allocUpdates_repr u h Hwf) as (ou & h1 & fu & Hau & Hch1 & Hu).
  pose proof Hch1 as (Hwf1 & Hn1 & Hc1).
  pose proof (array_preserved h h1 a entries Hwf Hch1 Ha) as Ha1.
  pose proof (reprList_preserved false h h1 T entries fp Hwf Hch1 Hl) as Hl1.
  destruct (proj2 (update_run X u ou fu) T h1 entries fp Hwf1 Hl1 Hu)
    as (k & h2 & mapped & fp' & Hrun & Hl2 & Hch2).
  pose proof Hch2 as (Hwf2 & Hn2 & Hc2).
  set (h3 := extend h2 (Arr mapped)).
  assert (Hch3 : changes h2 h3 ∅) by (apply changes_extend, Hwf2).
  destruct (readForest_repr false h3 (next h2) mapped
              (updateTaskRecursively T X u) fp') as [k2 Hk2].
  { unfold array, h3. rewrite cells_extend_new. reflexivity. }
  { exact (reprList_preserved false h2 h3 _ mapped fp' Hwf2 Hch3 Hl2). }
  destruct (readForest_repr false h3 a entries T fp) as [k3 Hk3].
  { apply (array_preserved h2 h3 a entries Hwf2 Hch3).
    exact (array_preserved h1 h2 a entries Hwf1 Hch2 Ha1). }
  { apply (reprList_preserved false h2 h3 T entries fp Hwf2 Hch3).
    exact (reprList_preserved false h1 h2 T entries fp Hwf1 Hch2 Hl1). }
  exists (S k + k2 + k3). intros fuel Hfuel.
  destruct fuel as [| fuel]; [lia |].
  assert (Hcall : Heap.updateCall (S fuel) X u a h = Some (next h2, h3)).
  { unfold Heap.updateCall. rewrite bind_run, Hau.
    apply (updateTaskRecursively_step fuel a X ou h1 h2 entries mapped Ha1).
    apply Hrun. lia. }
  rewrite (returnedBy_run _ T _ a _ h _ Hal Hcall).
  rewrite (inputAfter_run _ T _ a _ h _ Hal Hcall).
  split; [apply Hk2 | apply Hk3]; lia.
Qed.

(** *** When the deletion changes the forest it was given *)

Lemma deleteTask_id_gone (X : string) (t t' : Task) :
  deleteTask X t = Some t' -> X ∉ taskIds t'.
Proof.
  intros H. pose proof (deleteTaskRecursively_id_gone X [t]) as Hg.
  rewrite deleteTaskRecursively_cons, H in Hg.
  change (deleteTaskRecursively [] X) with (@nil Task) in Hg.
  rewrite forestIds_single in Hg. exact Hg.
Qed.

(** A root that does not have the id, with a node below it that has: the
    forest the deletion was given is not the same after the call. *)
Lemma leftByDelete_differs (X : string) (T : list Task) (t : Task)
    (c : list Task) :
  t ∈ T -> id t <> X -> children t = Some c -> X ∈ forestIds c ->
  leftByDelete X T <> T.
Proof.
  intros Hin Hid Hc HX Heq.
  assert (Ht : default t (deleteTask X t) = t).
  { apply list_elem_of_lookup in Hin as [i Hi].
    assert (Hi' : leftByDelete X T !! i = Some (default t (deleteTask X t)))
      by (unfold leftByDelete; rewrite list_lookup_fmap, Hi; reflexivity).
    rewrite Heq, Hi in Hi'. injection Hi' as Hi'. symmetry. exact Hi'. }
  destruct (deleteTask X t) as [t' |] eqn:E.
  - simpl in Ht. subst t'. apply (deleteTask_id_gone X t t E).
    rewrite taskIds_eq, Hc. apply elem_of_cons. right. exact HX.
  - rewrite deleteTask_eq, bool_decide_eq_false_2 in E by exact Hid.
    discriminate E.
Qed.

Theorem delete_changes_input_below_roots (T : list Task) (X : string)
    (t : Task) (c : list Task) :
  t ∈ T -> id t <> X -> children t = Some c -> X ∈ forestIds c ->
  exists k, forall fuel, k <= fuel ->
    exists after,
      Heap.inputAfter fuel T (Heap.deleteCall fuel X) = Some after /\
      after <> T.
Proof.
  intros Hin Hid Hc HX. destruct (delete_on_store T X) as [k Hk].
  exists k. intros fuel Hfuel. exists (leftByDelete X T).
  split; [apply Hk, Hfuel |]. eapply leftByDelete_differs; eauto.
Qed.

(** *** When the insertion changes the forest it was given *)

Lemma leftByInsert_roots (newTask : Task) (position : Position) (X : string)
    (T : list Task) :
  (forall t, t ∈ T -> id t <> X) ->
  leftByInsert newTask position X T = map (insertBelow newTask position X) T.
Proof.
  induction T as [| t r IH]; intros Hroots; [reflexivity |].
  simpl. rewrite bool_decide_eq_false_2
    by (apply Hroots, elem_of_cons; left; reflexivity).
  rewrite IH; [reflexivity |].
  intros t' Hin. apply Hroots, elem_of_cons. right. exact Hin.
Qed.

(** An insertion that finds its target returns another forest. *)
Lemma insertTask_differs (newTask : Task) (position : Position) (X : string)
    (c : list Task) :
  X ∈ forestIds c -> insertTask newTask position X c <> c.
Proof.
  intros HX Heq. destruct (locate_present X c HX) as (path & j & Hl).
  destruct (insertTask_located newTask position X c path j Hl)
    as (l1 & x & l2 & H1 & _ & _ & H2).
  rewrite Heq, H1 in H2. injection H2 as H2.
  destruct position; simpl in H2.
  - apply (f_equal length) in H2. rewrite !length_app in H2. simpl in H2. lia.
  - apply (f_equal length) in H2. rewrite !length_app in H2. simpl in H2. lia.
  - apply app_inv_head in H2. injection H2 as H2.
    apply (f_equal children) in H2. rewrite children_addSubtask in H2.
    destruct (children x) as [cx |]; [| discriminate H2].
    injection H2 as H2. apply (f_equal length) in H2.
    rewrite length_app in H2. simpl in H2. lia.
Qed.

(** The target below a root, no root having the target id: the forest
    the insertion was given is not the same after the call. *)
Theorem insert_changes_input_below_roots (T : list Task) (newTask : Task)
    (position : Position) (X : string) (t : Task) (c : list Task) :
  (forall t', t' ∈ T -> id t' <> X) ->
  t ∈ T -> children t = Some c -> X ∈ forestIds c ->
  exists k, forall fuel, k <= fuel ->
    exists after,
      Heap.inputAfter fuel T (Heap.insertCall fuel newTask position X)
      = Some after /\
      after <> T.
Proof.
  intros Hroots Hin Hc HX.
  destruct (insert_on_store T newTask position X) as [k Hk].
  exists k. intros fuel Hfuel.
  exists (leftByInsert newTask position X T).
  split; [apply Hk, Hfuel |].
  rewrite (leftByInsert_roots _ _ _ _ Hroots). intros Heq.
  apply list_elem_of_lookup in Hin as [i Hi].
  assert (Hi' : map (insertBelow newTask position X) T !! i
                = Some (insertBelow newTask position X t))
    by (rewrite list_lookup_fmap, Hi; reflexivity).
  rewrite Heq, Hi in Hi'. injection Hi' as Hi'.
  rewrite insertBelow_eq, Hc in Hi'.
  apply (f_equal children) in Hi'.
  rewrite children_withChildren, Hc in Hi'. injection Hi' as Hi'.
  symmetry in Hi'. exact (insertTask_differs newTask position X c HX Hi').
Qed.

(** ** The helpers on the example forests *)

(** On the example forest the store runs return the forests the helpers
    on values return. *)
Lemma store_runs_agree_on_example :
  Heap.returnedBy 20 exampleForest
    (Heap.updateCall 20 "3" (expansionUpdate true))
  = Some (updateTaskRecursively exampleForest "3" (expansionUpdate true)) /\
  Heap.returnedBy 20 exampleForest (Heap.deleteCall 20 "2")
  = Some (deleteTaskRecursively exampleForest "2") /\
  Heap.returnedBy 20 exampleForest (Heap.deleteCall 20 "1")
  = Some (deleteTaskRecursively exampleForest "1") /\
  (forall position target,
     target ∈ ["1"; "2"; "3"; "4"; "5"] ->
     Heap.returnedBy 20 exampleForest
       (Heap.insertCall 20 (exampleLeaf "9") position target)
     = Some (addTaskAtPosition exampleForest (exampleLeaf "9") position
               target)).
Proof.
  split; [vm_compute; reflexivity |]. split; [vm_compute; reflexivity |].
  split; [vm_compute; reflexivity |].
  intros position target Hin. apply list_elem_of_In in Hin. simpl in Hin.
  destruct Hin as [<- | [<- | [<- | [<- | [<- | []]]]]];
    destruct position; vm_compute; reflexivity.
Qed.

(** C2 fails on the code.  Task 1 of the example forest has children 2
    and 3.  After the deletion of task 2 the forest that was given has
    lost task 2 too: line 314 assigned a new children array to task 1
    itself.  After the insertion of a task above task 3, below it, or as
    its subtask, the forest that was given holds the new task too: the
    loop ran on the children array of task 1 itself.  (The update leaves
    the forest it was given as it was.) *)
Theorem delete_and_insert_change_their_input :
  (exists after,
     Heap.inputAfter 20 exampleForest (Heap.deleteCall 20 "2") = Some after /\
     after <> exampleForest /\
     after = [exampleParent "1" [exampleLeaf "3"]; exampleLeaf "4"]) /\
  (exists after,
     Heap.inputAfter 20 exampleForest
       (Heap.insertCall 20 (exampleLeaf "9") above "3") = Some after /\
     after <> exampleForest /\
     after =
     [exampleParent "1" [exampleLeaf "2"; exampleLeaf "9"; exampleLeaf "3"];
      exampleLeaf "4"]) /\
  (exists after,
     Heap.inputAfter 20 exampleForest
       (Heap.insertCall 20 (exampleLeaf "9") below "3") = Some after /\
     after <> exampleForest /\
     after =
     [exampleParent "1" [exampleLeaf "2"; exampleLeaf "3"; exampleLeaf "9"];
      exampleLeaf "4"]) /\
  (exists after,
     Heap.inputAfter 20 exampleForest
       (Heap.insertCall 20 (exampleLeaf "9") subtask "3") = Some after /\
     after <> exampleForest /\
     after =
     [exampleParent "1"
        [exampleLeaf "2";
         addSubtask (exampleLeaf "3") (exampleLeaf "9") "3"];
      exampleLeaf "4"]) /\
  (exists after,
     Heap.inputAfter 20 exampleForest
       (Heap.updateCall 20 "3" (expansionUpdate true)) = Some after /\
     after = exampleForest).
Proof.
  repeat split; eexists; (split; [vm_compute; reflexivity |]);
    try (split; [discriminate | reflexivity]); reflexivity.
Qed.

Lemma store_runs_agree_on_deep_forest (target : string) :
  target ∈ ["1"; "2"; "3"; "4"; "5"; "6"] ->
  Heap.returnedBy 30 deepForest
    (Heap.updateCall 30 target (expansionUpdate true))
  = Some (updateTaskRecursively deepForest target (expansionUpdate true)) /\
  Heap.returnedBy 30 deepForest (Heap.deleteCall 30 target)
  = Some (deleteTaskRecursively deepForest target) /\
  (forall position,
     Heap.returnedBy 30 deepForest
       (Heap.insertCall 30 (exampleLeaf "9") position target)
     = Some (addTaskAtPosition deepForest (exampleLeaf "9") position
               target)).
Proof.
  intros Hin. apply list_elem_of_In in Hin. simpl in Hin.
  destruct Hin as [<- | [<- | [<- | [<- | [<- | [<- | []]]]]]];
    (split; [vm_compute; reflexivity |]);
    (split; [vm_compute; reflexivity |]);
    intros position; destruct position; vm_compute; reflexivity.
Qed.
